(** * Scout categorization: context classifiers and relationship frictions

    A shallow embedding of [flow_components/scout_categorization.py]:
    [process_global_context], [transform_user_state],
    [analyze_relationships], [calculate_proximity_category] and
    [curate_opportunities], with the properties of the classification
    layer stated and proved over it.

    Conventions of the embedding.
    - A JSON object read by the code is a record; a key read with
      [d.get(k)] or [d.get(k, default)] is an [option] field ([None]: the
      key is absent), and a subscript [d[k]] on an absent key raises
      [KeyError].  Values have the JSON type the code expects of them.
    - Python exceptions are the [Raise] results of the [result] monad; the
      first one aborts the call, as in Python.
    - JSON numbers are binary64 floats (the kernel's [float]), with IEEE
      arithmetic and comparisons.  [x ** 2] is the float power of CPython: it
      calls [pow] of the C library of the platform (the class [Libm]), whose
      result need not be correctly rounded, and raises OverflowError when
      that result is infinite; [math.sqrt] raises ValueError where the root
      does not exist.
    - Python strings are [string]s of bytes (UTF-8).  [str.upper],
      [str.lower] and [str.split] are modelled on the ASCII range: on text
      with letters or whitespace outside ASCII, the case mappings and the
      whitespace of Unicode are not followed.
    - The closed output vocabularies are inductive types; [seen_pairs] is a
      [gset] and the dictionaries built by the code are [gmap]s. *)

From Stdlib Require Import Floats ZArith Ascii.
From stdpp Require Import gmap strings list.

Set Warnings "-inexact-float".

(** ** Exceptions *)

Inductive exn : Type :=
| KeyError (key : string)
| TypeError
| AttributeError
| IndexError
| OverflowError
| ValueError.

Inductive result (A : Type) : Type :=
| Ok (a : A)
| Raise (e : exn).
Arguments Ok {A} a.
Arguments Raise {A} e.

#[global] Instance result_ret : MRet result := @Ok.
#[global] Instance result_bind : MBind result :=
  λ A B f m, match m with Ok a => f a | Raise e => Raise e end.

(** [d[k]] on an object whose key [k] may be absent. *)
Definition subscript {A} (key : string) (field : option A) : result A :=
  match field with
  | Some a => Ok a
  | None => Raise (KeyError key)
  end.

(** A [for] loop whose body updates the loop state and may raise. *)
Fixpoint for_each {A S} (body : A → S → result S) (l : list A) (st : S)
  : result S :=
  match l with
  | [] => Ok st
  | x :: l' => st' ← body x st; for_each body l' st'
  end.

(** ** Strings *)

Definition is_ascii_lower (c : ascii) : bool :=
  let n := Ascii.N_of_ascii c in (97 <=? n)%N && (n <=? 122)%N.
Definition is_ascii_upper (c : ascii) : bool :=
  let n := Ascii.N_of_ascii c in (65 <=? n)%N && (n <=? 90)%N.

Definition upper_char (c : ascii) : ascii :=
  if is_ascii_lower c then Ascii.ascii_of_N (Ascii.N_of_ascii c - 32) else c.
Definition lower_char (c : ascii) : ascii :=
  if is_ascii_upper c then Ascii.ascii_of_N (Ascii.N_of_ascii c + 32) else c.

(** [s.upper()] and [s.lower()]. *)
Fixpoint upper (s : string) : string :=
  match s with
  | EmptyString => EmptyString
  | String c s' => String (upper_char c) (upper s')
  end.
Fixpoint lower (s : string) : string :=
  match s with
  | EmptyString => EmptyString
  | String c s' => String (lower_char c) (lower s')
  end.

(** [needle in hay] on strings. *)
Fixpoint str_in (needle hay : string) : bool :=
  String.prefix needle hay ||
  match hay with
  | EmptyString => false
  | String _ hay' => str_in needle hay'
  end.

(** [x in l] on a list of strings. *)
Definition in_list (x : string) (l : list string) : bool :=
  existsb (String.eqb x) l.

(** [x in l] where [x] is the result of a [d.get(k)]: [None] is in no list
    of strings. *)
Definition opt_in_list (x : option string) (l : list string) : bool :=
  match x with
  | Some s => in_list s l
  | None => false
  end.

(** [x == s] where [x] is the result of a [d.get(k)]. *)
Definition opt_eqb (x : option string) (s : string) : bool :=
  match x with
  | Some x' => String.eqb x' s
  | None => false
  end.

(** ** Floating-point operations of the platform *)

(** The C library of the platform: [pow_2 x] is its [pow(x, 2.0)], which
    IEEE 754 does not require to be correctly rounded. *)
Class Libm := { pow_2 : float → float }.

(** A C library whose [pow(x, 2.0)] is within one unit in the last place of
    the square of a finite [x] above 0: it returns the correctly rounded
    square or one of its two neighbours. *)
Definition pow_2_accurate (libm : Libm) : Prop :=
  ∀ x, is_finite x = true → (0 <? x)%float = true →
    pow_2 x = (x * x)%float ∨
    pow_2 x = next_up (x * x) ∨ pow_2 x = next_down (x * x).

(** [iv ** 2] on floats, as CPython computes it: the special cases are
    sorted out first, [pow] is called on the absolute value of a base that
    is finite, not 0 and not 1, and an infinite result of [pow] is an
    OverflowError. *)
Definition float_pow {libm : Libm} (iv : float) : result float :=
  if is_nan iv then Ok iv
  else if is_infinity iv then Ok (abs iv)
  else if (iv =? 0)%float then Ok 0%float
  else
    let iv := if (iv <? 0)%float then (- iv)%float else iv in
    if (iv =? 1)%float then Ok 1%float
    else
      let ix := pow_2 iv in
      if is_infinity ix then Raise OverflowError else Ok ix.

(** [math.sqrt(x)]: a ValueError when the root is a NaN and [x] is not. *)
Definition math_sqrt (x : float) : result float :=
  let r := PrimFloat.sqrt x in
  if is_nan r && negb (is_nan x) then Raise ValueError else Ok r.

(** ** Configuration and thresholds *)

Module THRESHOLDS.
Definition traffic_high : float := 2.0%float.
Definition traffic_moderate : float := 1.4%float.
Definition weather_min_temp_outdoor : float := 15%float.
Definition weather_bad_conditions : list string :=
  ["Rain"; "Snow"; "Thunderstorm"; "Drizzle"]%string.
End THRESHOLDS.

(** ** Output vocabularies *)

Inductive OutdoorViability := OPTIMAL | VIABLE_WITH_GEAR | INDOOR_ONLY.
Inductive TransitFriction := LOW_FRICTION | MODERATE_DELAY | HIGH_FRICTION.
Inductive TemporalPhase :=
  WORK_HOURS | EVENING_TRANSITION | PRIME_SOCIAL_TIME | LATE_NIGHT
| UNKNOWN_PHASE.
Inductive Availability := AVAILABLE_NOW | AVAILABLE_SOON | BUSY_UNAVAILABLE.
Inductive WellnessNeed :=
  SOCIAL_CONNECTION | REST_RECOVERY | STRESS_RELIEF | MAINTENANCE.
Inductive LocationContext := HOME_BASE | WORK_OFFICE | IN_TRANSIT | THIRD_PLACE.
Inductive Proximity :=
  CO_LOCATED | WALKING_DISTANCE | SAME_DISTRICT | DISTANT | UNKNOWN.
Inductive ConnectionHealth := HEALTHY | CRITICAL_DISCONNECT.
Inductive Score := LOW | MEDIUM | HIGH.
Inductive EnvironmentMatch := MATCHES_CURRENT_CONDITIONS | MISMATCH.
Inductive ActivityCategory :=
  SOCIAL_GATHERING | ACTIVE_PHYSICAL | CULTURAL_PASSIVE | COMMUNITY_SUPPORT.

#[global] Instance OutdoorViability_eq_dec : EqDecision OutdoorViability.
Proof. solve_decision. Defined.
#[global] Instance TransitFriction_eq_dec : EqDecision TransitFriction.
Proof. solve_decision. Defined.
#[global] Instance WellnessNeed_eq_dec : EqDecision WellnessNeed.
Proof. solve_decision. Defined.
#[global] Instance LocationContext_eq_dec : EqDecision LocationContext.
Proof. solve_decision. Defined.
#[global] Instance Proximity_eq_dec : EqDecision Proximity.
Proof. solve_decision. Defined.
#[global] Instance Score_eq_dec : EqDecision Score.
Proof. solve_decision. Defined.

(** The text an f-string interpolates for [outdoor_viability]. *)
Definition OutdoorViability_str (o : OutdoorViability) : string :=
  match o with
  | OPTIMAL => "OPTIMAL"
  | VIABLE_WITH_GEAR => "VIABLE_WITH_GEAR"
  | INDOOR_ONLY => "INDOOR_ONLY"
  end.

(** ** Environmental context *)

(** [environment_feed]: the keys read by [process_global_context]. *)
Record WeatherEntry := { main : option string }.
Record WeatherCurrent := {
  weather : option (list WeatherEntry);
  temp : option float;
  dt : option Z
}.
Record WeatherApi := { current : option WeatherCurrent }.
Record TrafficSummary := { travelTimeIndex : option float }.
Record TrafficApi := { summary : option TrafficSummary }.
Record EnvFeed := {
  weather_api : option WeatherApi;
  traffic_api : option TrafficApi
}.

(** The empty objects [{}] the code substitutes for absent keys. *)
Definition empty_WeatherEntry : WeatherEntry := {| main := None |}.
Definition empty_WeatherCurrent : WeatherCurrent :=
  {| weather := None; temp := None; dt := None |}.
Definition empty_WeatherApi : WeatherApi := {| current := None |}.
Definition empty_TrafficSummary : TrafficSummary :=
  {| travelTimeIndex := None |}.
Definition empty_TrafficApi : TrafficApi := {| summary := None |}.

Record GlobalContext := {
  outdoor_viability : OutdoorViability;
  transit_friction : TransitFriction;
  temporal_phase : TemporalPhase;
  implication : string
}.

(** Generates natural language hint for logic. *)
Definition generate_implication (outdoor : OutdoorViability)
    (friction : TransitFriction) : string :=
  if decide (friction = HIGH_FRICTION) then
    "Prioritize digital connections, home-based activities, or very local (walking distance) indoor events. Discourage cross-town travel."
  else if decide (outdoor = INDOOR_ONLY) then
    "Focus on indoor venues. Filter out parks and walking groups."
  else
    "Conditions optimal. Prioritize outdoor social friction reduction.".

(** [l[0]]. *)
Definition first_item {A} (l : list A) : result A :=
  match l with
  | x :: _ => Ok x
  | [] => Raise IndexError
  end.

Section GlobalContext.

(** [datetime.fromtimestamp(t).hour]: the hour of day of a Unix time in the
    local time zone of the platform, or the exception raised for a time
    out of the platform's range. *)
Variable fromtimestamp_hour : Z → result Z.

(** Abstracts raw weather/traffic/time into categorical tags. *)
Definition process_global_context (env_feed : EnvFeed)
  : result GlobalContext :=
  (* Weather Abstraction *)
  let weather_api := default empty_WeatherApi (weather_api env_feed) in
  let weather_curr := default empty_WeatherCurrent (current weather_api) in
  entry ← first_item (default [empty_WeatherEntry] (weather weather_curr));
  let weather_main := default "Clear"%string (main entry) in
  let temp := default 20%float (temp weather_curr) in
  let outdoor :=
    if in_list weather_main THRESHOLDS.weather_bad_conditions then
      INDOOR_ONLY
    else if (temp <? THRESHOLDS.weather_min_temp_outdoor)%float then
      VIABLE_WITH_GEAR
    else OPTIMAL in
  (* Traffic Abstraction *)
  let traffic_api := default empty_TrafficApi (traffic_api env_feed) in
  let traffic_idx :=
    default 1.0%float
      (travelTimeIndex (default empty_TrafficSummary (summary traffic_api)))
  in
  let friction :=
    if (THRESHOLDS.traffic_high <=? traffic_idx)%float then HIGH_FRICTION
    else if (THRESHOLDS.traffic_moderate <=? traffic_idx)%float then
      MODERATE_DELAY
    else LOW_FRICTION in
  (* Time Abstraction *)
  phase ←
    match dt weather_curr with
    | Some dt_timestamp =>
        if bool_decide (dt_timestamp ≠ 0%Z) then
          hour ← fromtimestamp_hour dt_timestamp;
          Ok (if (9 <=? hour)%Z && (hour <? 17)%Z then WORK_HOURS
              else if (17 <=? hour)%Z && (hour <? 19)%Z then
                EVENING_TRANSITION
              else if (19 <=? hour)%Z && (hour <? 22)%Z then
                PRIME_SOCIAL_TIME
              else LATE_NIGHT)
        else Ok UNKNOWN_PHASE
    | None => Ok UNKNOWN_PHASE
    end;
  Ok {| outdoor_viability := outdoor;
        transit_friction := friction;
        temporal_phase := phase;
        implication := generate_implication outdoor friction |}.

End GlobalContext.

(** ** Users and their social graph *)

(** [current_location]: an object of which the code reads the keys [name],
    [lat] and [lon]; [loc_other_keys] tells whether it holds any other key. *)
Record Location := {
  loc_name : option string;
  loc_lat : option float;
  loc_lon : option float;
  loc_other_keys : bool
}.

(** One entry of [social_graph_snapshot]. *)
Record Relation := {
  rel_target_id : option string;
  rel_relation : option string;
  rel_status : option string
}.

(** [sentry_analysis]. *)
Record SentryAnalysis := {
  availability : option string;
  stress_level : option string;
  risk_flags : option (list string)
}.

(** One entry of [users_sentry_state]. *)
Record User := {
  user_id : option string;
  current_location : option Location;
  social_graph_snapshot : option (list Relation);
  sentry_analysis : option SentryAnalysis
}.

Definition empty_Location : Location :=
  {| loc_name := None; loc_lat := None; loc_lon := None;
     loc_other_keys := false |}.
Definition empty_SentryAnalysis : SentryAnalysis :=
  {| availability := None; stress_level := None; risk_flags := None |}.

(** Truth value of a location object: an object is false when it has no
    key. *)
Definition Location_truthy (loc : Location) : bool :=
  bool_decide (is_Some (loc_name loc)) ||
  bool_decide (is_Some (loc_lat loc)) ||
  bool_decide (is_Some (loc_lon loc)) ||
  loc_other_keys loc.

(** [not loc] for the result of [user_locs.get(id)]: true on [None]
    and on the empty object. *)
Definition not_loc (loc : option Location) : bool :=
  match loc with
  | Some l => negb (Location_truthy l)
  | None => true
  end.

(** Simple distance logic using lat/lon coordinates. *)
Definition calculate_proximity_category {libm : Libm}
    (loc_a loc_b : option Location) : result Proximity :=
  if not_loc loc_a || not_loc loc_b then Ok UNKNOWN
  else
    let loc_a := default empty_Location loc_a in
    let loc_b := default empty_Location loc_b in
    (* Coordinate math *)
    let lat1 := default 0%float (loc_lat loc_a) in
    let lon1 := default 0%float (loc_lon loc_a) in
    let lat2 := default 0%float (loc_lat loc_b) in
    let lon2 := default 0%float (loc_lon loc_b) in
    (* Approx distance in km *)
    lat_sq ← float_pow (lat2 - lat1);
    lon_sq ← float_pow (lon2 - lon1);
    root ← math_sqrt (lat_sq + lon_sq);
    let dist := (root * 111)%float in
    if (dist <? 0.2)%float then Ok CO_LOCATED
    else if (dist <? 1.0)%float then Ok WALKING_DISTANCE
    else if (dist <? 2.0)%float then Ok SAME_DISTRICT
    else Ok DISTANT.

(** ** Relationship frictions *)

(** One entry of the list returned by [analyze_relationships]. *)
Record Friction := {
  source_user : string;
  target_user : string;
  relationship_type : string;
  connection_health : ConnectionHealth;
  proximity_opportunity : Proximity;
  scout_hint : string
}.

(** [tuple(sorted([a, b]))] on two strings. *)
Definition sorted_pair (a b : string) : string * string :=
  if String.ltb b a then (b, a) else (a, b).

(** The operand [target_id] of [sorted([source_id, target_id])]: a string
    and [None] cannot be ordered. *)
Definition sortable_with_str (target_id : option string) : result string :=
  match target_id with
  | Some t => Ok t
  | None => Raise TypeError
  end.

(** [s.upper()] on the result of [d.get(k)]: [None] has no [upper]. *)
Definition upper_of (s : option string) : result string :=
  match s with
  | Some s => Ok (upper s)
  | None => Raise AttributeError
  end.

(** [{u["user_id"]: u["current_location"] for u in users}]: a later user
    with the same id replaces the earlier entry. *)
Definition build_user_locs (users : list User)
  : result (gmap string Location) :=
  for_each
    (λ u (locs : gmap string Location),
       uid ← subscript "user_id" (user_id u);
       loc ← subscript "current_location" (current_location u);
       Ok (<[uid := loc]> locs))
    users ∅.

(** The state of the two loops: [results] and [seen_pairs]. *)
Definition AnalysisState : Type := list Friction * gset (string * string).

(** The body of the loop over the relations of [source_user]. *)
Definition relation_body {libm : Libm} (user_locs : gmap string Location)
    (global_context : GlobalContext) (source_user : User)
    (relation : Relation) (st : AnalysisState) : result AnalysisState :=
  let '(results, seen_pairs) := st in
  let target_id := rel_target_id relation in
  let status := rel_status relation in
  (* Create a canonical pair key (sorted to avoid duplicates) *)
  source_id ← subscript "user_id" (user_id source_user);
  target ← sortable_with_str target_id;
  let pair_key := sorted_pair source_id target in
  (* Skip if we've already processed this pair *)
  if bool_decide (pair_key ∈ seen_pairs) then Ok (results, seen_pairs)
  else
    let seen_pairs := seen_pairs ∪ {[pair_key]} in
    (* Calculate proximity *)
    prox ←
      calculate_proximity_category
        (user_locs !! source_id)
        (user_locs !! target);
    (* Logic for Relationship Bridge (Negative Trigger) *)
    if opt_eqb status "CRITICAL_DISCONNECT" then
      (* Generate Hint *)
      let hint :=
        if bool_decide (transit_friction global_context = HIGH_FRICTION)
           && bool_decide (prox = DISTANT) then
          "High Friction Travel + Critical Disconnect = Suggest Phone/Video Call."
        else if bool_decide (prox = WALKING_DISTANCE) then
          "Nearby + Disconnected = Suggest immediate meetup."
        else "Critical Disconnect detected." in
      (* Map relationship type to canonical form *)
      let rel_type := upper (default EmptyString (rel_relation relation)) in
      let rel_type :=
        if in_list rel_type ["SON"; "DAUGHTER"; "FATHER"; "MOTHER"] then
          "PARENT_CHILD"
        else rel_type in
      Ok (results ++
            [ {| source_user := source_id;
                 target_user := target;
                 relationship_type := rel_type;
                 connection_health := CRITICAL_DISCONNECT;
                 proximity_opportunity := prox;
                 scout_hint := hint |} ],
          seen_pairs)
    (* Logic for Vicinity (Positive Trigger) *)
    else if opt_eqb status "GOOD" then
      if bool_decide (prox = WALKING_DISTANCE) then
        rel_type ← upper_of (rel_relation relation);
        Ok (results ++
              [ {| source_user := source_id;
                   target_user := target;
                   relationship_type := rel_type;
                   connection_health := HEALTHY;
                   proximity_opportunity := WALKING_DISTANCE;
                   scout_hint :=
                     "Healthy connection + nearby + '"
                     +:+ OutdoorViability_str (outdoor_viability global_context)
                     +:+ "' weather = Suggest local indoor hangout." |} ],
            seen_pairs)
      else Ok (results, seen_pairs)
    else Ok (results, seen_pairs).

(** The body of the loop over the users. *)
Definition user_body {libm : Libm} (user_locs : gmap string Location)
    (global_context : GlobalContext) (source_user : User)
    (st : AnalysisState) : result AnalysisState :=
  let social_graph := default [] (social_graph_snapshot source_user) in
  for_each (relation_body user_locs global_context source_user)
    social_graph st.

(** Scans social graphs to find friction points. *)
Definition analyze_relationships {libm : Libm} (users : list User)
    (global_context : GlobalContext) : result (list Friction) :=
  (* Helper to look up user location *)
  user_locs ← build_user_locs users;
  st ← for_each (user_body user_locs global_context) users ([], ∅);
  Ok st.1.

(** ** Personal state *)

(** [s.split(sep)] for a one-character separator. *)
Fixpoint split_on (sep : ascii) (s : string) : list string :=
  match s with
  | EmptyString => [EmptyString]
  | String c s' =>
      if Ascii.eqb c sep then EmptyString :: split_on sep s'
      else
        match split_on sep s' with
        | w :: ws => String c w :: ws
        | [] => [String c EmptyString]
        end
  end.

(** [l[-1]]. *)
Definition last_item {A} (l : list A) : result A :=
  match last l with
  | Some x => Ok x
  | None => Raise IndexError
  end.

(** [s.strip(c)] for a one-character set: [lstrip] then [rstrip]. *)
Fixpoint lstrip_char (c : ascii) (s : string) : string :=
  match s with
  | EmptyString => EmptyString
  | String x s' => if Ascii.eqb x c then lstrip_char c s' else s
  end.
Fixpoint rstrip_char (c : ascii) (s : string) : string :=
  match s with
  | EmptyString => EmptyString
  | String x s' =>
      let r := rstrip_char c s' in
      if Ascii.eqb x c && String.eqb r EmptyString then EmptyString
      else String x r
  end.
Definition strip_char (c : ascii) (s : string) : string :=
  rstrip_char c (lstrip_char c s).

(** Whitespace of [str.split()] in the ASCII range: tab, line feed, vertical
    tab, form feed, carriage return, the four separators 28..31 and space.
    The whitespace characters outside ASCII, whose UTF-8 encodings have
    several bytes, are not modelled. *)
Definition is_space (c : ascii) : bool :=
  let n := Ascii.N_of_ascii c in
  ((9 <=? n)%N && (n <=? 13)%N) || ((28 <=? n)%N && (n <=? 32)%N).

(** [s.split()] on ASCII text: the maximal runs of non-whitespace
    characters. *)
Fixpoint split_whitespace (s : string) : list string :=
  match s with
  | EmptyString => []
  | String c s' =>
      if is_space c then split_whitespace s'
      else
        match s' with
        | EmptyString => [String c EmptyString]
        | String c' _ =>
            if is_space c' then String c EmptyString :: split_whitespace s'
            else
              match split_whitespace s' with
              | w :: ws => String c w :: ws
              | [] => [String c EmptyString]
              end
        end
  end.

(** One entry of [user_cluster_map]. *)
Record UserClassification := {
  uc_user_id : option string;
  availability_status : Availability;
  wellness_need : WellnessNeed;
  location_context : LocationContext;
  neighborhood : string
}.

(** Maps detailed Sentry analysis to Scout's high-level buckets. *)
Definition transform_user_state (user : User) : result UserClassification :=
  let sentry := default empty_SentryAnalysis (sentry_analysis user) in
  (* Availability Mapping *)
  let avail_raw := availability sentry in
  let status :=
    if opt_eqb avail_raw "FREE" then AVAILABLE_NOW
    else if opt_in_list avail_raw ["BUSY_BUT_ENDING_SOON"; "TRANSITIONING"]
    then AVAILABLE_SOON
    else BUSY_UNAVAILABLE in
  (* Wellness Need Mapping *)
  let stress := stress_level sentry in
  let risks := default [] (risk_flags sentry) in
  let need :=
    if in_list "ISOLATION_RISK" risks then SOCIAL_CONNECTION
    else if opt_in_list stress ["HIGH"; "CRITICAL_HIGH"] then REST_RECOVERY
    else if opt_in_list stress ["ELEVATED"; "MODERATE"] then STRESS_RELIEF
    else if opt_eqb stress "FATIGUED" then REST_RECOVERY
    else MAINTENANCE in
  (* Location Context Mapping *)
  let loc_name_full :=
    default EmptyString
      (loc_name (default empty_Location (current_location user))) in
  let loc_name_lower := lower loc_name_full in
  (* Infer location category from name *)
  let loc_cat :=
    if str_in "home" loc_name_lower then HOME_BASE
    else if str_in "office" loc_name_lower || str_in "work" loc_name_lower
    then WORK_OFFICE
    else if str_in "transit" loc_name_lower
            || str_in "commuting" loc_name_lower
    then IN_TRANSIT
    else if existsb (λ place, str_in place loc_name_lower)
              ["cafe"; "coffee"; "park"; "gym"; "restaurant"]%string
    then THIRD_PLACE
    else HOME_BASE in
  (* Extract simplified neighborhood/area name *)
  neighborhood ←
    (if str_in "(" loc_name_full then
       area ← last_item (split_on "(" loc_name_full);
       Ok (strip_char ")" area)
     else if str_in "transit" loc_name_lower
             || str_in "commuting" loc_name_lower
     then
       if str_in "mittlerer" loc_name_lower || str_in "ring" loc_name_lower
       then Ok "Transit_Corridor_East"%string
       else Ok "In_Transit"%string
     else if bool_decide (loc_cat = THIRD_PLACE) then
       if str_in "lost weekend" loc_name_lower then Ok "Schwabing-West"%string
       else if bool_decide (loc_name_full ≠ EmptyString) then
         first_item (split_whitespace loc_name_full)
       else Ok "Unknown"%string
     else Ok loc_name_full);
  Ok {| uc_user_id := user_id user;
        availability_status := status;
        wellness_need := need;
        location_context := loc_cat;
        neighborhood := neighborhood |}.

(** ** Opportunities *)

(** One entry of [events_api.items], in Schema.org format. *)
Record EventLocation := { evloc_name : option string }.
Record Event := {
  ev_identifier : option string;
  ev_name : option string;
  ev_type : option string;
  ev_description : option string;
  ev_location : option EventLocation
}.
Definition empty_EventLocation : EventLocation := {| evloc_name := None |}.

(** One entry of the list returned by [curate_opportunities]. *)
Record CuratedOpportunity := {
  event_id : option string;
  title : option string;
  activity_type : ActivityCategory;
  environment_match : EnvironmentMatch;
  opp_location_context : string;
  suitability : gmap (option string) Score;
  reason : option string
}.

(** Maps Schema.org event types to Scout Schema. *)
Definition map_activity_category (event_type : string) : ActivityCategory :=
  let mapping : gmap string ActivityCategory :=
    <["SocialEvent" := SOCIAL_GATHERING]>
    (<["SportsEvent" := ACTIVE_PHYSICAL]>
    (<["MusicEvent" := CULTURAL_PASSIVE]>
    (<["TheaterEvent" := CULTURAL_PASSIVE]>
    (<["EducationEvent" := COMMUNITY_SUPPORT]>
    (<["VolunteerEvent" := COMMUNITY_SUPPORT]> ∅))))) in
  default SOCIAL_GATHERING (mapping !! event_type).

(** The text an f-string interpolates for the result of [d.get(k)]. *)
Definition format_opt (s : option string) : string := default "None"%string s.

(** [s.lower()] on the result of [d.get(k)]: [None] has no [lower]. *)
Definition lower_of (s : option string) : result string :=
  match s with
  | Some s => Ok (lower s)
  | None => Raise AttributeError
  end.

(** The [score] that the loop over [users_map] computes for one user. *)
Definition score_user (event_type description : string)
    (title : option string) (user : UserClassification) : result Score :=
  let uid := uc_user_id user in
  (* Match based on event type and user wellness needs *)
  if String.eqb event_type "SportsEvent" then
    if opt_eqb uid "user_01_student"
       && bool_decide (wellness_need user = STRESS_RELIEF) then Ok HIGH
    else if bool_decide (wellness_need user = STRESS_RELIEF) then Ok MEDIUM
    else Ok LOW
  else if String.eqb event_type "SocialEvent" then
    if str_in "expat" (lower description) && opt_eqb uid "user_03_expat"
    then Ok HIGH
    else
      title_lower ← lower_of title;
      if str_in "english" title_lower && opt_eqb uid "user_03_expat"
      then Ok HIGH
      else if opt_eqb uid "user_01_student" then Ok MEDIUM
      else if bool_decide (wellness_need user = SOCIAL_CONNECTION)
      then Ok MEDIUM
      else Ok LOW
  else if String.eqb event_type "MusicEvent" then
    if opt_eqb uid "user_02_retired" then Ok MEDIUM else Ok LOW
  else Ok LOW.

(** The body of the loop over [users_map]: [suitability[uid] = score]. *)
Definition suitability_body (event_type description : string)
    (title : option string) (user : UserClassification)
    (suitability : gmap (option string) Score)
  : result (gmap (option string) Score) :=
  score ← score_user event_type description title user;
  Ok (<[uc_user_id user := score]> suitability).

(** The body of the loop over [events]. *)
Definition event_body (global_context : GlobalContext)
    (users_map : list UserClassification) (event : Event)
    (curated : list CuratedOpportunity) : result (list CuratedOpportunity) :=
  (* Extract event details from Schema.org format *)
  let event_id := ev_identifier event in
  let title := ev_name event in
  let event_type := default EmptyString (ev_type event) in
  let description := default EmptyString (ev_description event) in
  let location_obj := default empty_EventLocation (ev_location event) in
  let location_name :=
    default "Unknown Area"%string (evloc_name location_obj) in
  (* 1. Environment Check *)
  let event_text :=
    lower (format_opt title +:+ " " +:+ description +:+ " " +:+ event_type) in
  let is_outdoor :=
    existsb (λ keyword, str_in keyword event_text)
      ["walking"; "park"; "outdoor"; "garden"; "hiking"; "nature"]%string in
  let mismatch :=
    bool_decide (outdoor_viability global_context = INDOOR_ONLY)
    && is_outdoor in
  let env_match := if mismatch then MISMATCH else MATCHES_CURRENT_CONDITIONS in
  let reason :=
    if mismatch then Some "Outdoor event during Rain"%string else None in
  (* 2. Suitability Scoring *)
  suitability ←
    for_each (suitability_body event_type description title) users_map ∅;
  (* Filter suitability to only show non-LOW scores *)
  let filtered_suitability :=
    filter (λ kv : option string * Score, kv.2 ≠ LOW) suitability in
  Ok (curated ++
        [ {| event_id := event_id;
             title := title;
             activity_type := map_activity_category event_type;
             environment_match := env_match;
             opp_location_context := location_name;
             suitability := filtered_suitability;
             reason := reason |} ]).

(** Filters events based on environment and user suitability. *)
Definition curate_opportunities (events : list Event)
    (global_context : GlobalContext) (users_map : list UserClassification)
  : result (list CuratedOpportunity) :=
  for_each (event_body global_context users_map) events [].

(** ** What a call reads from its input *)

(** [weather_curr] of [process_global_context]. *)
Definition weather_curr_of (env_feed : EnvFeed) : WeatherCurrent :=
  default empty_WeatherCurrent
    (current (default empty_WeatherApi (weather_api env_feed))).

(** [weather_main] of [process_global_context]. *)
Definition weather_main_of (env_feed : EnvFeed) : result string :=
  entry ← first_item
    (default [empty_WeatherEntry] (weather (weather_curr_of env_feed)));
  Ok (default "Clear"%string (main entry)).

(** [traffic_idx] of [process_global_context]. *)
Definition traffic_idx_of (env_feed : EnvFeed) : float :=
  default 1.0%float
    (travelTimeIndex
       (default empty_TrafficSummary
          (summary (default empty_TrafficApi (traffic_api env_feed))))).

(** [stress] and [risks] of [transform_user_state]. *)
Definition stress_of (user : User) : option string :=
  stress_level (default empty_SentryAnalysis (sentry_analysis user)).
Definition risks_of (user : User) : list string :=
  default [] (risk_flags (default empty_SentryAnalysis (sentry_analysis user))).

(** [loc_name_full] of [transform_user_state]. *)
Definition loc_name_full_of (user : User) : string :=
  default EmptyString
    (loc_name (default empty_Location (current_location user))).

(** The keywords [transform_user_state] looks for in the lowercase location
    name. *)
Definition location_keywords : list string :=
  ["home"; "office"; "work"; "transit"; "commuting";
   "cafe"; "coffee"; "park"; "gym"; "restaurant"]%string.

(** [suitability] of [curate_opportunities] for one event, as it is before
    the LOW entries are filtered out, and the [score] of one user. *)
Definition suitability_scores (event : Event)
    (users_map : list UserClassification)
  : result (gmap (option string) Score) :=
  for_each
    (suitability_body (default EmptyString (ev_type event))
       (default EmptyString (ev_description event)) (ev_name event))
    users_map ∅.
Definition event_score (event : Event) (user : UserClassification)
  : result Score :=
  score_user (default EmptyString (ev_type event))
    (default EmptyString (ev_description event)) (ev_name event) user.

(** ** The edges of the social graph *)

(** The pairs (source user, relation) in the order in which the two loops of
    [analyze_relationships] visit them. *)
Definition edges (users : list User) : list (User * Relation) :=
  flat_map (λ u, pair u <$> default [] (social_graph_snapshot u)) users.

(** [pair_key] of an edge. *)
Definition edge_key (e : User * Relation) : option (string * string) :=
  source_id ← user_id e.1;
  target ← rel_target_id e.2;
  Some (sorted_pair source_id target).

(** [pair_key] of the two users named by a record. *)
Definition Friction_pair (rec : Friction) : string * string :=
  sorted_pair (source_user rec) (target_user rec).

(** The records appended by the loop body for an edge whose pair is new. *)
Definition emitted {libm : Libm} (user_locs : gmap string Location)
    (global_context : GlobalContext) (e : User * Relation)
  : result (list Friction) :=
  st ← relation_body user_locs global_context e.1 e.2 ([], ∅);
  Ok st.1.

(** The edges that pass the [seen_pairs] test, and [seen_pairs] after a run
    over a list of edges. *)
Fixpoint first_seen (E : list (User * Relation)) (seen : gset (string * string))
  : list (User * Relation) :=
  match E with
  | [] => []
  | e :: E' =>
      match edge_key e with
      | Some k =>
          if bool_decide (k ∈ seen) then first_seen E' seen
          else e :: first_seen E' (seen ∪ {[k]})
      | None => first_seen E' seen
      end
  end.
Fixpoint seen_after (E : list (User * Relation)) (seen : gset (string * string))
  : gset (string * string) :=
  match E with
  | [] => seen
  | e :: E' =>
      match edge_key e with
      | Some k => seen_after E' (seen ∪ {[k]})
      | None => seen_after E' seen
      end
  end.

(** The edge [e] joins the users [a] and [b], in one direction or the
    other; the record [rec] names the users [a] and [b], in one order or the
    other. *)
Definition joins (e : User * Relation) (a b : string) : Prop :=
  (user_id e.1 = Some a ∧ rel_target_id e.2 = Some b) ∨
  (user_id e.1 = Some b ∧ rel_target_id e.2 = Some a).
Definition names_pair (rec : Friction) (a b : string) : Prop :=
  (source_user rec = a ∧ target_user rec = b) ∨
  (source_user rec = b ∧ target_user rec = a).

(** ** Auxiliary string predicates *)

(** The character [a] occurs in [s]. *)
Fixpoint has_char (a : ascii) (s : string) : bool :=
  match s with
  | EmptyString => false
  | String c s' => Ascii.eqb c a || has_char a s'
  end.

(** Every character of [s] is whitespace. *)
Fixpoint all_space (s : string) : bool :=
  match s with
  | EmptyString => true
  | String c s' => is_space c && all_space s'
  end.

(** ** Readings and auxiliaries of the further properties *)

(** Every byte of [s] is in the ASCII range. *)
Fixpoint is_ascii_text (s : string) : bool :=
  match s with
  | EmptyString => true
  | String c s' => (Ascii.N_of_ascii c <? 128)%N && is_ascii_text s'
  end.

(** No character of [s] is whitespace. *)
Fixpoint none_space (s : string) : bool :=
  match s with
  | EmptyString => true
  | String c s' => negb (is_space c) && none_space s'
  end.

(** The two differences of coordinates that [calculate_proximity_category]
    squares. *)
Definition lat_diff (loc_a loc_b : Location) : float :=
  (default 0 (loc_lat loc_b) - default 0 (loc_lat loc_a))%float.
Definition lon_diff (loc_a loc_b : Location) : float :=
  (default 0 (loc_lon loc_b) - default 0 (loc_lon loc_a))%float.

(** [dist] of [calculate_proximity_category] for two location objects, the
    bucket of a distance, and the order of the four distance buckets. *)
Definition distance_km {libm : Libm} (loc_a loc_b : Location)
  : result float :=
  let lat1 := default 0%float (loc_lat loc_a) in
  let lon1 := default 0%float (loc_lon loc_a) in
  let lat2 := default 0%float (loc_lat loc_b) in
  let lon2 := default 0%float (loc_lon loc_b) in
  lat_sq ← float_pow (lat2 - lat1);
  lon_sq ← float_pow (lon2 - lon1);
  root ← math_sqrt (lat_sq + lon_sq);
  Ok (root * 111)%float.
Definition distance_bucket (dist : float) : Proximity :=
  if (dist <? 0.2)%float then CO_LOCATED
  else if (dist <? 1.0)%float then WALKING_DISTANCE
  else if (dist <? 2.0)%float then SAME_DISTRICT
  else DISTANT.
Definition Proximity_rank (p : Proximity) : nat :=
  match p with
  | CO_LOCATED => 0
  | WALKING_DISTANCE => 1
  | SAME_DISTRICT => 2
  | DISTANT => 3
  | UNKNOWN => 4
  end.

(** [is_outdoor] of [curate_opportunities] for one event. *)
Definition event_is_outdoor (event : Event) : bool :=
  let event_text :=
    lower (format_opt (ev_name event) +:+ " "
           +:+ default EmptyString (ev_description event) +:+ " "
           +:+ default EmptyString (ev_type event)) in
  existsb (λ keyword, str_in keyword event_text)
    ["walking"; "park"; "outdoor"; "garden"; "hiking"; "nature"]%string.

(** ** The transformation steps of the handler *)

(** [[f(x) for x in l]] where [f] may raise. *)
Fixpoint map_each {A B} (f : A → result B) (l : list A) : result (list B) :=
  match l with
  | [] => Ok []
  | x :: l' => y ← f x; ys ← map_each f l'; Ok (y :: ys)
  end.

(** The decoded request [raw_data]: [environment_feed], whose keys
    [weather_api] and [traffic_api] are read by [process_global_context] and
    whose key [events_api] holds the candidate events, and
    [users_sentry_state]. *)
Record EventsApi := { ev_items : option (list Event) }.
Record EnvironmentFeed := {
  feed_context : EnvFeed;
  events_api : option EventsApi
}.
Record RawData := {
  environment_feed : option EnvironmentFeed;
  users_sentry_state : option (list User)
}.

Definition empty_EventsApi : EventsApi := {| ev_items := None |}.
Definition empty_EnvironmentFeed : EnvironmentFeed :=
  {| feed_context := {| weather_api := None; traffic_api := None |};
     events_api := None |}.

(** [response_payload]. *)
Record Payload := {
  out_global_context : GlobalContext;
  out_user_cluster_map : list UserClassification;
  out_relationship_frictions : list Friction;
  out_curated_opportunity_feed : list CuratedOpportunity
}.

Section Handler.

Context {libm : Libm}.
Variable fromtimestamp_hour : Z → result Z.

(** [lambda_handler], from "Execute all transformation steps" to "Construct
    Final Payload": what the handler computes from the decoded [raw_data]
    before it serialises the payload.  An exception raised here is the one
    the handler reports as an internal error. *)
Definition lambda_handler_steps (raw_data : RawData) : result Payload :=
  let environment_feed :=
    default empty_EnvironmentFeed (environment_feed raw_data) in
  global_context ←
    process_global_context fromtimestamp_hour (feed_context environment_feed);
  let users := default [] (users_sentry_state raw_data) in
  user_cluster_map ← map_each transform_user_state users;
  relationships ← analyze_relationships users global_context;
  let raw_events :=
    default []
      (ev_items (default empty_EventsApi (events_api environment_feed))) in
  opportunities ←
    curate_opportunities raw_events global_context user_cluster_map;
  (* Construct Final Payload *)
  Ok {| out_global_context := global_context;
        out_user_cluster_map := user_cluster_map;
        out_relationship_frictions := relationships;
        out_curated_opportunity_feed := opportunities |}.

End Handler.

(** What the handler reads from [raw_data]. *)
Definition feed_of (raw_data : RawData) : EnvFeed :=
  feed_context (default empty_EnvironmentFeed (environment_feed raw_data)).
Definition users_of (raw_data : RawData) : list User :=
  default [] (users_sentry_state raw_data).
Definition events_of (raw_data : RawData) : list Event :=
  default []
    (ev_items
       (default empty_EventsApi
          (events_api
             (default empty_EnvironmentFeed (environment_feed raw_data))))).

(** ** Sample inputs *)

Module Sample.
Open Scope string_scope.

(** Three places in Munich: [near] is 0.0005 degrees from [here] in both
    coordinates, [walk] is 0.005 degrees from it in both. *)
Definition here : Location :=
  {| loc_name := Some "Home (Altstadt)";
     loc_lat := Some 48.1370%float; loc_lon := Some 11.5750%float;
     loc_other_keys := false |}.
Definition near : Location :=
  {| loc_name := Some "Cafe Lost Weekend";
     loc_lat := Some 48.1375%float; loc_lon := Some 11.5755%float;
     loc_other_keys := false |}.
Definition walk : Location :=
  {| loc_name := Some "Office (Maxvorstadt)";
     loc_lat := Some 48.1420%float; loc_lon := Some 11.5800%float;
     loc_other_keys := false |}.

Definition user (id : string) (loc : Location) (graph : list Relation)
  : User :=
  {| user_id := Some id;
     current_location := Some loc;
     social_graph_snapshot := Some graph;
     sentry_analysis := None |}.

Definition edge (target kind status : string) : Relation :=
  {| rel_target_id := Some target;
     rel_relation := Some kind;
     rel_status := Some status |}.

(** Two users, the first with one relation to the second. *)
Definition two_users (loc_a loc_b : Location) (kind status : string)
  : list User :=
  [ user "user_02_retired" loc_a [edge "user_01_student" kind status];
    user "user_01_student" loc_b [] ].

(** Two users at walking distance with an edge in each direction, and an
    edge to a user who is not in the list. *)
Definition both_directions : list User :=
  [ user "user_02_retired" here
      [edge "user_01_student" "Son" "GOOD";
       edge "user_04_absent" "Friend" "CRITICAL_DISCONNECT"];
    user "user_01_student" walk
      [edge "user_02_retired" "Father" "CRITICAL_DISCONNECT"] ].

(** What [analyze_relationships] returns on [both_directions]. *)
Definition both_directions_result : list Friction :=
  [ {| source_user := "user_02_retired";
       target_user := "user_01_student";
       relationship_type := "SON";
       connection_health := HEALTHY;
       proximity_opportunity := WALKING_DISTANCE;
       scout_hint :=
         "Healthy connection + nearby + 'INDOOR_ONLY' weather = Suggest local indoor hangout." |};
    {| source_user := "user_02_retired";
       target_user := "user_04_absent";
       relationship_type := "FRIEND";
       connection_health := CRITICAL_DISCONNECT;
       proximity_opportunity := UNKNOWN;
       scout_hint := "Critical Disconnect detected." |} ].

(** A user whose location name has none of the keywords. *)
Definition stranger : User :=
  {| user_id := Some "user_03_expat";
     current_location :=
       Some {| loc_name := Some "Marienplatz (Altstadt)";
               loc_lat := Some 48.1374%float;
               loc_lon := Some 11.5755%float;
               loc_other_keys := false |};
     social_graph_snapshot := None;
     sentry_analysis := None |}.

Definition context : GlobalContext :=
  {| outdoor_viability := INDOOR_ONLY;
     transit_friction := MODERATE_DELAY;
     temporal_phase := LATE_NIGHT;
     implication := generate_implication INDOOR_ONLY MODERATE_DELAY |}.

(** A feed with rain at 10 degrees and a travel-time index of 1.4, read on
    a platform whose local time is UTC. *)
Definition utc_hour (t : Z) : result Z := Ok ((t / 3600) mod 24)%Z.
Definition rainy_feed : EnvFeed :=
  {| weather_api :=
       Some {| current :=
         Some {| weather := Some [ {| main := Some "Rain" |} ];
                 temp := Some 10%float;
                 dt := Some 1700000000%Z |} |};
     traffic_api :=
       Some {| summary := Some {| travelTimeIndex := Some 1.4%float |} |} |}.

(** A C library whose [pow(x, 2.0)] is the correctly rounded square. *)
Definition libm : Libm := {| pow_2 := λ x, (x * x)%float |}.

Definition classified (id : string) (need : WellnessNeed)
  : UserClassification :=
  {| uc_user_id := Some id;
     availability_status := AVAILABLE_NOW;
     wellness_need := need;
     location_context := HOME_BASE;
     neighborhood := "Altstadt" |}.

Definition event (id type name description : string) : Event :=
  {| ev_identifier := Some id;
     ev_name := Some name;
     ev_type := Some type;
     ev_description := Some description;
     ev_location := None |}.
End Sample.

(** ** Sample inputs of the further properties *)

Module Example.
Open Scope string_scope.

(** A user at the place [name] of the old town. *)
Definition located (id name : string) (sentry : option SentryAnalysis)
    (graph : list Relation) : User :=
  {| user_id := Some id;
     current_location :=
       Some {| loc_name := Some name;
               loc_lat := Some 48.1370%float;
               loc_lon := Some 11.5750%float;
               loc_other_keys := false |};
     social_graph_snapshot := Some graph;
     sentry_analysis := sentry |}.

Definition cafe_guest : User :=
  located "user_01_student" "Cafe Luitpold (Maxvorstadt)" None [].
Definition gym_guest : User := located "user_03_expat" "Gym Westend" None [].
Definition commuter : User :=
  located "user_02_retired" "Home office transit hub"
    (Some {| availability := Some "TRANSITIONING";
             stress_level := Some "HIGH";
             risk_flags := Some ["ISOLATION_RISK"] |})
    [Sample.edge "user_04_far" "Daughter" "CRITICAL_DISCONNECT"].

(** A place about eleven kilometres from the old town, and a location whose
    latitude is a NaN. *)
Definition far : Location :=
  {| loc_name := Some "Office (Garching)";
     loc_lat := Some 48.2000%float; loc_lon := Some 11.6500%float;
     loc_other_keys := false |}.
Definition nowhere : Location :=
  {| loc_name := None; loc_lat := Some nan; loc_lon := None;
     loc_other_keys := false |}.

(** A location whose latitude is so large that the square of its difference
    from one of Munich overflows, and two users of whom one is there. *)
Definition beyond : Location :=
  {| loc_name := Some "Beyond"; loc_lat := Some 1e200%float;
     loc_lon := Some 11.5750%float; loc_other_keys := false |}.
Definition out_of_range : list User :=
  Sample.two_users Sample.here beyond "Friend" "CRITICAL_DISCONNECT".

(** Two entries with the same id, and a user without a location object. *)
Definition twice : list User :=
  [ Sample.user "user_01_student" Sample.here [];
    Sample.user "user_01_student" Sample.walk [] ].
Definition lost_user : User :=
  {| user_id := Some "user_02_retired";
     current_location := None;
     social_graph_snapshot := None;
     sentry_analysis := None |}.
Definition no_location : list User := [lost_user].

(** Events: a run in a park, a social evening, and a social event without a
    name. *)
Definition park_run : Event :=
  Sample.event "ev_1" "SportsEvent" "Park run" "A run along the river".
Definition evening : Event :=
  Sample.event "ev_2" "SocialEvent" "English conversation evening"
    "Meetup for expats and locals".
Definition nameless : Event :=
  {| ev_identifier := Some "ev_3";
     ev_name := None;
     ev_type := Some "SocialEvent";
     ev_description := None;
     ev_location := None |}.

(** A request in the rain, with traffic at 2.5 times the free-flow time. *)
Definition jammed_feed : EnvFeed :=
  {| weather_api := weather_api Sample.rainy_feed;
     traffic_api :=
       Some {| summary := Some {| travelTimeIndex := Some 2.5%float |} |} |}.
Definition request : RawData :=
  {| environment_feed :=
       Some {| feed_context := jammed_feed;
               events_api := Some {| ev_items := Some [park_run; evening] |} |};
     users_sentry_state :=
       Some [ commuter; Sample.user "user_04_far" far [] ] |}.

(** The classifications of three of the users. *)
Definition cafe_guest_classified : UserClassification :=
  {| uc_user_id := Some "user_01_student";
     availability_status := BUSY_UNAVAILABLE;
     wellness_need := MAINTENANCE;
     location_context := THIRD_PLACE;
     neighborhood := "Maxvorstadt" |}.
Definition gym_guest_classified : UserClassification :=
  {| uc_user_id := Some "user_03_expat";
     availability_status := BUSY_UNAVAILABLE;
     wellness_need := MAINTENANCE;
     location_context := THIRD_PLACE;
     neighborhood := "Gym" |}.
Definition commuter_classified : UserClassification :=
  {| uc_user_id := Some "user_02_retired";
     availability_status := AVAILABLE_SOON;
     wellness_need := SOCIAL_CONNECTION;
     location_context := HOME_BASE;
     neighborhood := "In_Transit" |}.
End Example.

(** * Properties *)

(** ** The exception monad *)

Lemma bind_Ok {A B} (m : result A) (f : A → result B) (b : B) :
  m ≫= f = Ok b ↔ ∃ a, m = Ok a ∧ f a = Ok b.
Proof.
  destruct m as [a|e]; simpl.
  - split; [intros H; exists a; auto | intros (a' & [= <-] & H); exact H].
  - split; [discriminate | intros (a' & [=] & _)].
Qed.

Lemma for_each_app {A S} (body : A → S → result S) (l1 l2 : list A) (st : S) :
  for_each body (l1 ++ l2) st = for_each body l1 st ≫= for_each body l2.
Proof.
  revert st. induction l1 as [|x l1 IH]; intros st; simpl; [reflexivity|].
  destruct (body x st) as [st'|e]; simpl; [apply IH | reflexivity].
Qed.

Lemma for_each_returns {A S} (body : A → S → result S) (l : list A) :
  (∀ x st, x ∈ l → ∃ st', body x st = Ok st') →
  ∀ st, ∃ st', for_each body l st = Ok st'.
Proof.
  induction l as [|x l IH]; intros Hbody st; simpl; [eauto|].
  destruct (Hbody x st) as [st1 ->]; [left|]. simpl.
  apply IH. intros y st0 Hy. apply Hbody. right. exact Hy.
Qed.

Ltac inv_Ok :=
  repeat match goal with
    | H : _ ≫= _ = Ok _ |- _ =>
        apply bind_Ok in H; destruct H as (? & ? & H)
    | H : Ok _ = Ok _ |- _ => injection H as H
    | H : Raise _ = Ok _ |- _ => discriminate H
    end.

(** ** Membership and equality tests *)

Lemma in_list_spec (x : string) (l : list string) : in_list x l = true ↔ x ∈ l.
Proof.
  unfold in_list. rewrite existsb_exists. split.
  - intros (y & Hy & E). apply String.eqb_eq in E. subst y.
    apply list_elem_of_In. exact Hy.
  - intros H. exists x. split; [apply list_elem_of_In; exact H|].
    apply String.eqb_refl.
Qed.

Lemma opt_eqb_spec (x : option string) (s : string) :
  opt_eqb x s = true ↔ x = Some s.
Proof.
  destruct x as [y|]; simpl; [|split; discriminate].
  rewrite String.eqb_eq. split; congruence.
Qed.

Lemma opt_in_list_spec (x : option string) (l : list string) :
  opt_in_list x l = true ↔ ∃ s, x = Some s ∧ s ∈ l.
Proof.
  destruct x as [y|]; simpl.
  - rewrite in_list_spec. split; [eauto|]. intros (s & [= ->] & H). exact H.
  - split; [discriminate|]. intros (s & [=] & _).
Qed.

(** ** Comparisons of binary64 floats *)

Lemma SFcompare_antisym (a b : spec_float) :
  SFcompare b a = CompOpp <$> SFcompare a b.
Proof.
  destruct a as [[]|[]| |[] ma ea], b as [[]|[]| |[] mb eb]; simpl;
    try reflexivity;
    rewrite (Z.compare_antisym eb ea);
    destruct (eb ?= ea)%Z; simpl; try reflexivity;
    rewrite !Pos.compare_cont_spec; simpl;
    rewrite (Pos.compare_antisym mb ma);
    destruct (mb ?= ma)%positive; reflexivity.
Qed.

Ltac compare_cases :=
  repeat match goal with
    | H : context [Pos.compare_cont Eq ?x ?y] |- _ =>
        rewrite (Pos.compare_cont_spec x y Eq) in H; simpl in H
    | |- context [Pos.compare_cont Eq ?x ?y] =>
        rewrite (Pos.compare_cont_spec x y Eq); simpl
    end;
  repeat match goal with
    | H : context [(?x ?= ?y)%Z] |- _ =>
        destruct (Z.compare_spec x y); simpl in H; try discriminate
    | H : context [(?x ?= ?y)%positive] |- _ =>
        destruct (Pos.compare_spec x y); simpl in H; try discriminate
    | |- context [(?x ?= ?y)%Z] =>
        destruct (Z.compare_spec x y); simpl
    | |- context [(?x ?= ?y)%positive] =>
        destruct (Pos.compare_spec x y); simpl
    end.

Lemma SFltb_SFleb_trans (a b c : spec_float) :
  SFltb a b = true → SFleb b c = true → SFltb a c = true.
Proof.
  unfold SFltb, SFleb.
  destruct a as [[]|[]| |[] ma ea], b as [[]|[]| |[] mb eb],
    c as [[]|[]| |[] mc ec]; simpl; try discriminate; try reflexivity;
    intros H1 H2; compare_cases; try reflexivity; try lia.
Qed.

(** [x < y] excludes [y <= x]. *)
Lemma float_ltb_not_leb (x y : float) :
  (x <? y)%float = true → (y <=? x)%float = false.
Proof.
  rewrite ltb_spec, leb_spec. unfold SFltb, SFleb.
  rewrite (SFcompare_antisym (Prim2SF x) (Prim2SF y)).
  destruct (SFcompare (Prim2SF x) (Prim2SF y)) as [[]|]; simpl; congruence.
Qed.

(** [x < y] and [y <= z] give [x < z]. *)
Lemma float_ltb_leb_trans (x y z : float) :
  (x <? y)%float = true → (y <=? z)%float = true → (x <? z)%float = true.
Proof. rewrite !ltb_spec, leb_spec. apply SFltb_SFleb_trans. Qed.

Lemma Prim2SF_traffic_high :
  Prim2SF THRESHOLDS.traffic_high = S754_finite false 4503599627370496 (-51).
Proof. vm_compute. reflexivity. Qed.

Lemma Prim2SF_traffic_moderate :
  Prim2SF THRESHOLDS.traffic_moderate
  = S754_finite false 6305039478318694 (-52).
Proof. vm_compute. reflexivity. Qed.

(** An index that is at least 1.4 (so not a NaN) and not at least 2.0 is
    below 2.0. *)
Lemma traffic_between (idx : float) :
  (THRESHOLDS.traffic_high <=? idx)%float = false →
  (THRESHOLDS.traffic_moderate <=? idx)%float = true →
  (idx <? THRESHOLDS.traffic_high)%float = true.
Proof.
  rewrite !leb_spec, ltb_spec. unfold SFleb, SFltb.
  rewrite (SFcompare_antisym (Prim2SF idx) (Prim2SF THRESHOLDS.traffic_high)).
  rewrite Prim2SF_traffic_high, Prim2SF_traffic_moderate.
  generalize (Prim2SF idx). intros s.
  destruct s as [[]|[]| |[] m e];
    cbn [SFcompare fmap option_fmap option_map CompOpp]; try discriminate.
  all: intros H1 H2; compare_cases; try reflexivity; try lia.
Qed.

(** ** Environmental context *)

Lemma process_global_context_Ok hour env_feed g :
  process_global_context hour env_feed = Ok g →
  ∃ weather_main,
    weather_main_of env_feed = Ok weather_main ∧
    outdoor_viability g =
      (if in_list weather_main THRESHOLDS.weather_bad_conditions then
         INDOOR_ONLY
       else if (default 20 (temp (weather_curr_of env_feed))
                <? THRESHOLDS.weather_min_temp_outdoor)%float then
         VIABLE_WITH_GEAR
       else OPTIMAL) ∧
    transit_friction g =
      (if (THRESHOLDS.traffic_high <=? traffic_idx_of env_feed)%float then
         HIGH_FRICTION
       else if (THRESHOLDS.traffic_moderate <=? traffic_idx_of env_feed)%float
       then MODERATE_DELAY
       else LOW_FRICTION).
Proof.
  unfold process_global_context, weather_main_of, weather_curr_of,
    traffic_idx_of.
  intros H. inv_Ok. subst g. simpl.
  match goal with H : first_item _ = Ok _ |- _ => rewrite H end. simpl.
  eexists. split; [reflexivity|]. split; reflexivity.
Qed.

(** [process_global_context] returns when the feed has no empty [weather]
    list and the platform can convert the time stamp. *)
Lemma process_global_context_returns hour env_feed :
  weather (weather_curr_of env_feed) ≠ Some [] →
  (∀ t, dt (weather_curr_of env_feed) = Some t → ∃ h, hour t = Ok h) →
  ∃ g, process_global_context hour env_feed = Ok g.
Proof.
  unfold process_global_context, weather_curr_of. intros Hw Hdt.
  destruct (weather _) as [[|entry entries]|]; [congruence| |]; simpl.
  - destruct (dt _) as [t|]; simpl; [|eauto].
    destruct (bool_decide (t ≠ 0%Z)); simpl; [|eauto].
    destruct (Hdt t eq_refl) as [h ->]. simpl. eauto.
  - destruct (dt _) as [t|]; simpl; [|eauto].
    destruct (bool_decide (t ≠ 0%Z)); simpl; [|eauto].
    destruct (Hdt t eq_refl) as [h ->]. simpl. eauto.
Qed.

(** C4: the travel-time index is classified HIGH_FRICTION exactly when it is
    at least 2.0, MODERATE_DELAY exactly when it is at least 1.4 and below
    2.0, and LOW_FRICTION when it is below 1.4; the boundary values 2.0 and
    1.4 themselves are HIGH_FRICTION and MODERATE_DELAY. *)
Theorem C4_transit_friction_thresholds
    (hour : Z → result Z) (env_feed : EnvFeed) (g : GlobalContext) :
  process_global_context hour env_feed = Ok g →
  let idx := traffic_idx_of env_feed in
  (transit_friction g = HIGH_FRICTION ↔ (2.0 <=? idx)%float = true) ∧
  (transit_friction g = MODERATE_DELAY ↔
     (1.4 <=? idx)%float = true ∧ (idx <? 2.0)%float = true) ∧
  ((idx <? 1.4)%float = true → transit_friction g = LOW_FRICTION) ∧
  (idx = 2.0%float → transit_friction g = HIGH_FRICTION) ∧
  (idx = 1.4%float → transit_friction g = MODERATE_DELAY).
Proof.
  intros H idx.
  destruct (process_global_context_Ok _ _ _ H) as (wm & _ & _ & Hf).
  fold idx in Hf.
  unfold THRESHOLDS.traffic_high, THRESHOLDS.traffic_moderate in Hf.
  rewrite Hf. clear Hf H g wm.
  assert (Hlt : (idx <? 2.0)%float = true → (2.0 <=? idx)%float = false)
    by apply float_ltb_not_leb.
  assert (Hge : (2.0 <=? idx)%float = true → (1.4 <=? idx)%float = true).
  { intros H2. destruct (1.4 <=? idx)%float eqn:E; [reflexivity|].
    exfalso.
    assert (H14 : (1.4 <? idx)%float = true).
    { apply (float_ltb_leb_trans _ 2.0%float); [reflexivity | exact H2]. }
    rewrite ltb_spec in H14. rewrite leb_spec in E.
    unfold SFltb in H14. unfold SFleb in E.
    destruct (SFcompare (Prim2SF 1.4) (Prim2SF idx)) as [[]|]; congruence. }
  assert (Hmid : (2.0 <=? idx)%float = false → (1.4 <=? idx)%float = true →
                 (idx <? 2.0)%float = true) by apply traffic_between.
  split; [|split; [|split; [|split]]].
  - split.
    + destruct (2.0 <=? idx)%float; [reflexivity|].
      destruct (1.4 <=? idx)%float; discriminate.
    + intros ->. reflexivity.
  - split.
    + destruct (2.0 <=? idx)%float eqn:E2; [discriminate|].
      destruct (1.4 <=? idx)%float eqn:E1; [intros _ | discriminate].
      split; [reflexivity | apply Hmid; reflexivity].
    + intros [H1 H2]. rewrite (Hlt H2), H1. reflexivity.
  - intros H1.
    assert (H2 : (1.4 <=? idx)%float = false)
      by (apply float_ltb_not_leb; exact H1).
    rewrite H2.
    destruct (2.0 <=? idx)%float eqn:E; [|reflexivity].
    rewrite (Hge eq_refl) in H2. discriminate.
  - intros ->. reflexivity.
  - intros ->. reflexivity.
Qed.

(** C5: when the weather condition read from the feed is one of Rain, Snow,
    Thunderstorm and Drizzle, the outdoor viability is INDOOR_ONLY, whatever
    the temperature of the feed is. *)
Theorem C5_adverse_weather_indoor_only
    (hour : Z → result Z) (env_feed : EnvFeed) (g : GlobalContext)
    (condition : string) :
  process_global_context hour env_feed = Ok g →
  weather_main_of env_feed = Ok condition →
  condition ∈ THRESHOLDS.weather_bad_conditions →
  outdoor_viability g = INDOOR_ONLY.
Proof.
  intros H Hmain Hbad.
  destruct (process_global_context_Ok _ _ _ H) as (wm & Hwm & Hout & _).
  rewrite Hmain in Hwm. injection Hwm as <-.
  apply in_list_spec in Hbad. rewrite Hout, Hbad. reflexivity.
Qed.

(** ** Personal state *)

Lemma split_on_not_nil (sep : ascii) (s : string) : split_on sep s ≠ [].
Proof.
  induction s as [|c s IH]; simpl; [discriminate|].
  destruct (Ascii.eqb c sep); [discriminate|].
  destruct (split_on sep s); discriminate.
Qed.

Lemma last_item_Ok {A} (l : list A) : l ≠ [] → ∃ x, last_item l = Ok x.
Proof.
  intros Hl. unfold last_item.
  destruct (last l) as [x|] eqn:E; [eauto|].
  apply last_None in E. contradiction.
Qed.

Lemma split_whitespace_nil (s : string) :
  split_whitespace s = [] → all_space s = true.
Proof.
  induction s as [|c s IH]; simpl; [reflexivity|].
  destruct (is_space c); simpl; [exact IH|].
  destruct s as [|c' s']; [discriminate|].
  destruct (is_space c'); [discriminate|].
  destruct (split_whitespace (String c' s')); discriminate.
Qed.

Lemma str_in_has_char (a : ascii) (k t : string) :
  str_in (String a k) t = true → has_char a t = true.
Proof.
  induction t as [|c t IH]; simpl.
  - discriminate.
  - destruct (ascii_dec a c) as [->|Hne].
    + rewrite Ascii.eqb_refl. reflexivity.
    + simpl. intros H. rewrite IH; [apply orb_true_r | exact H].
Qed.

Lemma is_space_lower_char (x : ascii) : is_space x = true → lower_char x = x.
Proof.
  destruct x as [[] [] [] [] [] [] [] []]; vm_compute; congruence.
Qed.

Lemma has_char_lower (a : ascii) (s : string) :
  is_space a = false → has_char a (lower s) = true → all_space s = false.
Proof.
  intros Ha. induction s as [|x s IH]; simpl; [discriminate|].
  destruct (is_space x) eqn:Ex; simpl; [|reflexivity].
  rewrite (is_space_lower_char x Ex).
  destruct (Ascii.eqb x a) eqn:E; simpl; [|exact IH].
  apply Ascii.eqb_eq in E. congruence.
Qed.

Lemma first_word_Ok (a : ascii) (k s : string) :
  is_space a = false → str_in (String a k) (lower s) = true →
  ∃ w, first_item (split_whitespace s) = Ok w.
Proof.
  intros Ha Hin.
  destruct (split_whitespace s) as [|w ws] eqn:E; [|simpl; eauto].
  apply split_whitespace_nil in E.
  rewrite (has_char_lower a s Ha (str_in_has_char _ _ _ Hin)) in E.
  discriminate.
Qed.

(** [transform_user_state] returns on every user. *)
Lemma transform_user_state_returns (user : User) :
  ∃ c, transform_user_state user = Ok c.
Proof.
  unfold transform_user_state.
  set (full := default EmptyString (loc_name (default empty_Location (current_location user)))).
  set (lname := lower full).
  match goal with
  | |- ∃ c, ?n ≫= _ = _ => assert (Hn : ∃ w, n = Ok w)
  end.
  { destruct (str_in "(" full); [|].
    - destruct (last_item_Ok (split_on "(" full) (split_on_not_nil _ _)) as [x ->].
      simpl. eauto.
    - destruct (str_in "transit" lname || str_in "commuting" lname) eqn:Et.
      + destruct (str_in "mittlerer" lname || str_in "ring" lname); eauto.
      + destruct (str_in "home" lname); [simpl; eauto|].
        destruct (str_in "office" lname || str_in "work" lname); [simpl; eauto|].
        destruct (existsb _ _) eqn:Ex; [|simpl; eauto].
        simpl bool_decide. cbv iota.
        destruct (str_in "lost weekend" lname); [eauto|].
        destruct (bool_decide (full ≠ EmptyString)); [|eauto].
        simpl in Ex.
        repeat match type of Ex with
          | (str_in ?k _ || _) = true =>
              destruct (str_in k lname) eqn:?;
              [eapply first_word_Ok; [|eassumption]; reflexivity|]; simpl in Ex
          end.
        discriminate. }
  destruct Hn as [w ->]. simpl. eauto.
Qed.

Lemma transform_user_state_Ok (user : User) (c : UserClassification) :
  transform_user_state user = Ok c →
  wellness_need c =
    (if in_list "ISOLATION_RISK" (risks_of user) then SOCIAL_CONNECTION
     else if opt_in_list (stress_of user) ["HIGH"; "CRITICAL_HIGH"] then
       REST_RECOVERY
     else if opt_in_list (stress_of user) ["ELEVATED"; "MODERATE"] then
       STRESS_RELIEF
     else if opt_eqb (stress_of user) "FATIGUED" then REST_RECOVERY
     else MAINTENANCE) ∧
  location_context c =
    (let loc_name_lower := lower (loc_name_full_of user) in
     if str_in "home" loc_name_lower then HOME_BASE
     else if str_in "office" loc_name_lower || str_in "work" loc_name_lower
     then WORK_OFFICE
     else if str_in "transit" loc_name_lower
             || str_in "commuting" loc_name_lower
     then IN_TRANSIT
     else if existsb (λ place, str_in place loc_name_lower)
               ["cafe"; "coffee"; "park"; "gym"; "restaurant"]%string
     then THIRD_PLACE
     else HOME_BASE) ∧
  uc_user_id c = user_id user.
Proof.
  unfold transform_user_state, risks_of, stress_of, loc_name_full_of.
  intros H. inv_Ok. subst c. simpl. auto.
Qed.

(** C7: the wellness need is chosen in priority order.  An ISOLATION_RISK
    flag gives SOCIAL_CONNECTION whatever the stress level; without it, the
    stress levels HIGH and CRITICAL_HIGH give REST_RECOVERY, ELEVATED and
    MODERATE give STRESS_RELIEF, FATIGUED gives REST_RECOVERY as well, and any
    other stress value (or none) gives MAINTENANCE. *)
Theorem C7_wellness_need_priority (user : User) :
  ∃ c, transform_user_state user = Ok c ∧
    let stress := stress_of user in
    ("ISOLATION_RISK"%string ∈ risks_of user →
       wellness_need c = SOCIAL_CONNECTION) ∧
    ("ISOLATION_RISK"%string ∉ risks_of user →
       (stress = Some "HIGH"%string ∨ stress = Some "CRITICAL_HIGH"%string →
          wellness_need c = REST_RECOVERY) ∧
       (stress = Some "ELEVATED"%string ∨ stress = Some "MODERATE"%string →
          wellness_need c = STRESS_RELIEF) ∧
       (stress = Some "FATIGUED"%string → wellness_need c = REST_RECOVERY) ∧
       (stress ≠ Some "HIGH"%string → stress ≠ Some "CRITICAL_HIGH"%string →
        stress ≠ Some "ELEVATED"%string → stress ≠ Some "MODERATE"%string →
        stress ≠ Some "FATIGUED"%string → wellness_need c = MAINTENANCE)).
Proof.
  destruct (transform_user_state_returns user) as [c Hc].
  exists c. split; [exact Hc|].
  destruct (transform_user_state_Ok _ _ Hc) as (Hneed & _ & _).
  rewrite Hneed. clear Hneed Hc c. cbv zeta.
  split.
  - intros Hin. apply in_list_spec in Hin. rewrite Hin. reflexivity.
  - intros Hnin.
    destruct (in_list "ISOLATION_RISK" (risks_of user)) eqn:E.
    { apply in_list_spec in E. contradiction. }
    clear E Hnin. generalize (stress_of user). intros stress.
    split; [|split; [|split]].
    + intros [-> | ->]; reflexivity.
    + intros [-> | ->]; reflexivity.
    + intros ->; reflexivity.
    + intros H1 H2 H3 H4 H5.
      destruct (opt_in_list stress ["HIGH"; "CRITICAL_HIGH"]) eqn:E1.
      { apply opt_in_list_spec in E1. destruct E1 as (s & -> & Hs).
        apply list_elem_of_In in Hs. simpl in Hs. intuition congruence. }
      destruct (opt_in_list stress ["ELEVATED"; "MODERATE"]) eqn:E2.
      { apply opt_in_list_spec in E2. destruct E2 as (s & -> & Hs).
        apply list_elem_of_In in Hs. simpl in Hs. intuition congruence. }
      destruct (opt_eqb stress "FATIGUED") eqn:E3; [|reflexivity].
      apply opt_eqb_spec in E3. contradiction.
Qed.

(** C10: a user whose lowercase location name contains none of the keywords
    home, office, work, transit, commuting, cafe, coffee, park, gym and
    restaurant is given the location context HOME_BASE, which is also the
    context of every user whose location name contains "home". *)
Theorem C10_unrecognized_location_is_HOME_BASE (user : User) :
  (∀ keyword, keyword ∈ location_keywords →
     str_in keyword (lower (loc_name_full_of user)) = false) →
  ∃ c, transform_user_state user = Ok c ∧
    location_context c = HOME_BASE ∧
    ∀ home_user c',
      str_in "home" (lower (loc_name_full_of home_user)) = true →
      transform_user_state home_user = Ok c' →
      location_context c' = location_context c.
Proof.
  intros Hnone.
  destruct (transform_user_state_returns user) as [c Hc].
  exists c. split; [exact Hc|].
  destruct (transform_user_state_Ok _ _ Hc) as (_ & Hloc & _).
  assert (Hhome : location_context c = HOME_BASE).
  { rewrite Hloc. cbv zeta. simpl existsb.
    rewrite !Hnone
      by (apply list_elem_of_In; unfold location_keywords; simpl; tauto).
    reflexivity. }
  split; [exact Hhome|].
  intros home_user c' Hin Hc'.
  destruct (transform_user_state_Ok _ _ Hc') as (_ & Hloc' & _).
  rewrite Hloc', Hhome. cbv zeta. rewrite Hin. reflexivity.
Qed.

(** ** Opportunities *)

Lemma event_body_Ok global_context users_map event curated out :
  event_body global_context users_map event curated = Ok out →
  ∃ item scores,
    out = curated ++ [item] ∧
    suitability_scores event users_map = Ok scores ∧
    suitability item
      = filter (λ kv : option string * Score, kv.2 ≠ LOW) scores ∧
    event_id item = ev_identifier event ∧
    title item = ev_name event.
Proof.
  unfold event_body, suitability_scores. intros H. inv_Ok. subst out.
  eexists _, _. split; [reflexivity|]. split; [eassumption|]. simpl. auto.
Qed.

Lemma for_each_event_body global_context users_map events :
  ∀ curated out,
    for_each (event_body global_context users_map) events curated = Ok out →
    ∃ items,
      out = curated ++ items ∧
      Forall2
        (λ event item,
           ∃ scores,
             suitability_scores event users_map = Ok scores ∧
             suitability item
               = filter (λ kv : option string * Score, kv.2 ≠ LOW) scores ∧
             event_id item = ev_identifier event ∧
             title item = ev_name event)
        events items.
Proof.
  induction events as [|event events IH]; intros curated out H; simpl in H.
  - injection H as <-. exists []. rewrite app_nil_r. split; [reflexivity|].
    constructor.
  - inv_Ok.
    match goal with H : event_body _ _ _ _ = Ok _ |- _ =>
      apply event_body_Ok in H;
      destruct H as (item & scores & -> & Hs & Hf & Hid & Ht) end.
    apply IH in H. destruct H as (items & -> & HF).
    exists (item :: items). rewrite <- app_assoc. split; [reflexivity|].
    constructor; [|exact HF]. exists scores. auto.
Qed.

Lemma for_each_suitability_body event_type description title users_map :
  ∀ m scores,
    for_each (suitability_body event_type description title) users_map m
    = Ok scores →
    (∀ uid s, scores !! uid = Some s →
       m !! uid = Some s ∨
       ∃ user, user ∈ users_map ∧ uc_user_id user = uid ∧
         score_user event_type description title user = Ok s) ∧
    (∀ uid, is_Some (m !! uid) → is_Some (scores !! uid)) ∧
    (∀ user, user ∈ users_map → is_Some (scores !! uc_user_id user)).
Proof.
  induction users_map as [|user users_map IH]; intros m scores H; simpl in H.
  - injection H as <-. split; [auto|]. split; [auto|].
    intros user Hin. apply elem_of_nil in Hin. contradiction.
  - inv_Ok. unfold suitability_body in *. inv_Ok.
    match goal with H : <[_:=_]> _ = _ |- _ => rename H into Hm end.
    subst. apply IH in H. destruct H as (HA & HB & HC).
    split; [|split].
    + intros uid s Hs. apply HA in Hs. destruct Hs as [Hs | (u & Hu & <- & Hsc)].
      * destruct (decide (uc_user_id user = uid)) as [<-|Hne].
        -- rewrite lookup_insert_eq in Hs. injection Hs as <-.
           right. exists user. split; [left|]. auto.
        -- rewrite lookup_insert_ne in Hs by exact Hne. auto.
      * right. exists u. split; [right; exact Hu|]. auto.
    + intros uid Hsome. apply HB.
      destruct (decide (uc_user_id user = uid)) as [<-|Hne].
      * rewrite lookup_insert_eq. eauto.
      * rewrite lookup_insert_ne by exact Hne. exact Hsome.
    + intros u Hu. apply elem_of_cons in Hu. destruct Hu as [-> | Hu].
      * apply HB. rewrite lookup_insert_eq. eauto.
      * apply HC. exact Hu.
Qed.

(** [curate_opportunities] returns when every event has a name. *)
Lemma curate_opportunities_returns events global_context users_map :
  (∀ event, event ∈ events → is_Some (ev_name event)) →
  ∃ out, curate_opportunities events global_context users_map = Ok out.
Proof.
  intros Hnames. unfold curate_opportunities.
  apply for_each_returns. intros event curated Hev.
  destruct (Hnames event Hev) as [name Hname].
  unfold event_body.
  destruct (for_each_returns
    (suitability_body (default EmptyString (ev_type event))
       (default EmptyString (ev_description event)) (ev_name event)) users_map)
    with (st := (∅ : gmap (option string) Score)) as [scores ->].
  { intros user m _. unfold suitability_body, score_user. rewrite Hname. simpl.
    repeat match goal with
      | |- ∃ _, (if ?b then _ else _) ≫= _ = _ => destruct b
      end; simpl; eauto. }
  simpl. eauto.
Qed.

(** C6: in every record emitted by [curate_opportunities] the suitability map
    holds no LOW value: for a user of [users_map], having no entry in the map
    is the same as having scored LOW.  Every candidate event gives one record,
    in order, and a candidate that every user scores LOW still gives its
    record, with an empty suitability map. *)
Theorem C6_suitability_has_no_LOW
    (events : list Event) (global_context : GlobalContext)
    (users_map : list UserClassification) (out : list CuratedOpportunity) :
  curate_opportunities events global_context users_map = Ok out →
  length out = length events ∧
  (∀ item uid, item ∈ out → suitability item !! uid ≠ Some LOW) ∧
  (∀ i event, events !! i = Some event →
     ∃ item scores,
       out !! i = Some item ∧
       event_id item = ev_identifier event ∧
       suitability_scores event users_map = Ok scores ∧
       (∀ user, user ∈ users_map →
          (suitability item !! uc_user_id user = None ↔
           scores !! uc_user_id user = Some LOW)) ∧
       ((∀ user, user ∈ users_map → event_score event user = Ok LOW) →
        suitability item = ∅)).
Proof.
  unfold curate_opportunities. intros H.
  apply for_each_event_body in H. destruct H as (items & -> & HF).
  simpl. split; [symmetry; eapply Forall2_length; exact HF|]. split.
  - intros item uid Hin Hlow.
    apply list_elem_of_lookup in Hin. destruct Hin as [i Hi].
    destruct (Forall2_lookup_r _ _ _ _ _ HF Hi)
      as (event & _ & scores & _ & Hf & _).
    rewrite Hf in Hlow. apply map_lookup_filter_Some in Hlow.
    destruct Hlow as [_ Hne]. simpl in Hne. congruence.
  - intros i event Hi.
    destruct (Forall2_lookup_l _ _ _ _ _ HF Hi)
      as (item & Hitem & scores & Hs & Hf & Hid & _).
    exists item, scores. split; [exact Hitem|]. split; [exact Hid|].
    split; [exact Hs|].
    unfold suitability_scores in Hs.
    apply for_each_suitability_body in Hs. destruct Hs as (H1 & _ & H3).
    split.
    + intros user Hu. rewrite Hf. destruct (H3 user Hu) as [s Hs].
      rewrite Hs. split.
      * intros Hnone. destruct (decide (s = LOW)) as [->|Hne]; [reflexivity|].
        assert (filter (λ kv : option string * Score, kv.2 ≠ LOW) scores
                  !! uc_user_id user = Some s) as Hsome.
        { apply map_lookup_filter_Some. auto. }
        congruence.
      * intros [= ->]. apply map_lookup_filter_None. right.
        intros s Hs' Hne. simpl in Hne. congruence.
    + intros Hall. rewrite Hf. apply map_empty. intros uid.
      apply map_lookup_filter_None.
      destruct (scores !! uid) as [s|] eqn:E; [right | left; reflexivity].
      intros s' [= <-] Hne. simpl in Hne.
      destruct (H1 uid s E) as [Hempty | (u & Hu & _ & Hsc)].
      * rewrite lookup_empty in Hempty. discriminate.
      * unfold event_score in Hall. rewrite (Hall u Hu) in Hsc. congruence.
Qed.

(** ** Relationship frictions *)

Lemma String_ltb_antisym (a b : string) :
  String.ltb a b = true → String.ltb b a = false.
Proof.
  unfold String.ltb. rewrite (String.compare_antisym a b).
  destruct (b ?= a)%string; simpl; congruence.
Qed.

Lemma String_ltb_total (a b : string) :
  String.ltb a b = false → String.ltb b a = false → a = b.
Proof.
  unfold String.ltb. rewrite (String.compare_antisym a b).
  destruct (b ?= a)%string eqn:E; simpl; try discriminate.
  intros _ _. symmetry. apply String.compare_eq_iff. exact E.
Qed.

Lemma String_ltb_irrefl (a : string) : String.ltb a a = false.
Proof.
  destruct (String.ltb a a) eqn:E; [|reflexivity].
  rewrite (String_ltb_antisym _ _ E) in E. discriminate.
Qed.

(** The key is the same for the two directions of a pair, and only for
    them. *)
Lemma sorted_pair_eq (a b c d : string) :
  sorted_pair a b = sorted_pair c d ↔ (a = c ∧ b = d) ∨ (a = d ∧ b = c).
Proof.
  unfold sorted_pair. split.
  - destruct (String.ltb b a) eqn:E1, (String.ltb d c) eqn:E2;
      intros [= -> ->]; auto.
  - intros [[-> ->] | [-> ->]]; [reflexivity|].
    destruct (String.ltb c d) eqn:E1, (String.ltb d c) eqn:E2; try reflexivity.
    + rewrite (String_ltb_antisym _ _ E1) in E2. discriminate.
    + rewrite (String_ltb_total _ _ E1 E2). reflexivity.
Qed.

Lemma sorted_pair_comm (a b : string) : sorted_pair a b = sorted_pair b a.
Proof. apply sorted_pair_eq. auto. Qed.

Lemma relation_body_Ok {libm : Libm} user_locs global_context u r results
    seen st' :
  relation_body user_locs global_context u r (results, seen) = Ok st' →
  ∃ src tgt,
    user_id u = Some src ∧ rel_target_id r = Some tgt ∧
    ((sorted_pair src tgt ∈ seen ∧ st' = (results, seen)) ∨
     ((sorted_pair src tgt ∉ seen) ∧
      ∃ new, emitted user_locs global_context (u, r) = Ok new ∧
             st' = (results ++ new, seen ∪ {[sorted_pair src tgt]}))).
Proof.
  unfold emitted, relation_body. simpl.
  destruct (user_id u) as [src|]; simpl; [|discriminate].
  destruct (rel_target_id r) as [tgt|]; simpl; [|discriminate].
  intros H. exists src, tgt. split; [reflexivity|]. split; [reflexivity|].
  rewrite (bool_decide_eq_false_2 (sorted_pair src tgt ∈ (∅ : gset _)))
    by apply not_elem_of_empty.
  destruct (bool_decide (sorted_pair src tgt ∈ seen)) eqn:Eseen.
  - apply bool_decide_eq_true in Eseen. injection H as <-. left. auto.
  - apply bool_decide_eq_false in Eseen. right. split; [exact Eseen|].
    destruct (calculate_proximity_category _ _) as [prox|e]; simpl in *;
      [|discriminate].
    destruct (opt_eqb (rel_status r) "CRITICAL_DISCONNECT").
    { injection H as <-. simpl. eauto. }
    destruct (opt_eqb (rel_status r) "GOOD"); [|injection H as <-; simpl;
      exists []; rewrite app_nil_r; auto].
    destruct (bool_decide _); [|injection H as <-; simpl;
      exists []; rewrite app_nil_r; auto].
    destruct (upper_of (rel_relation r)) as [label|]; simpl in *;
      [|discriminate].
    injection H as <-. eauto.
Qed.

(** What the loop body appends for an edge whose pair is new: a
    disconnect record, an opportunity record, or nothing. *)
Lemma emitted_Ok {libm : Libm} user_locs global_context u r src tgt new :
  user_id u = Some src → rel_target_id r = Some tgt →
  emitted user_locs global_context (u, r) = Ok new →
  ∃ prox,
    calculate_proximity_category (user_locs !! src) (user_locs !! tgt)
    = Ok prox ∧
    ((rel_status r = Some "CRITICAL_DISCONNECT"%string ∧
      ∃ rec, new = [rec] ∧
        source_user rec = src ∧ target_user rec = tgt ∧
        connection_health rec = CRITICAL_DISCONNECT ∧
        proximity_opportunity rec = prox ∧
        (prox ≠ WALKING_DISTANCE → prox ≠ DISTANT →
         scout_hint rec = "Critical Disconnect detected."%string) ∧
        (prox = WALKING_DISTANCE →
         scout_hint rec
         = "Nearby + Disconnected = Suggest immediate meetup."%string)) ∨
     (rel_status r = Some "GOOD"%string ∧ prox = WALKING_DISTANCE ∧
      ∃ rec label, new = [rec] ∧
        source_user rec = src ∧ target_user rec = tgt ∧
        connection_health rec = HEALTHY ∧
        proximity_opportunity rec = WALKING_DISTANCE ∧
        rel_relation r = Some label ∧ relationship_type rec = upper label) ∨
     (rel_status r ≠ Some "CRITICAL_DISCONNECT"%string ∧
      (rel_status r = Some "GOOD"%string → prox ≠ WALKING_DISTANCE) ∧
      new = [])).
Proof.
  intros Hsrc Htgt. unfold emitted, relation_body. simpl.
  rewrite Hsrc, Htgt. simpl.
  rewrite (bool_decide_eq_false_2 (sorted_pair src tgt ∈ (∅ : gset _)))
    by apply not_elem_of_empty.
  destruct (calculate_proximity_category _ _) as [prox|e]; simpl;
    [|discriminate].
  intros Hnew. exists prox. split; [reflexivity|]. revert Hnew.
  destruct (opt_eqb (rel_status r) "CRITICAL_DISCONNECT") eqn:Ec.
  { apply opt_eqb_spec in Ec. intros [= <-]. left. split; [exact Ec|].
    eexists. split; [reflexivity|]. simpl.
    repeat split; try reflexivity.
    - intros Hw Hd.
      rewrite (bool_decide_eq_false_2 _ Hw), (bool_decide_eq_false_2 _ Hd).
      rewrite andb_false_r. reflexivity.
    - intros Hw. rewrite Hw. simpl. rewrite andb_false_r. reflexivity. }
  assert (Hnc : rel_status r ≠ Some "CRITICAL_DISCONNECT"%string).
  { intros E. apply opt_eqb_spec in E. congruence. }
  destruct (opt_eqb (rel_status r) "GOOD") eqn:Eg.
  - apply opt_eqb_spec in Eg.
    destruct (bool_decide _) eqn:Ew.
    + apply bool_decide_eq_true in Ew.
      destruct (rel_relation r) as [label|]; simpl; [|discriminate].
      intros [= <-]. right. left. split; [exact Eg|]. split; [exact Ew|].
      eexists _, label. split; [reflexivity|]. simpl. auto 10.
    + apply bool_decide_eq_false in Ew. intros [= <-]. right. right. auto.
  - intros [= <-]. right. right. split; [exact Hnc|]. split; [|reflexivity].
    intros E. apply opt_eqb_spec in E. congruence.
Qed.

Lemma user_loops_as_edges {libm : Libm} user_locs global_context users :
  ∀ st,
    for_each (user_body user_locs global_context) users st
    = for_each (λ e, relation_body user_locs global_context e.1 e.2)
        (edges users) st.
Proof.
  assert (Hu : ∀ u l st,
    for_each (relation_body user_locs global_context u) l st
    = for_each (λ e, relation_body user_locs global_context e.1 e.2)
        (pair u <$> l) st).
  { intros u. induction l as [|r l IHl]; intros st0; [reflexivity|]. simpl.
    destruct (relation_body _ _ u r st0); simpl; [apply IHl | reflexivity]. }
  assert (Hu' : ∀ u st,
    user_body user_locs global_context u st
    = for_each (λ e, relation_body user_locs global_context e.1 e.2)
        (pair u <$> default [] (social_graph_snapshot u)) st).
  { intros u st. unfold user_body. apply Hu. }
  induction users as [|u users IH]; intros st; [reflexivity|].
  change (edges (u :: users))
    with ((pair u <$> default [] (social_graph_snapshot u)) ++ edges users).
  rewrite for_each_app.
  change (for_each (user_body user_locs global_context) (u :: users) st)
    with (user_body user_locs global_context u st
          ≫= for_each (user_body user_locs global_context) users).
  rewrite (Hu' u st).
  destruct (for_each _ (pair u <$> _) st); simpl; [apply IH|reflexivity].
Qed.

Lemma for_each_edges {libm : Libm} user_locs global_context E :
  ∀ results seen st',
    for_each (λ e, relation_body user_locs global_context e.1 e.2) E
      (results, seen) = Ok st' →
    ∃ news,
      Forall2 (λ e new, emitted user_locs global_context e = Ok new)
        (first_seen E seen) news ∧
      st' = (results ++ concat news, seen_after E seen).
Proof.
  induction E as [|[u r] E IH]; intros results seen st' H.
  - injection H as <-. exists []. simpl. rewrite app_nil_r. split; constructor.
  - change (relation_body user_locs global_context u r (results, seen)
            ≫= for_each (λ e, relation_body user_locs global_context e.1 e.2) E
            = Ok st') in H.
    apply bind_Ok in H. destruct H as (st1 & Hbody & H).
    apply relation_body_Ok in Hbody.
    destruct Hbody as (src & tgt & Hs & Ht & Hcase).
    simpl. unfold edge_key. simpl. rewrite Hs, Ht. simpl.
    destruct Hcase as [[Hin ->] | (Hnin & new & Hnew & ->)].
    + rewrite (bool_decide_eq_true_2 _ Hin).
      assert (seen ∪ {[sorted_pair src tgt]} = seen) as ->.
      { rewrite union_comm_L. apply subseteq_union_1_L.
        apply singleton_subseteq_l. exact Hin. }
      apply IH. exact H.
    + rewrite (bool_decide_eq_false_2 _ Hnin).
      apply IH in H. destruct H as (news & HF & ->).
      exists (new :: news). split; [constructor; assumption|].
      simpl. rewrite app_assoc. reflexivity.
Qed.

Lemma emitted_pair {libm : Libm} user_locs global_context e new :
  emitted user_locs global_context e = Ok new →
  ∃ src tgt,
    user_id e.1 = Some src ∧ rel_target_id e.2 = Some tgt ∧
    edge_key e = Some (sorted_pair src tgt) ∧
    ∀ rec, rec ∈ new → source_user rec = src ∧ target_user rec = tgt.
Proof.
  destruct e as [u r]. intros H.
  assert (Hb := H). unfold emitted in Hb. apply bind_Ok in Hb.
  destruct Hb as (st & Hb & _). apply relation_body_Ok in Hb.
  destruct Hb as (src & tgt & Hs & Ht & _). simpl in Hs, Ht.
  exists src, tgt. unfold edge_key. simpl. rewrite Hs, Ht. simpl.
  split; [reflexivity|]. split; [reflexivity|]. split; [reflexivity|].
  intros rec Hin.
  destruct (emitted_Ok _ _ _ _ _ _ _ Hs Ht H)
    as (prox & _ & [(_ & r0 & -> & Hsrc & Htgt & _)
       | [(_ & _ & r0 & l & -> & Hsrc & Htgt & _) | (_ & _ & ->)]]).
  - apply list_elem_of_singleton in Hin. subst rec. auto.
  - apply list_elem_of_singleton in Hin. subst rec. auto.
  - apply elem_of_nil in Hin. contradiction.
Qed.

Lemma seen_after_spec E : ∀ seen k,
  k ∈ seen_after E seen ↔ k ∈ seen ∨ ∃ e, e ∈ E ∧ edge_key e = Some k.
Proof.
  induction E as [|e E IH]; intros seen k; simpl.
  - split; [auto|]. intros [H | (e & He & _)]; [exact H|].
    apply elem_of_nil in He. contradiction.
  - destruct (edge_key e) as [k0|] eqn:Ek; rewrite IH.
    + rewrite elem_of_union, elem_of_singleton. split.
      * intros [[H | ->] | (e' & He' & Hk)]; auto.
        -- right. exists e. split; [left | exact Ek].
        -- right. exists e'. split; [right; exact He' | exact Hk].
      * intros [H | (e' & He' & Hk)]; auto.
        apply elem_of_cons in He'. destruct He' as [-> | He'].
        -- left. right. congruence.
        -- right. eauto.
    + split.
      * intros [H | (e' & He' & Hk)]; auto.
        right. exists e'. split; [right; exact He' | exact Hk].
      * intros [H | (e' & He' & Hk)]; auto.
        apply elem_of_cons in He'. destruct He' as [-> | He']; [congruence|].
        right. eauto.
Qed.

Lemma first_seen_app E1 E2 : ∀ seen,
  first_seen (E1 ++ E2) seen
  = first_seen E1 seen ++ first_seen E2 (seen_after E1 seen).
Proof.
  induction E1 as [|e E1 IH]; intros seen; simpl; [reflexivity|].
  destruct (edge_key e) as [k|]; [|apply IH].
  destruct (bool_decide (k ∈ seen)) eqn:Ek.
  - apply bool_decide_eq_true in Ek.
    assert (seen ∪ {[k]} = seen) as ->; [|apply IH].
    rewrite union_comm_L. apply subseteq_union_1_L.
    apply singleton_subseteq_l. exact Ek.
  - simpl. rewrite IH. reflexivity.
Qed.

(** An edge that passes the [seen_pairs] test is the first edge of its pair. *)
Lemma first_seen_elem E : ∀ seen e,
  e ∈ first_seen E seen →
  ∃ pre post k,
    E = pre ++ e :: post ∧ edge_key e = Some k ∧ (k ∉ seen) ∧
    ∀ e', e' ∈ pre → edge_key e' ≠ Some k.
Proof.
  induction E as [|e0 E IH]; intros seen e He; simpl in He.
  - apply elem_of_nil in He. contradiction.
  - destruct (edge_key e0) as [k0|] eqn:Ek0.
    + destruct (bool_decide (k0 ∈ seen)) eqn:Eseen.
      * apply bool_decide_eq_true in Eseen.
        destruct (IH _ _ He) as (pre & post & k & -> & Hk & Hnin & Hpre).
        exists (e0 :: pre), post, k. repeat split; auto.
        intros e' He'. apply elem_of_cons in He'.
        destruct He' as [-> | He']; [|auto].
        rewrite Ek0. intros [= ->]. contradiction.
      * apply bool_decide_eq_false in Eseen.
        apply elem_of_cons in He. destruct He as [-> | He].
        -- exists [], E, k0. repeat split; auto.
           intros e' He'. apply elem_of_nil in He'. contradiction.
        -- destruct (IH _ _ He) as (pre & post & k & -> & Hk & Hnin & Hpre).
           apply not_elem_of_union in Hnin. destruct Hnin as [Hnin Hne].
           apply not_elem_of_singleton in Hne.
           exists (e0 :: pre), post, k. repeat split; auto.
           intros e' He'. apply elem_of_cons in He'.
           destruct He' as [-> | He']; [|auto].
           rewrite Ek0. congruence.
    + destruct (IH _ _ He) as (pre & post & k & -> & Hk & Hnin & Hpre).
      exists (e0 :: pre), post, k. repeat split; auto.
      intros e' He'. apply elem_of_cons in He'.
      destruct He' as [-> | He']; [|auto].
      rewrite Ek0. discriminate.
Qed.

(** The records of a run carry pairwise different pairs, none of them seen
    before the run. *)
Lemma records_NoDup {libm : Libm} user_locs global_context E : ∀ seen news,
  Forall2 (λ e new, emitted user_locs global_context e = Ok new)
    (first_seen E seen) news →
  NoDup (Friction_pair <$> concat news) ∧
  ∀ rec, rec ∈ concat news →
    (Friction_pair rec ∉ seen) ∧
    ∃ e new, e ∈ first_seen E seen ∧
      emitted user_locs global_context e = Ok new ∧ rec ∈ new.
Proof.
  induction E as [|e E IH]; intros seen news HF; simpl in HF.
  - inversion HF; subst. simpl. split; [constructor|].
    intros rec Hin. apply elem_of_nil in Hin. contradiction.
  - simpl. destruct (edge_key e) as [k|] eqn:Ek; [|apply IH; exact HF].
    destruct (bool_decide (k ∈ seen)) eqn:Eseen; [apply IH; exact HF|].
    apply bool_decide_eq_false in Eseen.
    inversion HF as [|e0 new es news' Hnew HF']; subst.
    destruct (IH _ _ HF') as (Hnd & Hrec).
    destruct (emitted_pair _ _ _ _ Hnew) as (src & tgt & Hs & Ht & Hk & Hst).
    rewrite Ek in Hk. injection Hk as ->.
    assert (Hnewk : ∀ rec, rec ∈ new → Friction_pair rec = sorted_pair src tgt).
    { intros rec Hin. destruct (Hst rec Hin) as [<- <-]. reflexivity. }
    simpl. rewrite fmap_app. split.
    + apply NoDup_app. split; [|split; [|exact Hnd]].
      * destruct (emitted_Ok _ _ _ _ _ _ _ Hs Ht Hnew)
          as (prox & _ &
              [(_ & r0 & -> & _) | [(_ & _ & r0 & l & -> & _) | (_ & _ & ->)]]);
          simpl; repeat constructor; apply not_elem_of_nil.
      * intros p Hp Hp'. apply list_elem_of_fmap in Hp, Hp'.
        destruct Hp as (rec & -> & Hin). destruct Hp' as (rec' & Heq & Hin').
        rewrite (Hnewk rec Hin) in Heq.
        destruct (Hrec rec' Hin') as (Hnin & _). rewrite <- Heq in Hnin.
        apply Hnin. apply elem_of_union. right. apply elem_of_singleton.
        reflexivity.
    + intros rec Hin. apply elem_of_app in Hin. destruct Hin as [Hin | Hin].
      * split; [rewrite (Hnewk rec Hin); exact Eseen|].
        exists e, new. split; [left|]. auto.
      * destruct (Hrec rec Hin) as (Hnin & e' & new' & He' & Hnew' & Hin').
        split; [intros Hs'; apply Hnin; apply elem_of_union; auto|].
        exists e', new'. split; [right; exact He'|]. auto.
Qed.

(** A run of [analyze_relationships] that returns has built [user_locs] and
    returns, in order, what the loop body appends for the first edge of each
    pair. *)
Lemma analyze_relationships_Ok {libm : Libm} users global_context res :
  analyze_relationships users global_context = Ok res →
  ∃ user_locs news,
    build_user_locs users = Ok user_locs ∧
    Forall2 (λ e new, emitted user_locs global_context e = Ok new)
      (first_seen (edges users) ∅) news ∧
    res = concat news.
Proof.
  unfold analyze_relationships. intros H.
  apply bind_Ok in H. destruct H as (user_locs & Hlocs & H).
  apply bind_Ok in H. destruct H as (st & Hrun & H). injection H as <-.
  rewrite user_loops_as_edges in Hrun.
  apply for_each_edges in Hrun. destruct Hrun as (news & HF & ->).
  exists user_locs, news. auto.
Qed.

(** The records of a run that name the pair of a given first edge are the
    records that the loop body appends for that edge. *)
Lemma records_of_first_edge {libm : Libm} user_locs global_context E pre e
    post k news :
  E = pre ++ e :: post →
  edge_key e = Some k →
  (∀ e', e' ∈ pre → edge_key e' ≠ Some k) →
  Forall2 (λ e new, emitted user_locs global_context e = Ok new)
    (first_seen E ∅) news →
  ∃ new,
    emitted user_locs global_context e = Ok new ∧
    ∀ rec, rec ∈ concat news ∧ Friction_pair rec = k ↔ rec ∈ new.
Proof.
  intros -> Hk Hpre HF.
  assert (Hnin : k ∉ seen_after pre ∅).
  { rewrite seen_after_spec. intros [H | (e' & He' & Hk')].
    - apply not_elem_of_empty in H. exact H.
    - exact (Hpre e' He' Hk'). }
  rewrite first_seen_app in HF. simpl in HF. rewrite Hk in HF.
  rewrite (bool_decide_eq_false_2 _ Hnin) in HF.
  apply Forall2_app_inv_l in HF.
  destruct HF as (news1 & news2 & HF1 & HF2 & ->).
  inversion HF2 as [|e0 new es news3 Hnew HF3]; subst.
  exists new. split; [exact Hnew|].
  destruct (emitted_pair _ _ _ _ Hnew) as (src & tgt & _ & _ & Hk' & Hst).
  rewrite Hk in Hk'. injection Hk' as ->.
  destruct (records_NoDup _ _ _ _ _ HF1) as (_ & Hrec1).
  destruct (records_NoDup _ _ _ _ _ HF3) as (_ & Hrec3).
  intros rec. rewrite concat_app. simpl. rewrite !elem_of_app. split.
  - intros [[Hin | [Hin | Hin]] Hp]; [exfalso | exact Hin | exfalso].
    + destruct (Hrec1 rec Hin) as (_ & e' & new' & He' & Hnew' & Hin').
      destruct (emitted_pair _ _ _ _ Hnew')
        as (src' & tgt' & _ & _ & Hk' & Hst').
      destruct (Hst' rec Hin') as [Hs Ht]. unfold Friction_pair in Hp.
      rewrite Hs, Ht in Hp. rewrite Hp in Hk'.
      destruct (first_seen_elem _ _ _ He') as (p1 & p2 & k' & -> & _ & _ & _).
      apply (Hpre e'); [|exact Hk'].
      apply elem_of_app. right. left.
    + destruct (Hrec3 rec Hin) as (Hnin' & _). apply Hnin'.
      apply elem_of_union. right. apply elem_of_singleton. exact Hp.
  - intros Hin. split; [auto|].
    destruct (Hst rec Hin) as [<- <-]. reflexivity.
Qed.

Lemma edge_key_joins (e : User * Relation) (a b : string) :
  edge_key e = Some (sorted_pair a b) ↔ joins e a b.
Proof.
  unfold edge_key, joins.
  destruct (user_id e.1) as [src|]; simpl;
    [|split; [discriminate | intros [[[=] _] | [[=] _]]]].
  destruct (rel_target_id e.2) as [tgt|]; simpl;
    [|split; [discriminate | intros [[_ [=]] | [_ [=]]]]].
  split.
  - intros [= H]. apply sorted_pair_eq in H.
    destruct H as [[-> ->] | [-> ->]]; auto.
  - intros [[[= ->] [= ->]] | [[= ->] [= ->]]]; f_equal.
    apply sorted_pair_comm.
Qed.

Lemma Friction_pair_names (rec : Friction) (a b : string) :
  Friction_pair rec = sorted_pair a b ↔ names_pair rec a b.
Proof. apply sorted_pair_eq. Qed.

Lemma build_user_locs_absent users : ∀ (m user_locs : gmap string Location) id,
  for_each
    (λ u (locs : gmap string Location),
       uid ← subscript "user_id" (user_id u);
       loc ← subscript "current_location" (current_location u);
       Ok (<[uid := loc]> locs)) users m = Ok user_locs →
  (∀ v, v ∈ users → user_id v ≠ Some id) →
  user_locs !! id = m !! id.
Proof.
  induction users as [|u users IH]; intros m user_locs id H Hno.
  - injection H as <-. reflexivity.
  - simpl in H. inv_Ok.
    match goal with H : <[_:=_]> _ = _ |- _ => subst end.
    rewrite (IH _ _ id H).
    + apply lookup_insert_ne. intros ->.
      apply (Hno u); [left|].
      destruct (user_id u); simpl in *; congruence.
    + intros v Hv. apply Hno. right. exact Hv.
Qed.

(** A location recorded in [user_locs] is the location of a user of the
    list with that id. *)
Lemma build_user_locs_lookup users :
  ∀ (m user_locs : gmap string Location) id loc,
  for_each
    (λ u (locs : gmap string Location),
       uid ← subscript "user_id" (user_id u);
       loc ← subscript "current_location" (current_location u);
       Ok (<[uid := loc]> locs)) users m = Ok user_locs →
  user_locs !! id = Some loc →
  m !! id = Some loc ∨
  ∃ u, u ∈ users ∧ user_id u = Some id ∧ current_location u = Some loc.
Proof.
  induction users as [|v users IH]; intros m user_locs id loc H Hl.
  - injection H as <-. left. exact Hl.
  - simpl in H. apply bind_Ok in H. destruct H as (m' & Hv & H).
    destruct (IH _ _ _ _ H Hl) as [Hm' | (u & Hu & Hid & Hloc)].
    + destruct (user_id v) as [uid|] eqn:Eid; simpl in Hv; [|discriminate].
      destruct (current_location v) as [l|] eqn:El; simpl in Hv;
        [|discriminate].
      injection Hv as <-.
      destruct (decide (uid = id)) as [->|Hne].
      * rewrite lookup_insert_eq in Hm'. injection Hm' as ->.
        right. exists v. split; [left | auto].
      * rewrite lookup_insert_ne in Hm' by exact Hne. left. exact Hm'.
    + right. exists u. split; [right; exact Hu | auto].
Qed.

(** An entry of [user_locs] is missing or is the location of a user. *)
Lemma user_locs_lookup users user_locs id :
  build_user_locs users = Ok user_locs →
  user_locs !! id = None ∨
  ∃ u, u ∈ users ∧ user_locs !! id = current_location u.
Proof.
  intros Hlocs. destruct (user_locs !! id) as [loc|] eqn:E; [|auto].
  right. unfold build_user_locs in Hlocs.
  destruct (build_user_locs_lookup _ _ _ _ _ Hlocs E)
    as [Hm | (u & Hu & _ & Hloc)].
  - rewrite lookup_empty in Hm. discriminate.
  - exists u. auto.
Qed.

(** When the proximity of the locations of every two users can be computed,
    so can the proximity of every two entries of [user_locs]. *)
Lemma user_locs_proximity {libm : Libm} users user_locs :
  build_user_locs users = Ok user_locs →
  (∀ u v, u ∈ users → v ∈ users →
     ∃ p, calculate_proximity_category
            (current_location u) (current_location v) = Ok p) →
  ∀ a b, ∃ p,
    calculate_proximity_category (user_locs !! a) (user_locs !! b) = Ok p.
Proof.
  intros Hlocs Hprox a b.
  destruct (user_locs_lookup users user_locs a Hlocs)
    as [-> | (u & Hu & ->)].
  { exists UNKNOWN. reflexivity. }
  destruct (user_locs_lookup users user_locs b Hlocs)
    as [-> | (v & Hv & ->)].
  { exists UNKNOWN. unfold calculate_proximity_category.
    rewrite orb_true_r. reflexivity. }
  exact (Hprox u v Hu Hv).
Qed.

(** [analyze_relationships] returns on every input in which each user has an
    id and a location object, each relation has a target and a label, and
    the proximity of the locations of every two users can be computed. *)
Lemma analyze_relationships_returns {libm : Libm} users global_context :
  (∀ u, u ∈ users → is_Some (user_id u) ∧ is_Some (current_location u)) →
  (∀ e, e ∈ edges users →
     is_Some (rel_target_id e.2) ∧ is_Some (rel_relation e.2)) →
  (∀ u v, u ∈ users → v ∈ users →
     ∃ p, calculate_proximity_category
            (current_location u) (current_location v) = Ok p) →
  ∃ res, analyze_relationships users global_context = Ok res.
Proof.
  intros Husers Hedges Hprox. unfold analyze_relationships.
  destruct (for_each_returns
    (λ u (locs : gmap string Location),
       uid ← subscript "user_id" (user_id u);
       loc ← subscript "current_location" (current_location u);
       Ok (<[uid := loc]> locs)) users) with (st := (∅ : gmap string Location))
    as [user_locs Hlocs].
  { intros u st Hu. destruct (Husers u Hu) as [[uid ->] [loc ->]].
    simpl. eauto. }
  pose proof (user_locs_proximity users user_locs Hlocs Hprox) as Hp.
  unfold build_user_locs. rewrite Hlocs. simpl.
  rewrite user_loops_as_edges.
  destruct (for_each_returns
    (λ e, relation_body user_locs global_context e.1 e.2) (edges users))
    with (st := (([], ∅) : AnalysisState)) as [st' Hrun].
  { intros [u r] [results seen] He.
    destruct (Hedges _ He) as [[tgt Ht] [label Hl]]. simpl in Ht, Hl.
    assert (Hu : u ∈ users).
    { unfold edges in He. apply list_elem_of_In, in_flat_map in He.
      destruct He as (u' & Hu' & He). apply list_elem_of_In in He.
      apply list_elem_of_fmap in He. destruct He as (r' & [= -> ->] & _).
      apply list_elem_of_In. exact Hu'. }
    destruct (Husers u Hu) as [[uid Hid] _].
    unfold relation_body. simpl. rewrite Hid, Ht, Hl. simpl.
    destruct (bool_decide _); [eauto|].
    destruct (Hp uid tgt) as [p ->]. simpl.
    repeat match goal with
      | |- ∃ _, (if ?b then _ else _) = _ => destruct b
      end; eauto. }
  rewrite Hrun. simpl. eauto.
Qed.

(** C1: a run of [analyze_relationships] returns at most one record per
    unordered pair of users: two records that name the same two users, in
    either order, are the same entry of the result.  The record of a pair
    comes from the first edge, in the order of the two loops, that joins the
    two users in either direction: it carries that edge's source and target,
    is what the loop body emits for that edge, and is of the disconnect class
    exactly when that edge's status is CRITICAL_DISCONNECT. *)
Theorem C1_at_most_one_record_per_pair {libm : Libm}
    (users : list User) (global_context : GlobalContext)
    (res : list Friction) :
  analyze_relationships users global_context = Ok res →
  (∀ i j rec1 rec2,
     res !! i = Some rec1 → res !! j = Some rec2 →
     names_pair rec1 (source_user rec2) (target_user rec2) → i = j) ∧
  ∃ user_locs,
    build_user_locs users = Ok user_locs ∧
    ∀ rec, rec ∈ res →
      ∃ pre u r post,
        edges users = pre ++ (u, r) :: post ∧
        user_id u = Some (source_user rec) ∧
        rel_target_id r = Some (target_user rec) ∧
        (∀ e', e' ∈ pre →
           ¬ joins e' (source_user rec) (target_user rec)) ∧
        emitted user_locs global_context (u, r) = Ok [rec] ∧
        (connection_health rec = CRITICAL_DISCONNECT ↔
         rel_status r = Some "CRITICAL_DISCONNECT"%string).
Proof.
  intros H. apply analyze_relationships_Ok in H.
  destruct H as (user_locs & news & Hlocs & HF & ->).
  destruct (records_NoDup _ _ _ _ _ HF) as (Hnd & Hrec).
  split.
  - intros i j rec1 rec2 Hi Hj Hnames.
    apply Friction_pair_names in Hnames.
    eapply NoDup_lookup; [exact Hnd | |].
    + rewrite list_lookup_fmap, Hi. reflexivity.
    + rewrite list_lookup_fmap, Hj. simpl. f_equal. symmetry. exact Hnames.
  - exists user_locs. split; [exact Hlocs|].
    intros rec Hin.
    destruct (Hrec rec Hin) as (_ & [u r] & new & He & Hnew & Hin').
    destruct (first_seen_elem _ _ _ He) as (pre & post & k & HE & Hk & _ & Hpre).
    destruct (emitted_pair _ _ _ _ Hnew) as (src & tgt & Hs & Ht & Hk' & Hst).
    simpl in Hs, Ht. destruct (Hst rec Hin') as [Hsrc Htgt].
    rewrite Hk in Hk'. injection Hk' as ->.
    exists pre, u, r, post. rewrite Hsrc, Htgt.
    split; [exact HE|]. split; [exact Hs|]. split; [exact Ht|]. split.
    + intros e' He' Hj. apply edge_key_joins in Hj. exact (Hpre e' He' Hj).
    + rewrite Hnew.
      destruct (emitted_Ok _ _ _ _ _ _ _ Hs Ht Hnew)
        as (prox & _ & [(Hc & r0 & -> & _ & _ & Hh & _)
           | [(Hg & _ & r0 & l & -> & _ & _ & Hh & _) | (_ & _ & ->)]]).
      * apply list_elem_of_singleton in Hin'. subst r0.
        split; [reflexivity|]. rewrite Hh, Hc. split; reflexivity.
      * apply list_elem_of_singleton in Hin'. subst r0.
        split; [reflexivity|]. rewrite Hh, Hg. split; discriminate.
      * apply elem_of_nil in Hin'. contradiction.
Qed.

(** C3: for every relation that the run processes, that is the first edge
    joining its two users, the result holds a record for the pair exactly
    when the status is CRITICAL_DISCONNECT, at any proximity, or the status is
    GOOD and the proximity is WALKING_DISTANCE.  A GOOD relation at another
    proximity and a relation of any other status give no record, and the
    record is of the disconnect class exactly for CRITICAL_DISCONNECT. *)
Theorem C3_record_emitted_iff {libm : Libm}
    (users : list User) (global_context : GlobalContext)
    (res : list Friction) :
  analyze_relationships users global_context = Ok res →
  ∃ user_locs,
    build_user_locs users = Ok user_locs ∧
    ∀ pre u r post src tgt,
      edges users = pre ++ (u, r) :: post →
      user_id u = Some src → rel_target_id r = Some tgt →
      (∀ e', e' ∈ pre → ¬ joins e' src tgt) →
      let prox :=
        calculate_proximity_category (user_locs !! src) (user_locs !! tgt) in
      ((∃ rec, rec ∈ res ∧ names_pair rec src tgt) ↔
       rel_status r = Some "CRITICAL_DISCONNECT"%string ∨
       (rel_status r = Some "GOOD"%string ∧ prox = Ok WALKING_DISTANCE)) ∧
      (∀ rec, rec ∈ res → names_pair rec src tgt →
         source_user rec = src ∧ target_user rec = tgt ∧
         (connection_health rec = CRITICAL_DISCONNECT ↔
          rel_status r = Some "CRITICAL_DISCONNECT"%string) ∧
         (connection_health rec = HEALTHY ↔
          rel_status r = Some "GOOD"%string)).
Proof.
  intros H. apply analyze_relationships_Ok in H.
  destruct H as (user_locs & news & Hlocs & HF & ->).
  exists user_locs. split; [exact Hlocs|].
  intros pre u r post src tgt HE Hs Ht Hpre prox.
  assert (Hk : edge_key (u, r) = Some (sorted_pair src tgt)).
  { apply edge_key_joins. left. auto. }
  destruct (records_of_first_edge user_locs global_context _ _ _ _ _ news
              HE Hk) as (new & Hnew & Hiff); [|exact HF|].
  { intros e' He' Hj. apply edge_key_joins in Hj. exact (Hpre e' He' Hj). }
  destruct (emitted_Ok _ _ _ _ _ _ _ Hs Ht Hnew) as (p & Hp & Hcases).
  subst prox. rewrite Hp.
  split; [split|].
  - intros (rec & Hin & Hn). apply Friction_pair_names in Hn.
    assert (Hin' : rec ∈ new) by (apply Hiff; auto).
    destruct Hcases as [(Hc & _) | [(Hg & -> & _) | (_ & _ & ->)]]; auto.
    apply elem_of_nil in Hin'. contradiction.
  - intros Hcond.
    destruct Hcases
      as [(_ & rec & -> & Hsrc & Htgt & _)
         | [(_ & _ & rec & l & -> & Hsrc & Htgt & _) | (Hnc & Hng & ->)]].
    + exists rec. split; [apply Hiff; left | left; auto].
    + exists rec. split; [apply Hiff; left | left; auto].
    + destruct Hcond as [Hc | [Hg [= Hw]]]; [contradiction|].
      exfalso. exact (Hng Hg Hw).
  - intros rec Hin Hn. apply Friction_pair_names in Hn.
    assert (Hin' : rec ∈ new) by (apply Hiff; auto).
    destruct Hcases
      as [(Hc & rec' & -> & Hsrc & Htgt & Hh & _)
         | [(Hg & _ & rec' & l & -> & Hsrc & Htgt & Hh & _) | (_ & _ & ->)]].
    + apply list_elem_of_singleton in Hin'. subst rec'.
      rewrite Hh, Hc. repeat split; auto; discriminate.
    + apply list_elem_of_singleton in Hin'. subst rec'.
      rewrite Hh, Hg. repeat split; auto; discriminate.
    + apply elem_of_nil in Hin'. contradiction.
Qed.

(** C9: for a relation that the run processes and whose target is the id of
    no user of the input list, or one of whose two end points has no location
    (none recorded for the id, or an empty location object), the proximity
    computed is UNKNOWN.  If its status is CRITICAL_DISCONNECT the result
    holds its record, with proximity UNKNOWN and the generic hint; if its
    status is GOOD the result holds no record for the pair. *)
Theorem C9_unknown_proximity {libm : Libm}
    (users : list User) (global_context : GlobalContext)
    (res : list Friction) :
  analyze_relationships users global_context = Ok res →
  ∃ user_locs,
    build_user_locs users = Ok user_locs ∧
    ∀ pre u r post src tgt,
      edges users = pre ++ (u, r) :: post →
      user_id u = Some src → rel_target_id r = Some tgt →
      (∀ e', e' ∈ pre → ¬ joins e' src tgt) →
      (∀ v, v ∈ users → user_id v ≠ Some tgt) ∨
      not_loc (user_locs !! src) = true ∨
      not_loc (user_locs !! tgt) = true →
      calculate_proximity_category (user_locs !! src) (user_locs !! tgt)
      = Ok UNKNOWN ∧
      (rel_status r = Some "CRITICAL_DISCONNECT"%string →
       ∃ rec, rec ∈ res ∧
         source_user rec = src ∧ target_user rec = tgt ∧
         connection_health rec = CRITICAL_DISCONNECT ∧
         proximity_opportunity rec = UNKNOWN ∧
         scout_hint rec = "Critical Disconnect detected."%string) ∧
      (rel_status r = Some "GOOD"%string →
       ∀ rec, rec ∈ res → ¬ names_pair rec src tgt).
Proof.
  intros H. apply analyze_relationships_Ok in H.
  destruct H as (user_locs & news & Hlocs & HF & ->).
  exists user_locs. split; [exact Hlocs|].
  intros pre u r post src tgt HE Hs Ht Hpre Hmissing.
  assert (Hprox : calculate_proximity_category (user_locs !! src)
                    (user_locs !! tgt) = Ok UNKNOWN).
  { unfold calculate_proximity_category.
    destruct Hmissing as [Hno | [Hsrc | Htgt]].
    - unfold build_user_locs in Hlocs.
      rewrite (build_user_locs_absent _ _ _ _ Hlocs Hno), lookup_empty.
      simpl. rewrite orb_true_r. reflexivity.
    - rewrite Hsrc. reflexivity.
    - rewrite Htgt, orb_true_r. reflexivity. }
  split; [exact Hprox|].
  assert (Hk : edge_key (u, r) = Some (sorted_pair src tgt)).
  { apply edge_key_joins. left. auto. }
  destruct (records_of_first_edge user_locs global_context _ _ _ _ _ news
              HE Hk) as (new & Hnew & Hiff); [|exact HF|].
  { intros e' He' Hj. apply edge_key_joins in Hj. exact (Hpre e' He' Hj). }
  destruct (emitted_Ok _ _ _ _ _ _ _ Hs Ht Hnew) as (p & Hp & Hcases).
  rewrite Hprox in Hp. injection Hp as <-.
  split.
  - intros Hc.
    destruct Hcases
      as [(_ & rec & -> & Hsrc & Htgt & Hh & Hp & Hhint & _)
         | [(Hg & _) | (Hnc & _)]]; [|congruence|contradiction].
    exists rec. split; [apply Hiff; left|].
    repeat split; auto; try (apply Hhint; discriminate).
  - intros Hg rec Hin Hn. apply Friction_pair_names in Hn.
    assert (Hin' : rec ∈ new) by (apply Hiff; auto).
    destruct Hcases as [(Hc & _) | [(_ & Hw & _) | (_ & _ & ->)]].
    + congruence.
    + discriminate.
    + apply elem_of_nil in Hin'. contradiction.
Qed.

(** ** The examples of the specification *)

(** Between two location objects that are not empty, the proximity is the
    bucket of the distance computed. *)
Lemma calculate_proximity_category_Some {libm : Libm}
    (loc_a loc_b : Location) :
  Location_truthy loc_a = true → Location_truthy loc_b = true →
  calculate_proximity_category (Some loc_a) (Some loc_b)
  = dist ← distance_km loc_a loc_b; Ok (distance_bucket dist).
Proof.
  intros Ha Hb. unfold calculate_proximity_category, distance_km, not_loc.
  rewrite Ha, Hb. cbn [negb orb default from_option id].
  destruct (float_pow (_ (loc_lat loc_b) - _)) as [lat_sq|e];
    [|reflexivity].
  cbn [mbind result_bind].
  destruct (float_pow (_ (loc_lon loc_b) - _)) as [lon_sq|e];
    [|reflexivity].
  cbn [mbind result_bind].
  destruct (math_sqrt _) as [root|e]; [|reflexivity].
  cbn [mbind result_bind]. unfold distance_bucket.
  repeat match goal with
    | |- context [if ?b then _ else _] => destruct b
    end; reflexivity.
Qed.

(** What the loop body appends for an edge whose pair is new, given the
    proximity of its two end points. *)
Lemma emitted_eval {libm : Libm} user_locs global_context u r src tgt prox :
  user_id u = Some src → rel_target_id r = Some tgt →
  calculate_proximity_category (user_locs !! src) (user_locs !! tgt)
  = Ok prox →
  emitted user_locs global_context (u, r) =
    if opt_eqb (rel_status r) "CRITICAL_DISCONNECT" then
      Ok [ {| source_user := src;
              target_user := tgt;
              relationship_type :=
                (let rel_type :=
                   upper (default EmptyString (rel_relation r)) in
                 if in_list rel_type ["SON"; "DAUGHTER"; "FATHER"; "MOTHER"]
                 then "PARENT_CHILD" else rel_type)%string;
              connection_health := CRITICAL_DISCONNECT;
              proximity_opportunity := prox;
              scout_hint :=
                (if bool_decide
                      (transit_friction global_context = HIGH_FRICTION)
                    && bool_decide (prox = DISTANT) then
                   "High Friction Travel + Critical Disconnect = Suggest Phone/Video Call."
                 else if bool_decide (prox = WALKING_DISTANCE) then
                   "Nearby + Disconnected = Suggest immediate meetup."
                 else "Critical Disconnect detected.")%string |} ]
    else if opt_eqb (rel_status r) "GOOD" then
      if bool_decide (prox = WALKING_DISTANCE) then
        rel_type ← upper_of (rel_relation r);
        Ok [ {| source_user := src;
                target_user := tgt;
                relationship_type := rel_type;
                connection_health := HEALTHY;
                proximity_opportunity := WALKING_DISTANCE;
                scout_hint :=
                  ("Healthy connection + nearby + '"
                   +:+ OutdoorViability_str (outdoor_viability global_context)
                   +:+ "' weather = Suggest local indoor hangout.")%string |} ]
      else Ok []
    else Ok [].
Proof.
  intros Hs Ht Hp. unfold emitted, relation_body.
  cbn [fst snd]. rewrite Hs, Ht.
  cbn [subscript sortable_with_str mbind result_bind].
  rewrite (bool_decide_eq_false_2 (sorted_pair src tgt ∈ (∅ : gset _)))
    by apply not_elem_of_empty.
  rewrite Hp. cbn [mbind result_bind].
  destruct (opt_eqb (rel_status r) "CRITICAL_DISCONNECT"); [reflexivity|].
  destruct (opt_eqb (rel_status r) "GOOD"); [|reflexivity].
  destruct (bool_decide _); [|reflexivity].
  destruct (upper_of _); reflexivity.
Qed.

(** The run on two users of whom the first has one relation to the second
    is the loop body on that relation. *)
Lemma two_users_run {libm : Libm} loc_a loc_b kind status global_context :
  analyze_relationships (Sample.two_users loc_a loc_b kind status)
    global_context
  = emitted
      (<["user_01_student"%string := loc_b]>
         (<["user_02_retired"%string := loc_a]> ∅))
      global_context
      (Sample.user "user_02_retired" loc_a
         [Sample.edge "user_01_student" kind status],
       Sample.edge "user_01_student" kind status).
Proof.
  unfold analyze_relationships, emitted, Sample.two_users.
  cbn [fst snd]. unfold build_user_locs.
  cbn [for_each Sample.user user_id current_location subscript mbind
       result_bind].
  unfold user_body.
  cbn [for_each Sample.user social_graph_snapshot default mbind result_bind
       from_option id].
  destruct (relation_body _ _ _ _ _); reflexivity.
Qed.

(** What that run returns, given the proximity of the two locations. *)
Lemma two_users_emitted {libm : Libm} loc_a loc_b kind status global_context
    prox :
  calculate_proximity_category (Some loc_a) (Some loc_b) = Ok prox →
  analyze_relationships (Sample.two_users loc_a loc_b kind status)
    global_context
  = if String.eqb status "CRITICAL_DISCONNECT" then
      Ok [ {| source_user := "user_02_retired";
              target_user := "user_01_student";
              relationship_type :=
                (if in_list (upper kind) ["SON"; "DAUGHTER"; "FATHER"; "MOTHER"]
                 then "PARENT_CHILD" else upper kind)%string;
              connection_health := CRITICAL_DISCONNECT;
              proximity_opportunity := prox;
              scout_hint :=
                (if bool_decide
                      (transit_friction global_context = HIGH_FRICTION)
                    && bool_decide (prox = DISTANT) then
                   "High Friction Travel + Critical Disconnect = Suggest Phone/Video Call."
                 else if bool_decide (prox = WALKING_DISTANCE) then
                   "Nearby + Disconnected = Suggest immediate meetup."
                 else "Critical Disconnect detected.")%string |} ]
    else if String.eqb status "GOOD" then
      if bool_decide (prox = WALKING_DISTANCE) then
        Ok [ {| source_user := "user_02_retired";
                target_user := "user_01_student";
                relationship_type := upper kind;
                connection_health := HEALTHY;
                proximity_opportunity := WALKING_DISTANCE;
                scout_hint :=
                  ("Healthy connection + nearby + '"
                   +:+ OutdoorViability_str (outdoor_viability global_context)
                   +:+ "' weather = Suggest local indoor hangout.")%string |} ]
      else Ok []
    else Ok [].
Proof.
  intros Hp. rewrite two_users_run.
  rewrite (emitted_eval _ _ _ _ "user_02_retired" "user_01_student" prox);
    [reflexivity | reflexivity | reflexivity |].
  rewrite lookup_insert_ne by discriminate.
  rewrite !lookup_insert_eq. exact Hp.
Qed.

(** The correctly rounded square is an accurate [pow]. *)
Lemma correctly_rounded_accurate : pow_2_accurate Sample.libm.
Proof. intros x _ _. left. reflexivity. Qed.

(** The three values that an accurate [pow] can return, for each square in
    the goal. *)
Ltac pow_2_cases pw Hacc :=
  repeat match goal with
    | |- context [pw ?c] =>
        let E := fresh "E" in
        destruct (Hacc c eq_refl eq_refl) as [E|[E|E]]; rewrite E; clear E
    end.

(** The distance of the example's users, 0.0005 degrees apart in both
    coordinates, is about 0.078 km, and the distance of users 0.005 degrees
    apart in both is about 0.785 km, whichever of its three possible values
    the C library returns for each square. *)
Lemma distance_here_near {libm : Libm} :
  pow_2_accurate libm →
  ∃ dist, distance_km Sample.here Sample.near = Ok dist ∧
    (0.078 <? dist)%float = true ∧ (dist <? 0.079)%float = true.
Proof.
  intros Hacc. destruct libm as [pw]. cbv [pow_2_accurate pow_2] in Hacc.
  vm_compute.
  pow_2_cases pw Hacc; vm_compute; (eexists; split; [reflexivity|]);
    vm_compute; auto.
Qed.

Lemma distance_here_walk {libm : Libm} :
  pow_2_accurate libm →
  ∃ dist, distance_km Sample.here Sample.walk = Ok dist ∧
    (0.78 <? dist)%float = true ∧ (dist <? 0.79)%float = true.
Proof.
  intros Hacc. destruct libm as [pw]. cbv [pow_2_accurate pow_2] in Hacc.
  vm_compute.
  pow_2_cases pw Hacc; vm_compute; (eexists; split; [reflexivity|]);
    vm_compute; auto.
Qed.

Lemma distance_bucket_CO_LOCATED (dist : float) :
  (dist <? 0.2)%float = true → distance_bucket dist = CO_LOCATED.
Proof. intros H. unfold distance_bucket. rewrite H. reflexivity. Qed.

Lemma distance_bucket_WALKING_DISTANCE (dist : float) :
  (dist <? 0.2)%float = false → (dist <? 1.0)%float = true →
  distance_bucket dist = WALKING_DISTANCE.
Proof. intros H1 H2. unfold distance_bucket. rewrite H1, H2. reflexivity. Qed.

Lemma proximity_here_near {libm : Libm} :
  pow_2_accurate libm →
  calculate_proximity_category (Some Sample.here) (Some Sample.near)
  = Ok CO_LOCATED.
Proof.
  intros Hacc. destruct (distance_here_near Hacc) as (dist & Hd & _ & Hlt).
  rewrite calculate_proximity_category_Some by reflexivity.
  rewrite Hd. cbn [mbind result_bind]. f_equal.
  apply distance_bucket_CO_LOCATED.
  apply (float_ltb_leb_trans _ _ _ Hlt). reflexivity.
Qed.

Lemma proximity_here_walk {libm : Libm} :
  pow_2_accurate libm →
  calculate_proximity_category (Some Sample.here) (Some Sample.walk)
  = Ok WALKING_DISTANCE.
Proof.
  intros Hacc. destruct (distance_here_walk Hacc) as (dist & Hd & Hgt & Hlt).
  rewrite calculate_proximity_category_Some by reflexivity.
  rewrite Hd. cbn [mbind result_bind]. f_equal.
  apply distance_bucket_WALKING_DISTANCE.
  - destruct (dist <? 0.2)%float eqn:E; [|reflexivity].
    assert (Hc : (0.78 <? 0.2)%float = true).
    { apply (float_ltb_leb_trans _ dist); [exact Hgt|].
      rewrite leb_spec. rewrite ltb_spec in E. unfold SFleb, SFltb in *.
      destruct (SFcompare _ _) as [[]|]; congruence. }
    vm_compute in Hc. discriminate Hc.
  - apply (float_ltb_leb_trans _ _ _ Hlt). reflexivity.
Qed.

Section CorrectlyRounded.

#[local] Existing Instance Sample.libm.

(** Counterexample to C2 as stated, on a platform whose [pow] is correctly
    rounded: two users 0.0005 degrees apart in both coordinates are not at
    WALKING_DISTANCE: a GOOD relation between them gives no record, and the
    hint of a CRITICAL_DISCONNECT relation is not the one for nearby users. *)
Lemma C2_fifty_metres_is_not_walking_distance :
  calculate_proximity_category (Some Sample.here) (Some Sample.near)
  ≠ Ok WALKING_DISTANCE ∧
  analyze_relationships
    (Sample.two_users Sample.here Sample.near "Friend" "GOOD") Sample.context
  = Ok [] ∧
  ∃ rec,
    analyze_relationships
      (Sample.two_users Sample.here Sample.near "Friend"
         "CRITICAL_DISCONNECT") Sample.context
    = Ok [rec] ∧
    scout_hint rec
    ≠ "Nearby + Disconnected = Suggest immediate meetup."%string.
Proof.
  split; [vm_compute; discriminate|].
  split; [vm_compute; reflexivity|].
  eexists. split; [vm_compute; reflexivity|]. vm_compute. discriminate.
Qed.

End CorrectlyRounded.

(** C2, as the code has it.  The proximity of two located users is the
    bucket of the distance computed from their coordinates: for a relation
    that the run processes, a distance below 0.2 gives CO_LOCATED, no record
    for the status GOOD and a disconnect record with the generic hint for
    CRITICAL_DISCONNECT; a distance of at least 0.2 and below 1.0 gives
    WALKING_DISTANCE, an opportunity record for GOOD and a disconnect record
    with the hint for nearby users for CRITICAL_DISCONNECT.  On every
    platform whose [pow] is accurate to one unit in the last place, the
    distance of the example's users, at (48.1370, 11.5750) and
    (48.1375, 11.5755), is between 0.078 and 0.079, so they are CO_LOCATED
    and not at WALKING_DISTANCE; the distance of users 0.005 degrees apart in
    both coordinates, at (48.1370, 11.5750) and (48.1420, 11.5800), is
    between 0.78 and 0.79, so these are at WALKING_DISTANCE; the runs on the
    two pairs give the records of their buckets. *)
Theorem C2_proximity_example {libm : Libm} :
  (∀ users global_context res,
     analyze_relationships users global_context = Ok res →
     ∃ user_locs,
       build_user_locs users = Ok user_locs ∧
       ∀ pre u r post src tgt loc_a loc_b dist,
         edges users = pre ++ (u, r) :: post →
         user_id u = Some src → rel_target_id r = Some tgt →
         (∀ e', e' ∈ pre → ¬ joins e' src tgt) →
         user_locs !! src = Some loc_a → user_locs !! tgt = Some loc_b →
         Location_truthy loc_a = true → Location_truthy loc_b = true →
         distance_km loc_a loc_b = Ok dist →
         ((dist <? 0.2)%float = true →
          calculate_proximity_category (Some loc_a) (Some loc_b)
          = Ok CO_LOCATED ∧
          (rel_status r = Some "GOOD"%string →
           ∀ rec, rec ∈ res → ¬ names_pair rec src tgt) ∧
          (rel_status r = Some "CRITICAL_DISCONNECT"%string →
           ∃ rec, rec ∈ res ∧
             source_user rec = src ∧ target_user rec = tgt ∧
             connection_health rec = CRITICAL_DISCONNECT ∧
             proximity_opportunity rec = CO_LOCATED ∧
             scout_hint rec = "Critical Disconnect detected."%string)) ∧
         ((dist <? 0.2)%float = false → (dist <? 1.0)%float = true →
          calculate_proximity_category (Some loc_a) (Some loc_b)
          = Ok WALKING_DISTANCE ∧
          (rel_status r = Some "GOOD"%string →
           ∃ rec, rec ∈ res ∧
             source_user rec = src ∧ target_user rec = tgt ∧
             connection_health rec = HEALTHY ∧
             proximity_opportunity rec = WALKING_DISTANCE) ∧
          (rel_status r = Some "CRITICAL_DISCONNECT"%string →
           ∃ rec, rec ∈ res ∧
             source_user rec = src ∧ target_user rec = tgt ∧
             connection_health rec = CRITICAL_DISCONNECT ∧
             proximity_opportunity rec = WALKING_DISTANCE ∧
             scout_hint rec
             = "Nearby + Disconnected = Suggest immediate meetup."%string))) ∧
  (pow_2_accurate libm →
   (∃ dist, distance_km Sample.here Sample.near = Ok dist ∧
      (0.078 <? dist)%float = true ∧ (dist <? 0.079)%float = true) ∧
   (∃ dist, distance_km Sample.here Sample.walk = Ok dist ∧
      (0.78 <? dist)%float = true ∧ (dist <? 0.79)%float = true) ∧
   ∀ global_context,
     calculate_proximity_category (Some Sample.here) (Some Sample.near)
     = Ok CO_LOCATED ∧
     analyze_relationships
       (Sample.two_users Sample.here Sample.near "Friend" "GOOD")
       global_context
     = Ok [] ∧
     (∃ rec,
        analyze_relationships
          (Sample.two_users Sample.here Sample.near "Friend"
             "CRITICAL_DISCONNECT") global_context
        = Ok [rec] ∧
        connection_health rec = CRITICAL_DISCONNECT ∧
        proximity_opportunity rec = CO_LOCATED ∧
        scout_hint rec = "Critical Disconnect detected."%string) ∧
     calculate_proximity_category (Some Sample.here) (Some Sample.walk)
     = Ok WALKING_DISTANCE ∧
     (∃ rec,
        analyze_relationships
          (Sample.two_users Sample.here Sample.walk "Friend" "GOOD")
          global_context
        = Ok [rec] ∧
        connection_health rec = HEALTHY ∧
        proximity_opportunity rec = WALKING_DISTANCE) ∧
     (∃ rec,
        analyze_relationships
          (Sample.two_users Sample.here Sample.walk "Friend"
             "CRITICAL_DISCONNECT") global_context
        = Ok [rec] ∧
        connection_health rec = CRITICAL_DISCONNECT ∧
        proximity_opportunity rec = WALKING_DISTANCE ∧
        scout_hint rec
        = "Nearby + Disconnected = Suggest immediate meetup."%string)).
Proof.
  split.
  - intros users global_context res H. apply analyze_relationships_Ok in H.
    destruct H as (user_locs & news & Hlocs & HF & ->).
    exists user_locs. split; [exact Hlocs|].
    intros pre u r post src tgt loc_a loc_b dist HE Hs Ht Hpre Ha Hb Hta Htb
      Hdist.
    assert (Hk : edge_key (u, r) = Some (sorted_pair src tgt)).
    { apply edge_key_joins. left. auto. }
    destruct (records_of_first_edge user_locs global_context _ _ _ _ _ news
                HE Hk) as (new & Hnew & Hiff); [|exact HF|].
    { intros e' He' Hj. apply edge_key_joins in Hj. exact (Hpre e' He' Hj). }
    assert (Hprox : calculate_proximity_category (Some loc_a) (Some loc_b)
                    = Ok (distance_bucket dist)).
    { rewrite calculate_proximity_category_Some by assumption.
      rewrite Hdist. reflexivity. }
    destruct (emitted_Ok _ _ _ _ _ _ _ Hs Ht Hnew) as (p & Hp & Hcases).
    rewrite Ha, Hb, Hprox in Hp. injection Hp as <-.
    split.
    + intros Hlt. rewrite (distance_bucket_CO_LOCATED _ Hlt) in *.
      split; [exact Hprox|]. split.
      * intros Hg rec Hin Hn. apply Friction_pair_names in Hn.
        assert (Hin' : rec ∈ new) by (apply Hiff; auto).
        destruct Hcases as [(Hc & _) | [(_ & Hw & _) | (_ & _ & ->)]].
        -- congruence.
        -- discriminate.
        -- apply elem_of_nil in Hin'. contradiction.
      * intros Hc.
        destruct Hcases
          as [(_ & rec & -> & Hsrc & Htgt & Hh & Hpr & Hhint & _)
             | [(Hg & _) | (Hnc & _)]]; [|congruence|contradiction].
        exists rec. split; [apply Hiff; left|].
        repeat split; auto; apply Hhint; discriminate.
    + intros Hge Hlt.
      rewrite (distance_bucket_WALKING_DISTANCE _ Hge Hlt) in *.
      split; [exact Hprox|]. split.
      * intros Hg.
        destruct Hcases
          as [(Hc & _)
             | [(_ & _ & rec & l & -> & Hsrc & Htgt & Hh & Hpr & _)
               | (_ & Hng & _)]]; [congruence| |].
        -- exists rec. split; [apply Hiff; left|]. auto.
        -- exfalso. exact (Hng Hg eq_refl).
      * intros Hc.
        destruct Hcases
          as [(_ & rec & -> & Hsrc & Htgt & Hh & Hpr & _ & Hhint)
             | [(Hg & _) | (Hnc & _)]]; [|congruence|contradiction].
        exists rec. split; [apply Hiff; left|].
        repeat split; auto.
  - intros Hacc.
    split; [exact (distance_here_near Hacc)|].
    split; [exact (distance_here_walk Hacc)|].
    intros global_context.
    pose proof (proximity_here_near Hacc) as Hnear.
    pose proof (proximity_here_walk Hacc) as Hwalk.
    destruct global_context as [outdoor friction phase text].
    split; [exact Hnear|].
    split; [rewrite (two_users_emitted _ _ _ _ _ _ Hnear); reflexivity|].
    split.
    { eexists. split;
        [rewrite (two_users_emitted _ _ _ _ _ _ Hnear); reflexivity|].
      destruct friction; vm_compute; auto. }
    split; [exact Hwalk|].
    split.
    { eexists. split;
        [rewrite (two_users_emitted _ _ _ _ _ _ Hwalk); reflexivity|].
      vm_compute; auto. }
    eexists. split;
      [rewrite (two_users_emitted _ _ _ _ _ _ Hwalk); reflexivity|].
    destruct friction; vm_compute; auto.
Qed.

(** C8, evaluated on a GOOD relation of kind "Son" between two users at
    walking distance, on every platform whose [pow] is accurate to one unit
    in the last place: the opportunity record carries the relationship type
    "SON", where the disconnect record of the same relation carries
    "PARENT_CHILD". *)
Theorem C8_opportunity_record_keeps_kinship_label {libm : Libm}
    (global_context : GlobalContext) :
  pow_2_accurate libm →
  (∃ rec,
     analyze_relationships
       (Sample.two_users Sample.here Sample.walk "Son" "GOOD") global_context
     = Ok [rec] ∧
     connection_health rec = HEALTHY ∧
     relationship_type rec = "SON"%string) ∧
  (∃ rec,
     analyze_relationships
       (Sample.two_users Sample.here Sample.walk "Son" "CRITICAL_DISCONNECT")
       global_context
     = Ok [rec] ∧
     connection_health rec = CRITICAL_DISCONNECT ∧
     relationship_type rec = "PARENT_CHILD"%string).
Proof.
  intros Hacc. pose proof (proximity_here_walk Hacc) as Hwalk.
  split; eexists;
    (split; [rewrite (two_users_emitted _ _ _ _ _ _ Hwalk); reflexivity|]);
    vm_compute; auto.
Qed.


(** ** The theorems at the sample inputs *)

Section ClaimsAtSamples.

(** The samples are read on a platform whose [pow] is correctly rounded. *)
#[local] Existing Instance Sample.libm.

(** C1 on two users with an edge in each direction and different statuses:
    one record for the pair, from the first edge. *)
Lemma C1_witness :
  analyze_relationships Sample.both_directions Sample.context
  = Ok Sample.both_directions_result ∧
  ∀ i j rec1 rec2,
    Sample.both_directions_result !! i = Some rec1 →
    Sample.both_directions_result !! j = Some rec2 →
    names_pair rec1 (source_user rec2) (target_user rec2) → i = j.
Proof.
  assert (H : analyze_relationships Sample.both_directions Sample.context
              = Ok Sample.both_directions_result)
    by (vm_compute; reflexivity).
  split; [exact H|].
  exact (proj1 (C1_at_most_one_record_per_pair _ _ _ H)).
Defined.

(** C2 on the example's users with a CRITICAL_DISCONNECT relation: the
    distance computed is below 0.2 and the record is CO_LOCATED with the
    generic hint. *)
Lemma C2_witness :
  ∃ res dist,
    analyze_relationships
      (Sample.two_users Sample.here Sample.near "Friend"
         "CRITICAL_DISCONNECT") Sample.context
    = Ok res ∧
    distance_km Sample.here Sample.near = Ok dist ∧
    (dist <? 0.2)%float = true ∧
    ∃ rec, rec ∈ res ∧
      source_user rec = "user_02_retired"%string ∧
      target_user rec = "user_01_student"%string ∧
      connection_health rec = CRITICAL_DISCONNECT ∧
      proximity_opportunity rec = CO_LOCATED ∧
      scout_hint rec = "Critical Disconnect detected."%string.
Proof.
  eexists. eexists. split; [vm_compute; reflexivity|].
  split; [vm_compute; reflexivity|]. split; [vm_compute; reflexivity|].
  match goal with
  | |- ∃ rec, rec ∈ ?res ∧ _ =>
      assert (H : analyze_relationships
                    (Sample.two_users Sample.here Sample.near "Friend"
                       "CRITICAL_DISCONNECT") Sample.context = Ok res)
        by (vm_compute; reflexivity)
  end.
  destruct (proj1 C2_proximity_example _ _ _ H) as (user_locs & Hlocs & Hall).
  unfold build_user_locs, Sample.two_users in Hlocs.
  cbn [for_each Sample.user user_id current_location subscript mbind
       result_bind] in Hlocs.
  injection Hlocs as <-.
  refine (proj2 (proj2 (proj1
    (Hall [] _ (Sample.edge "user_01_student" "Friend" "CRITICAL_DISCONNECT")
       [] "user_02_retired"%string "user_01_student"%string
       Sample.here Sample.near _ _ _ _ _ _ _ _ _ _) _)) _).
  - reflexivity.
  - reflexivity.
  - reflexivity.
  - intros e' He'. apply elem_of_nil in He'. destruct He'.
  - rewrite lookup_insert_ne by discriminate. apply lookup_insert_eq.
  - apply lookup_insert_eq.
  - reflexivity.
  - reflexivity.
  - vm_compute. reflexivity.
  - vm_compute. reflexivity.
  - reflexivity.
Defined.

(** C3 on the first edge of the same run: GOOD at walking distance. *)
Lemma C3_witness :
  analyze_relationships Sample.both_directions Sample.context
  = Ok Sample.both_directions_result ∧
  ∃ user_locs,
    build_user_locs Sample.both_directions = Ok user_locs ∧
    ((∃ rec, rec ∈ Sample.both_directions_result ∧
             names_pair rec "user_02_retired" "user_01_student") ↔
     Some "GOOD"%string = Some "CRITICAL_DISCONNECT"%string ∨
     (Some "GOOD"%string = Some "GOOD"%string ∧
      calculate_proximity_category (user_locs !! "user_02_retired"%string)
        (user_locs !! "user_01_student"%string) = Ok WALKING_DISTANCE)).
Proof.
  assert (H : analyze_relationships Sample.both_directions Sample.context
              = Ok Sample.both_directions_result)
    by (vm_compute; reflexivity).
  split; [exact H|].
  destruct (C3_record_emitted_iff _ _ _ H) as (user_locs & Hlocs & Hall).
  exists user_locs. split; [exact Hlocs|].
  refine (proj1 (Hall [] _ (Sample.edge "user_01_student" "Son" "GOOD") _
                   "user_02_retired"%string "user_01_student"%string
                   eq_refl eq_refl eq_refl _)).
  intros e' He'. apply elem_of_nil in He'. destruct He'.
Defined.

(** C4 on a feed whose travel-time index is the boundary value 1.4. *)
Lemma C4_witness :
  process_global_context Sample.utc_hour Sample.rainy_feed
  = Ok Sample.context ∧
  (transit_friction Sample.context = MODERATE_DELAY ↔
   (1.4 <=? traffic_idx_of Sample.rainy_feed)%float = true ∧
   (traffic_idx_of Sample.rainy_feed <? 2.0)%float = true).
Proof.
  assert (H : process_global_context Sample.utc_hour Sample.rainy_feed
              = Ok Sample.context)
    by (vm_compute; reflexivity).
  split; [exact H|].
  exact (proj1 (proj2 (C4_transit_friction_thresholds _ _ _ H))).
Defined.

(** C5 on a feed with rain at 10 degrees. *)
Lemma C5_witness :
  process_global_context Sample.utc_hour Sample.rainy_feed
  = Ok Sample.context ∧
  weather_main_of Sample.rainy_feed = Ok "Rain"%string ∧
  "Rain"%string ∈ THRESHOLDS.weather_bad_conditions ∧
  outdoor_viability Sample.context = INDOOR_ONLY.
Proof.
  assert (H : process_global_context Sample.utc_hour Sample.rainy_feed
              = Ok Sample.context)
    by (vm_compute; reflexivity).
  assert (Hmain : weather_main_of Sample.rainy_feed = Ok "Rain"%string)
    by (vm_compute; reflexivity).
  assert (Hbad : "Rain"%string ∈ THRESHOLDS.weather_bad_conditions)
    by (apply list_elem_of_In; simpl; auto).
  split; [exact H|]. split; [exact Hmain|]. split; [exact Hbad|].
  exact (C5_adverse_weather_indoor_only _ _ _ _ H Hmain Hbad).
Defined.

(** C6 on two events, the first of which nobody scores above LOW. *)
Lemma C6_witness :
  ∃ out,
    curate_opportunities
      [Sample.event "e1" "TheaterEvent" "Hamlet" "A play";
       Sample.event "e2" "SportsEvent" "Park run" "Outdoor run"]
      Sample.context
      [Sample.classified "user_01_student" STRESS_RELIEF;
       Sample.classified "user_02_retired" MAINTENANCE]
    = Ok out ∧
    length out = 2 ∧
    ∀ item uid, item ∈ out → suitability item !! uid ≠ Some LOW.
Proof.
  eexists. split; [vm_compute; reflexivity|].
  match goal with
  | |- length ?out = _ ∧ _ =>
      assert (H : curate_opportunities
        [Sample.event "e1" "TheaterEvent" "Hamlet" "A play";
         Sample.event "e2" "SportsEvent" "Park run" "Outdoor run"]
        Sample.context
        [Sample.classified "user_01_student" STRESS_RELIEF;
         Sample.classified "user_02_retired" MAINTENANCE] = Ok out)
        by (vm_compute; reflexivity)
  end.
  pose proof (C6_suitability_has_no_LOW _ _ _ _ H) as (Hlen & Hlow & _).
  split; [exact Hlen | exact Hlow].
Defined.

(** C8 on a platform whose [pow] is correctly rounded. *)
Lemma C8_witness :
  pow_2_accurate Sample.libm ∧
  ∃ rec,
    analyze_relationships
      (Sample.two_users Sample.here Sample.walk "Son" "GOOD") Sample.context
    = Ok [rec] ∧
    connection_health rec = HEALTHY ∧
    relationship_type rec = "SON"%string.
Proof.
  assert (Hacc : pow_2_accurate Sample.libm)
    by (intros x _ _; left; reflexivity).
  split; [exact Hacc|].
  exact (proj1 (C8_opportunity_record_keeps_kinship_label Sample.context Hacc)).
Defined.

(** C9 on the CRITICAL_DISCONNECT edge to a user who is not in the list. *)
Lemma C9_witness :
  analyze_relationships Sample.both_directions Sample.context
  = Ok Sample.both_directions_result ∧
  ∃ rec, rec ∈ Sample.both_directions_result ∧
    source_user rec = "user_02_retired"%string ∧
    target_user rec = "user_04_absent"%string ∧
    connection_health rec = CRITICAL_DISCONNECT ∧
    proximity_opportunity rec = UNKNOWN ∧
    scout_hint rec = "Critical Disconnect detected."%string.
Proof.
  assert (H : analyze_relationships Sample.both_directions Sample.context
              = Ok Sample.both_directions_result)
    by (vm_compute; reflexivity).
  split; [exact H|].
  destruct (C9_unknown_proximity _ _ _ H) as (user_locs & Hlocs & Hall).
  refine (proj1 (proj2
    (Hall [(_, Sample.edge "user_01_student" "Son" "GOOD")] _
       (Sample.edge "user_04_absent" "Friend" "CRITICAL_DISCONNECT") _
       "user_02_retired"%string "user_04_absent"%string
       eq_refl eq_refl eq_refl _ (or_introl _))) eq_refl).
  - intros e' He' [[_ Ht] | [Hs _]];
      apply list_elem_of_singleton in He'; subst e'; discriminate.
  - intros v Hv Hid. apply list_elem_of_In in Hv. simpl in Hv.
    destruct Hv as [<- | [<- | []]]; discriminate.
Defined.

(** C10 on a user located at a place whose name has no keyword. *)
Lemma C10_witness :
  (∀ keyword, keyword ∈ location_keywords →
     str_in keyword (lower (loc_name_full_of Sample.stranger)) = false) ∧
  ∃ c, transform_user_state Sample.stranger = Ok c ∧
       location_context c = HOME_BASE.
Proof.
  assert (H : ∀ keyword, keyword ∈ location_keywords →
     str_in keyword (lower (loc_name_full_of Sample.stranger)) = false).
  { intros keyword Hk. apply list_elem_of_In in Hk.
    unfold location_keywords in Hk. simpl in Hk.
    repeat (destruct Hk as [<- | Hk]; [vm_compute; reflexivity|]).
    destruct Hk. }
  split; [exact H|].
  destruct (C10_unrecognized_location_is_HOME_BASE _ H) as (c & Hc & Hloc & _).
  exists c. split; [exact Hc | exact Hloc].
Defined.

End ClaimsAtSamples.

(** * Further properties *)

(** ** Environmental context: errors, time of day, weather, implication *)

(** [process_global_context] raises in two cases only: IndexError when the
    feed holds an empty [weather] list, and otherwise what the conversion of
    a time stamp other than 0 raises. *)
Theorem process_global_context_raises
    (hour : Z → result Z) (env_feed : EnvFeed) (e : exn) :
  process_global_context hour env_feed = Raise e ↔
  (weather (weather_curr_of env_feed) = Some [] ∧ e = IndexError) ∨
  (weather (weather_curr_of env_feed) ≠ Some [] ∧
   ∃ t, dt (weather_curr_of env_feed) = Some t ∧ t ≠ 0%Z ∧ hour t = Raise e).
Proof.
  unfold process_global_context, weather_curr_of.
  destruct (weather _) as [[|entry entries]|]; simpl.
  - split.
    + intros [= <-]. left. auto.
    + intros [[_ ->] | [Hne _]]; [reflexivity | congruence].
  - destruct (dt _) as [t|]; simpl.
    + destruct (bool_decide (t ≠ 0%Z)) eqn:Et.
      * apply bool_decide_eq_true in Et.
        destruct (hour t) as [h|e'] eqn:Eh; simpl.
        -- split; [discriminate|].
           intros [[[=] _] | (_ & t' & [= <-] & _ & He)]. congruence.
        -- split.
           ++ intros [= <-]. right. split; [discriminate|]. eauto.
           ++ intros [[[=] _] | (_ & t' & [= <-] & _ & He)]. congruence.
      * apply bool_decide_eq_false in Et. split; [discriminate|].
        intros [[[=] _] | (_ & t' & [= <-] & Hne & _)]. contradiction.
    + split; [discriminate|].
      intros [[[=] _] | (_ & t' & [=] & _)].
  - destruct (dt _) as [t|]; simpl.
    + destruct (bool_decide (t ≠ 0%Z)) eqn:Et.
      * apply bool_decide_eq_true in Et.
        destruct (hour t) as [h|e'] eqn:Eh; simpl.
        -- split; [discriminate|].
           intros [[[=] _] | (_ & t' & [= <-] & _ & He)]. congruence.
        -- split.
           ++ intros [= <-]. right. split; [discriminate|]. eauto.
           ++ intros [[[=] _] | (_ & t' & [= <-] & _ & He)]. congruence.
      * apply bool_decide_eq_false in Et. split; [discriminate|].
        intros [[[=] _] | (_ & t' & [= <-] & Hne & _)]. contradiction.
    + split; [discriminate|].
      intros [[[=] _] | (_ & t' & [=] & _)].
Qed.

Lemma process_global_context_fields hour env_feed g :
  process_global_context hour env_feed = Ok g →
  implication g
  = generate_implication (outdoor_viability g) (transit_friction g) ∧
  match dt (weather_curr_of env_feed) with
  | Some t =>
      if bool_decide (t ≠ 0%Z) then
        ∃ h, hour t = Ok h ∧
          temporal_phase g =
            (if (9 <=? h)%Z && (h <? 17)%Z then WORK_HOURS
             else if (17 <=? h)%Z && (h <? 19)%Z then EVENING_TRANSITION
             else if (19 <=? h)%Z && (h <? 22)%Z then PRIME_SOCIAL_TIME
             else LATE_NIGHT)
      else temporal_phase g = UNKNOWN_PHASE
  | None => temporal_phase g = UNKNOWN_PHASE
  end.
Proof.
  unfold process_global_context, weather_curr_of. intros H.
  apply bind_Ok in H. destruct H as (entry & _ & H).
  apply bind_Ok in H. destruct H as (phase & Hphase & H).
  injection H as <-. simpl. split; [reflexivity|].
  destruct (dt _) as [t|]; [|congruence].
  destruct (bool_decide (t ≠ 0%Z)); [|congruence].
  apply bind_Ok in Hphase. destruct Hphase as (h & Hh & [= <-]). eauto.
Qed.

(** The temporal phase of a returned context is UNKNOWN exactly when the feed
    has no time stamp or the time stamp 0; otherwise it is the bucket of the
    local hour: WORK_HOURS for 9..16, EVENING_TRANSITION for 17..18,
    PRIME_SOCIAL_TIME for 19..21 and LATE_NIGHT for every other hour. *)
Theorem temporal_phase_buckets
    (hour : Z → result Z) (env_feed : EnvFeed) (g : GlobalContext) :
  process_global_context hour env_feed = Ok g →
  (temporal_phase g = UNKNOWN_PHASE ↔
   dt (weather_curr_of env_feed) = None ∨
   dt (weather_curr_of env_feed) = Some 0%Z) ∧
  ∀ t h,
    dt (weather_curr_of env_feed) = Some t → t ≠ 0%Z → hour t = Ok h →
    (temporal_phase g = WORK_HOURS ↔ (9 ≤ h < 17)%Z) ∧
    (temporal_phase g = EVENING_TRANSITION ↔ (17 ≤ h < 19)%Z) ∧
    (temporal_phase g = PRIME_SOCIAL_TIME ↔ (19 ≤ h < 22)%Z) ∧
    (temporal_phase g = LATE_NIGHT ↔ (h < 9 ∨ 22 ≤ h)%Z).
Proof.
  intros H. destruct (process_global_context_fields _ _ _ H) as [_ Hphase].
  destruct (dt (weather_curr_of env_feed)) as [t|].
  - destruct (bool_decide (t ≠ 0%Z)) eqn:Et.
    + apply bool_decide_eq_true in Et.
      destruct Hphase as (h & Hh & Hp). split.
      * split.
        -- rewrite Hp. repeat match goal with
             | |- context [if ?b then _ else _] => destruct b
             end; discriminate.
        -- intros [[=] | [= ->]]. contradiction.
      * intros t' h' [= <-] _ Hh'. rewrite Hh in Hh'. injection Hh' as <-.
        rewrite Hp.
        destruct (9 <=? h)%Z eqn:E1, (h <? 17)%Z eqn:E2, (17 <=? h)%Z eqn:E3,
          (h <? 19)%Z eqn:E4, (19 <=? h)%Z eqn:E5, (h <? 22)%Z eqn:E6;
          simpl; repeat split; try discriminate; try reflexivity; intros; lia.
    + apply bool_decide_eq_false in Et.
      assert (t = 0%Z) as -> by lia.
      split; [split; auto|]. intros t' h' [= <-] Hne. contradiction.
  - split; [split; auto|]. intros t' h' [=].
Qed.

(** The outdoor viability of a returned context is INDOOR_ONLY only for an
    adverse weather condition, VIABLE_WITH_GEAR exactly for another condition
    with a temperature below 15, and OPTIMAL otherwise; a feed without a
    weather entry counts as "Clear" and a feed without a temperature as
    20 degrees. *)
Theorem outdoor_viability_cases
    (hour : Z → result Z) (env_feed : EnvFeed) (g : GlobalContext) :
  process_global_context hour env_feed = Ok g →
  ∃ condition,
    weather_main_of env_feed = Ok condition ∧
    let t := default 20%float (temp (weather_curr_of env_feed)) in
    (outdoor_viability g = INDOOR_ONLY ↔
     condition ∈ THRESHOLDS.weather_bad_conditions) ∧
    (outdoor_viability g = VIABLE_WITH_GEAR ↔
     (condition ∉ THRESHOLDS.weather_bad_conditions) ∧
     (t <? 15)%float = true) ∧
    (outdoor_viability g = OPTIMAL ↔
     (condition ∉ THRESHOLDS.weather_bad_conditions) ∧
     (t <? 15)%float = false) ∧
    (weather (weather_curr_of env_feed) = None → condition = "Clear"%string).
Proof.
  intros H.
  destruct (process_global_context_Ok _ _ _ H) as (wm & Hwm & Hout & _).
  exists wm. split; [exact Hwm|]. cbv zeta. rewrite Hout.
  unfold THRESHOLDS.weather_min_temp_outdoor.
  destruct (in_list wm THRESHOLDS.weather_bad_conditions) eqn:Ebad.
  - apply in_list_spec in Ebad.
    split; [split; auto|].
    split; [split; [discriminate | intros [Hn _]; contradiction]|].
    split; [split; [discriminate | intros [Hn _]; contradiction]|].
    intros Hnone. unfold weather_main_of in Hwm. rewrite Hnone in Hwm.
    injection Hwm as <-. reflexivity.
  - assert (Hnin : wm ∉ THRESHOLDS.weather_bad_conditions).
    { intros Hin. apply in_list_spec in Hin. congruence. }
    destruct (_ <? 15)%float.
    + split; [split; [discriminate | contradiction]|].
      split; [split; auto|].
      split; [split; [discriminate | intros [_ [=]]]|].
      intros Hnone. unfold weather_main_of in Hwm. rewrite Hnone in Hwm.
      injection Hwm as <-. reflexivity.
    + split; [split; [discriminate | contradiction]|].
      split; [split; [discriminate | intros [_ [=]]]|].
      split; [split; auto|].
      intros Hnone. unfold weather_main_of in Hwm. rewrite Hnone in Hwm.
      injection Hwm as <-. reflexivity.
Qed.

(** The implication of a returned context is one of three different texts,
    chosen by priority from the context's own fields: the text for high
    friction whenever the transit friction is HIGH_FRICTION, also under
    INDOOR_ONLY; else the indoor text exactly under INDOOR_ONLY; else the text
    for optimal conditions. *)
Theorem implication_priority
    (hour : Z → result Z) (env_feed : EnvFeed) (g : GlobalContext) :
  process_global_context hour env_feed = Ok g →
  (implication g
   = "Prioritize digital connections, home-based activities, or very local (walking distance) indoor events. Discourage cross-town travel."%string
   ↔ transit_friction g = HIGH_FRICTION) ∧
  (implication g
   = "Focus on indoor venues. Filter out parks and walking groups."%string
   ↔ transit_friction g ≠ HIGH_FRICTION ∧ outdoor_viability g = INDOOR_ONLY) ∧
  (implication g
   = "Conditions optimal. Prioritize outdoor social friction reduction."%string
   ↔ transit_friction g ≠ HIGH_FRICTION ∧ outdoor_viability g ≠ INDOOR_ONLY).
Proof.
  intros H. destruct (process_global_context_fields _ _ _ H) as [-> _].
  destruct (outdoor_viability g), (transit_friction g); vm_compute;
    repeat split; try discriminate; try congruence;
    intros; try tauto; intuition congruence.
Qed.

(** ** Personal state: availability, location, neighbourhood *)

Lemma transform_user_state_fields (user : User) (c : UserClassification) :
  transform_user_state user = Ok c →
  availability_status c =
    (let avail_raw :=
       availability (default empty_SentryAnalysis (sentry_analysis user)) in
     if opt_eqb avail_raw "FREE" then AVAILABLE_NOW
     else if opt_in_list avail_raw ["BUSY_BUT_ENDING_SOON"; "TRANSITIONING"]
     then AVAILABLE_SOON
     else BUSY_UNAVAILABLE) ∧
  (let loc_name_full := loc_name_full_of user in
   let loc_name_lower := lower loc_name_full in
   if str_in "(" loc_name_full then
     ∃ area, last_item (split_on "(" loc_name_full) = Ok area ∧
             neighborhood c = strip_char ")" area
   else if str_in "transit" loc_name_lower
           || str_in "commuting" loc_name_lower
   then
     neighborhood c =
       (if str_in "mittlerer" loc_name_lower || str_in "ring" loc_name_lower
        then "Transit_Corridor_East"%string else "In_Transit"%string)
   else if bool_decide (location_context c = THIRD_PLACE) then
     if str_in "lost weekend" loc_name_lower then
       neighborhood c = "Schwabing-West"%string
     else if bool_decide (loc_name_full ≠ EmptyString) then
       first_item (split_whitespace loc_name_full) = Ok (neighborhood c)
     else neighborhood c = "Unknown"%string
   else neighborhood c = loc_name_full).
Proof.
  unfold transform_user_state, loc_name_full_of. intros H.
  apply bind_Ok in H. destruct H as (n & Hn & H). injection H as <-.
  simpl. split; [reflexivity|].
  destruct (str_in "(" _).
  { apply bind_Ok in Hn. destruct Hn as (area & Harea & [= <-]). eauto. }
  destruct (str_in "transit" _ || str_in "commuting" _).
  { destruct (_ || _); injection Hn as <-; reflexivity. }
  destruct (bool_decide _); [|injection Hn as <-; reflexivity].
  destruct (str_in "lost weekend" _); [injection Hn as <-; reflexivity|].
  destruct (bool_decide _); [exact Hn | injection Hn as <-; reflexivity].
Qed.

(** [transform_user_state] never raises, although it indexes the results of
    [split], and the classification carries the user's id, [None] for a user
    without one. *)
Theorem transform_user_state_never_raises (user : User) :
  ∃ c, transform_user_state user = Ok c ∧ uc_user_id c = user_id user.
Proof.
  destruct (transform_user_state_returns user) as [c Hc].
  exists c. split; [exact Hc|].
  apply (transform_user_state_Ok _ _ Hc).
Qed.

(** Availability: FREE gives AVAILABLE_NOW, BUSY_BUT_ENDING_SOON and
    TRANSITIONING both give AVAILABLE_SOON, and every other value, as well as
    a missing one, gives BUSY_UNAVAILABLE. *)
Theorem availability_mapping (user : User) (c : UserClassification) :
  transform_user_state user = Ok c →
  let avail_raw :=
    availability (default empty_SentryAnalysis (sentry_analysis user)) in
  (availability_status c = AVAILABLE_NOW ↔ avail_raw = Some "FREE"%string) ∧
  (availability_status c = AVAILABLE_SOON ↔
   avail_raw = Some "BUSY_BUT_ENDING_SOON"%string ∨
   avail_raw = Some "TRANSITIONING"%string) ∧
  (availability_status c = BUSY_UNAVAILABLE ↔
   avail_raw ≠ Some "FREE"%string ∧
   avail_raw ≠ Some "BUSY_BUT_ENDING_SOON"%string ∧
   avail_raw ≠ Some "TRANSITIONING"%string).
Proof.
  intros H avail_raw.
  destruct (transform_user_state_fields _ _ H) as [Ha _].
  fold avail_raw in Ha. cbv zeta in Ha. rewrite Ha. clear Ha H c.
  destruct (opt_eqb avail_raw "FREE") eqn:E1.
  { apply opt_eqb_spec in E1. rewrite E1.
    repeat split; try discriminate; auto; intros; intuition congruence. }
  assert (H1 : avail_raw ≠ Some "FREE"%string).
  { intros E. apply opt_eqb_spec in E. congruence. }
  destruct (opt_in_list avail_raw _) eqn:E2.
  - apply opt_in_list_spec in E2. destruct E2 as (s & Hs & Hin).
    apply list_elem_of_In in Hin. simpl in Hin.
    assert (H2 : avail_raw = Some "BUSY_BUT_ENDING_SOON"%string ∨
                 avail_raw = Some "TRANSITIONING"%string)
      by (destruct Hin as [<- | [<- | []]]; auto).
    repeat split; try discriminate; auto; try contradiction.
    intros (_ & Hb & Ht). destruct H2; contradiction.
  - assert (H2 : avail_raw ≠ Some "BUSY_BUT_ENDING_SOON"%string ∧
                 avail_raw ≠ Some "TRANSITIONING"%string).
    { split; intros E;
        assert (opt_in_list avail_raw
                  ["BUSY_BUT_ENDING_SOON"; "TRANSITIONING"] = true)
          by (rewrite E; reflexivity); congruence. }
    destruct H2 as [Hb Ht].
    repeat split; try discriminate; auto; try contradiction.
    intros [E | E]; contradiction.
Qed.

Lemma location_context_cases (user : User) (c : UserClassification) :
  transform_user_state user = Ok c →
  let name := lower (loc_name_full_of user) in
  let home := str_in "home" name in
  let office := str_in "office" name || str_in "work" name in
  let transit := str_in "transit" name || str_in "commuting" name in
  let third :=
    existsb (λ place, str_in place name)
      ["cafe"; "coffee"; "park"; "gym"; "restaurant"]%string in
  (location_context c = WORK_OFFICE ↔ home = false ∧ office = true) ∧
  (location_context c = IN_TRANSIT ↔
   home = false ∧ office = false ∧ transit = true) ∧
  (location_context c = THIRD_PLACE ↔
   home = false ∧ office = false ∧ transit = false ∧ third = true) ∧
  (location_context c = HOME_BASE ↔
   home = true ∨ (office = false ∧ transit = false ∧ third = false)).
Proof.
  intros H. destruct (transform_user_state_Ok _ _ H) as (_ & Hloc & _).
  cbv zeta in *. rewrite Hloc.
  destruct (str_in "home" _); [repeat split; try discriminate; auto;
    intros; intuition congruence|].
  destruct (str_in "office" _ || str_in "work" _); [repeat split;
    try discriminate; auto; intros; intuition congruence|].
  destruct (str_in "transit" _ || str_in "commuting" _); [repeat split;
    try discriminate; auto; intros; intuition congruence|].
  destruct (existsb _ _); repeat split; try discriminate; auto;
    intros; intuition congruence.
Qed.

(** The location context follows the fixed priority home, office or work,
    transit or commuting, third place: each category is given exactly when
    its keywords occur in the lowercase name and those of the categories
    before it do not, and HOME_BASE is also the category of a name with no
    keyword. *)
Theorem location_context_priority (user : User) (c : UserClassification) :
  transform_user_state user = Ok c →
  let name := lower (loc_name_full_of user) in
  let home := str_in "home" name in
  let office := str_in "office" name || str_in "work" name in
  let transit := str_in "transit" name || str_in "commuting" name in
  let third :=
    existsb (λ place, str_in place name)
      ["cafe"; "coffee"; "park"; "gym"; "restaurant"]%string in
  (location_context c = WORK_OFFICE ↔ home = false ∧ office = true) ∧
  (location_context c = IN_TRANSIT ↔
   home = false ∧ office = false ∧ transit = true) ∧
  (location_context c = THIRD_PLACE ↔
   home = false ∧ office = false ∧ transit = false ∧ third = true) ∧
  (location_context c = HOME_BASE ↔
   home = true ∨ (office = false ∧ transit = false ∧ third = false)).
Proof. apply location_context_cases. Qed.

Lemma str_in_single (a : ascii) (s : string) :
  str_in (String a EmptyString) s = has_char a s.
Proof.
  induction s as [|c s IH]; simpl; [reflexivity|].
  rewrite IH. destruct (ascii_dec a c) as [->|Hne].
  - rewrite Ascii.eqb_refl. destruct s; reflexivity.
  - assert (Ascii.eqb c a = false) as ->; [|reflexivity].
    apply Ascii.eqb_neq. congruence.
Qed.

Lemma has_char_app (a : ascii) (s t : string) :
  has_char a (s +:+ t) = has_char a s || has_char a t.
Proof.
  induction s as [|c s IH]; simpl; [reflexivity|].
  rewrite IH. apply orb_assoc.
Qed.

Lemma split_on_no_sep (sep : ascii) (s : string) :
  has_char sep s = false → split_on sep s = [s].
Proof.
  induction s as [|c s IH]; simpl; [reflexivity|].
  intros H. apply orb_false_elim in H. destruct H as [Hc Hs].
  rewrite Hc, (IH Hs). reflexivity.
Qed.

Lemma split_on_app_sep (sep : ascii) (pre rest : string) :
  ∃ w l, split_on sep (pre +:+ String sep rest) = w :: l ++ split_on sep rest.
Proof.
  induction pre as [|c pre (w & l & IH)]; simpl.
  - rewrite Ascii.eqb_refl. exists EmptyString, []. reflexivity.
  - destruct (Ascii.eqb c sep).
    + exists EmptyString, (w :: l). rewrite IH. reflexivity.
    + rewrite IH. exists (String c w), l. reflexivity.
Qed.

Lemma last_item_split_on (sep : ascii) (pre rest : string) :
  has_char sep rest = false →
  last_item (split_on sep (pre +:+ String sep rest)) = Ok rest.
Proof.
  intros Hrest. destruct (split_on_app_sep sep pre rest) as (w & l & ->).
  rewrite (split_on_no_sep _ _ Hrest). unfold last_item.
  change (w :: l ++ [rest]) with ((w :: l) ++ [rest]).
  rewrite last_snoc. reflexivity.
Qed.

Lemma rstrip_char_snoc (c : ascii) (s : string) :
  has_char c s = false →
  rstrip_char c (s +:+ String c EmptyString) = s.
Proof.
  induction s as [|x s IH]; simpl.
  - rewrite Ascii.eqb_refl. reflexivity.
  - intros H. apply orb_false_elim in H. destruct H as [Hx Hs].
    rewrite Hx, (IH Hs). reflexivity.
Qed.

Lemma lstrip_char_id (c : ascii) (s t : string) :
  has_char c s = false → s ≠ EmptyString →
  lstrip_char c (s +:+ t) = s +:+ t.
Proof.
  destruct s as [|x s]; [congruence|]. simpl.
  intros H _. apply orb_false_elim in H. destruct H as [-> _]. reflexivity.
Qed.

Lemma strip_char_snoc (c : ascii) (s : string) :
  has_char c s = false →
  strip_char c (s +:+ String c EmptyString) = s.
Proof.
  intros H. unfold strip_char. destruct s as [|x s].
  - simpl. rewrite Ascii.eqb_refl. reflexivity.
  - rewrite lstrip_char_id by (auto; discriminate).
    apply rstrip_char_snoc. exact H.
Qed.

(** A location name that ends with an area in parentheses, as in
    "Cafe (Schwabing)", gives that area as the neighbourhood, whatever the
    location context is. *)
Theorem neighborhood_of_parenthesised_name
    (user : User) (c : UserClassification) (place area : string) :
  transform_user_state user = Ok c →
  loc_name_full_of user = place +:+ "(" +:+ area +:+ ")" →
  has_char "(" area = false → has_char ")" area = false →
  neighborhood c = area.
Proof.
  intros H Hname Hopen Hclose.
  destruct (transform_user_state_fields _ _ H) as [_ Hn].
  cbv zeta in Hn. rewrite Hname in Hn.
  assert (Hin : str_in "(" (place +:+ "(" +:+ area +:+ ")") = true).
  { rewrite str_in_single, has_char_app. simpl. apply orb_true_r. }
  rewrite Hin in Hn. destruct Hn as (a & Ha & ->).
  change (place +:+ "(" +:+ area +:+ ")")
    with (place +:+ String "("%char (area +:+ ")")) in Ha.
  rewrite last_item_split_on in Ha.
  - injection Ha as <-. apply strip_char_snoc. exact Hclose.
  - rewrite has_char_app, Hopen. reflexivity.
Qed.

Lemma split_whitespace_first (s : string) : ∀ w ws,
  split_whitespace s = w :: ws →
  ∃ sp rest,
    s = sp +:+ w +:+ rest ∧ all_space sp = true ∧
    w ≠ EmptyString ∧ none_space w = true ∧
    (rest = EmptyString ∨
     ∃ ch rest', rest = String ch rest' ∧ is_space ch = true).
Proof.
  induction s as [|c s IH]; intros w ws H; simpl in H; [discriminate|].
  destruct (is_space c) eqn:Ec.
  - destruct (IH _ _ H) as (sp & rest & -> & Hsp & Hw & Hns & Hrest).
    exists (String c sp), rest. simpl. rewrite Ec. auto.
  - destruct s as [|c' s'].
    + injection H as <- <-. exists EmptyString, EmptyString. simpl.
      rewrite Ec. repeat split; auto; try discriminate.
    + destruct (is_space c') eqn:Ec'.
      * injection H as <- <-. exists EmptyString, (String c' s'). simpl.
        rewrite Ec. repeat split; auto; try discriminate. right. eauto.
      * destruct (split_whitespace (String c' s')) as [|w' ws'] eqn:Es.
        { apply split_whitespace_nil in Es. simpl in Es.
          rewrite Ec' in Es. discriminate. }
        injection H as <- <-.
        destruct (IH _ _ eq_refl) as (sp & rest & Hs & Hsp & Hw & Hns & Hrest).
        destruct sp as [|x sp].
        -- simpl in Hs. exists EmptyString, rest. simpl. rewrite Hs, Ec.
           repeat split; auto; try discriminate.
        -- simpl in Hs, Hsp. injection Hs as <- _. rewrite Ec' in Hsp.
           discriminate.
Qed.

(** The neighbourhood of a third place whose name is ASCII text without a
    parenthesis (and is not the Lost Weekend) is the first word of the name:
    the name is some whitespace, then the neighbourhood, which is not empty
    and holds no whitespace, then nothing or whitespace and more.  For ASCII
    text the whitespace of [str.split()] is the ASCII whitespace. *)
Theorem neighborhood_of_third_place
    (user : User) (c : UserClassification) :
  transform_user_state user = Ok c →
  is_ascii_text (loc_name_full_of user) = true →
  location_context c = THIRD_PLACE →
  has_char "(" (loc_name_full_of user) = false →
  str_in "lost weekend" (lower (loc_name_full_of user)) = false →
  ∃ sp rest,
    loc_name_full_of user = sp +:+ neighborhood c +:+ rest ∧
    all_space sp = true ∧
    neighborhood c ≠ EmptyString ∧ none_space (neighborhood c) = true ∧
    (rest = EmptyString ∨
     ∃ ch rest', rest = String ch rest' ∧ is_space ch = true).
Proof.
  intros H _ Hthird Hparen Hlost.
  destruct (transform_user_state_fields _ _ H) as [_ Hn].
  destruct (location_context_cases _ _ H) as (_ & _ & Ht & _).
  pose proof Hthird as Hc.
  apply Ht in Hthird. destruct Hthird as (_ & _ & Htransit & Hplace).
  cbv zeta in Hn. rewrite str_in_single, Hparen, Htransit, Hlost in Hn.
  rewrite Hc in Hn. simpl in Hn.
  destruct (loc_name_full_of user) as [|x name] eqn:Ename.
  { simpl in Hplace. discriminate. }
  simpl bool_decide in Hn. cbv iota in Hn.
  destruct (split_whitespace (String x name)) as [|w ws] eqn:Es;
    [discriminate|].
  injection Hn as <-. eapply split_whitespace_first. exact Es.
Qed.

(** For a name without a parenthesis, the neighbourhood is one of the two
    transit labels whenever the lowercase name contains "transit" or
    "commuting", also when the location context is not IN_TRANSIT because the
    name contains "home", "office" or "work" as well; a name without those two
    words that is not a third place is its own neighbourhood. *)
Theorem neighborhood_without_parenthesis
    (user : User) (c : UserClassification) :
  transform_user_state user = Ok c →
  has_char "(" (loc_name_full_of user) = false →
  let name := lower (loc_name_full_of user) in
  (str_in "transit" name || str_in "commuting" name = true →
   neighborhood c =
     if str_in "mittlerer" name || str_in "ring" name
     then "Transit_Corridor_East"%string else "In_Transit"%string) ∧
  (str_in "transit" name || str_in "commuting" name = false →
   location_context c ≠ THIRD_PLACE →
   neighborhood c = loc_name_full_of user).
Proof.
  intros H Hparen name.
  destruct (transform_user_state_fields _ _ H) as [_ Hn].
  cbv zeta in Hn. rewrite str_in_single, Hparen in Hn. fold name in Hn.
  split.
  - intros Ht. rewrite Ht in Hn. exact Hn.
  - intros Ht Hloc. rewrite Ht in Hn.
    rewrite (bool_decide_eq_false_2 _ Hloc) in Hn. exact Hn.
Qed.

(** ** Proximity: the distance of binary64 coordinates *)

Lemma SFabs_binary_round_aux prec emax s1 s2 m e l :
  SFabs (binary_round_aux prec emax s1 m e l)
  = SFabs (binary_round_aux prec emax s2 m e l).
Proof.
  unfold binary_round_aux.
  destruct (shr_fexp prec emax m e l) as [mrs e'].
  destruct (shr_fexp prec emax _ e' loc_Exact) as [mrs' e''].
  destruct (shr_m mrs'); [reflexivity| |reflexivity].
  destruct (e'' <=? emax - prec)%Z; reflexivity.
Qed.

Lemma SFabs_binary_normalize_opp prec emax m e :
  SFabs (binary_normalize prec emax (- m) e false)
  = SFabs (binary_normalize prec emax m e false).
Proof.
  destruct m as [|p|p]; simpl; [reflexivity| |];
    unfold binary_round;
    destruct (shl_align _ _ _) as [mz ez]; apply SFabs_binary_round_aux.
Qed.

Lemma SFabs_SFsub_swap prec emax x y :
  SFabs (SFsub prec emax x y) = SFabs (SFsub prec emax y x).
Proof.
  destruct x as [[]|[]| |sx mx ex], y as [[]|[]| |sy my ey];
    try reflexivity.
  unfold SFsub. rewrite (Z.min_comm ey ex).
  rewrite <- SFabs_binary_normalize_opp. f_equal. f_equal. lia.
Qed.

Lemma Prim2SF_inj (x y : float) : Prim2SF x = Prim2SF y → x = y.
Proof.
  intros H. rewrite <- (SF2Prim_Prim2SF x), <- (SF2Prim_Prim2SF y), H.
  reflexivity.
Qed.

(** The absolute value of a difference does not depend on the order of the
    two operands. *)
Lemma float_abs_sub_swap (x y : float) : abs (x - y) = abs (y - x).
Proof.
  apply Prim2SF_inj. rewrite !abs_spec, !sub_spec. apply SFabs_SFsub_swap.
Qed.

Lemma SFcompare_refl (s : spec_float) :
  s ≠ S754_nan → SFcompare s s = Some Eq.
Proof.
  destruct s as [[]|[]| |[] m e]; intros Hn; try reflexivity;
    try congruence; simpl; rewrite Z.compare_refl;
    rewrite Pos.compare_cont_refl; reflexivity.
Qed.

(** The tests of [float_pow] read on the IEEE value. *)
Lemma is_nan_Prim2SF (x : float) :
  is_nan x = match Prim2SF x with S754_nan => true | _ => false end.
Proof.
  unfold is_nan. rewrite FloatAxioms.eqb_spec. unfold SFeqb.
  destruct (Prim2SF x) as [s|s| |s m e] eqn:E; [| |reflexivity|];
    rewrite SFcompare_refl by discriminate; reflexivity.
Qed.

Lemma is_infinity_Prim2SF (x : float) :
  is_infinity x = match Prim2SF x with S754_infinity _ => true | _ => false end.
Proof.
  unfold is_infinity. rewrite FloatAxioms.eqb_spec, abs_spec.
  change (Prim2SF infinity) with (S754_infinity false).
  destruct (Prim2SF x) as [s|s| |s m e]; reflexivity.
Qed.

Lemma eqb_zero_Prim2SF (x : float) :
  (x =? 0)%float = match Prim2SF x with S754_zero _ => true | _ => false end.
Proof.
  rewrite FloatAxioms.eqb_spec.
  change (Prim2SF 0) with (S754_zero false).
  destruct (Prim2SF x) as [[]|[]| |[] m e]; reflexivity.
Qed.

Lemma abs_of_negative (x : float) s m e :
  Prim2SF x = S754_finite s m e →
  (if (x <? 0)%float then (- x)%float else x) = abs x.
Proof.
  intros E. apply Prim2SF_inj. rewrite abs_spec, E.
  rewrite ltb_spec, E. change (Prim2SF 0) with (S754_zero false).
  destruct s; simpl; [rewrite opp_spec, E | rewrite E]; reflexivity.
Qed.

(** [float_pow] is a function of the absolute value of its argument. *)
Lemma float_pow_abs {libm : Libm} (iv : float) :
  float_pow iv =
    match Prim2SF (abs iv) with
    | S754_nan | S754_infinity _ => Ok (abs iv)
    | S754_zero _ => Ok 0%float
    | S754_finite _ _ _ =>
        if (abs iv =? 1)%float then Ok 1%float
        else if is_infinity (pow_2 (abs iv)) then Raise OverflowError
             else Ok (pow_2 (abs iv))
    end.
Proof.
  unfold float_pow.
  rewrite is_nan_Prim2SF, is_infinity_Prim2SF, eqb_zero_Prim2SF, abs_spec.
  destruct (Prim2SF iv) as [s|s| |s m e] eqn:E; cbn [SFabs]; try reflexivity.
  - f_equal. apply Prim2SF_inj. rewrite abs_spec, E. reflexivity.
  - rewrite (abs_of_negative iv s m e E). reflexivity.
Qed.

Lemma float_pow_sub_swap {libm : Libm} (x y : float) :
  float_pow (x - y) = float_pow (y - x).
Proof. rewrite !float_pow_abs, (float_abs_sub_swap x y). reflexivity. Qed.

(** [float_pow] raises nothing but an OverflowError, for a finite argument
    whose square by the C library is infinite, and [math.sqrt] nothing but a
    ValueError. *)
Lemma float_pow_Raise {libm : Libm} (iv : float) (e : exn) :
  float_pow iv = Raise e →
  e = OverflowError ∧ is_finite iv = true ∧
  is_infinity (pow_2 (abs iv)) = true.
Proof.
  intros H. rewrite float_pow_abs in H. pose proof (abs_spec iv) as Hs.
  unfold is_finite. rewrite (is_nan_Prim2SF iv), (is_infinity_Prim2SF iv).
  destruct (Prim2SF iv) as [s|s| |s m e'];
    cbn [SFabs] in Hs; rewrite Hs in H; try discriminate H.
  destruct (abs iv =? 1)%float eqn:E1; [discriminate H|].
  destruct (is_infinity (pow_2 (abs iv))) eqn:Ei; [|discriminate H].
  injection H as <-. auto.
Qed.

Lemma math_sqrt_Raise (x : float) (e : exn) :
  math_sqrt x = Raise e → e = ValueError ∧ is_nan x = false.
Proof.
  unfold math_sqrt.
  destruct (is_nan (PrimFloat.sqrt x)); simpl; [|discriminate].
  destruct (is_nan x); simpl; [discriminate|]. intros [= <-]. auto.
Qed.

(** Proximity bucketing is symmetric, for present, missing and empty
    locations alike, in what it returns and in what it raises. *)
Theorem calculate_proximity_category_symmetric {libm : Libm}
    (loc_a loc_b : option Location) :
  calculate_proximity_category loc_a loc_b
  = calculate_proximity_category loc_b loc_a.
Proof.
  unfold calculate_proximity_category.
  rewrite (orb_comm (not_loc loc_b)).
  destruct (not_loc loc_a || not_loc loc_b); [reflexivity|]. cbv zeta.
  rewrite (float_pow_sub_swap
             (default 0%float (loc_lat (default empty_Location loc_b)))),
          (float_pow_sub_swap
             (default 0%float (loc_lon (default empty_Location loc_b)))).
  reflexivity.
Qed.

Lemma distance_bucket_not_UNKNOWN (dist : float) :
  distance_bucket dist ≠ UNKNOWN.
Proof.
  unfold distance_bucket.
  repeat match goal with
    | |- context [if ?b then _ else _] => destruct b
    end; discriminate.
Qed.

Lemma not_loc_false (loc : option Location) :
  not_loc loc = false → ∃ l, loc = Some l ∧ Location_truthy l = true.
Proof.
  destruct loc as [l|]; simpl; [|discriminate].
  intros H. exists l. split; [reflexivity|].
  apply negb_false_iff in H. exact H.
Qed.

(** What [dist] raises: an OverflowError for a difference of coordinates
    whose square by the C library is infinite, and a ValueError of
    [math.sqrt] on the sum of the squares. *)
Lemma distance_km_Raise {libm : Libm} (loc_a loc_b : Location) (e : exn) :
  distance_km loc_a loc_b = Raise e →
  (e = OverflowError ∧
   ∃ d, (d = lat_diff loc_a loc_b ∨ d = lon_diff loc_a loc_b) ∧
        is_finite d = true ∧ is_infinity (pow_2 (abs d)) = true) ∨
  (e = ValueError ∧
   ∃ lat_sq lon_sq,
     float_pow (lat_diff loc_a loc_b) = Ok lat_sq ∧
     float_pow (lon_diff loc_a loc_b) = Ok lon_sq ∧
     math_sqrt (lat_sq + lon_sq) = Raise ValueError).
Proof.
  unfold distance_km. cbv zeta. fold (lat_diff loc_a loc_b).
  fold (lon_diff loc_a loc_b).
  destruct (float_pow (lat_diff loc_a loc_b)) as [lat_sq|e1] eqn:E1;
    cbn [mbind result_bind].
  - destruct (float_pow (lon_diff loc_a loc_b)) as [lon_sq|e2] eqn:E2;
      cbn [mbind result_bind].
    + destruct (math_sqrt (lat_sq + lon_sq)) as [root|e3] eqn:E3;
        cbn [mbind result_bind]; [discriminate|].
      intros [= <-]. right.
      destruct (math_sqrt_Raise _ _ E3) as [-> _]. eauto 6.
    + intros [= <-]. left.
      destruct (float_pow_Raise _ _ E2) as (-> & Hf & Hi). eauto 6.
  - intros [= <-]. left.
    destruct (float_pow_Raise _ _ E1) as (-> & Hf & Hi). eauto 6.
Qed.

(** The call raises between two location objects that are not empty only:
    an OverflowError when the square of the difference of the latitudes or of
    the longitudes overflows, and otherwise the ValueError of [math.sqrt]. *)
Lemma calculate_proximity_category_Raise {libm : Libm}
    (loc_a loc_b : option Location) (e : exn) :
  calculate_proximity_category loc_a loc_b = Raise e →
  ∃ a b,
    loc_a = Some a ∧ loc_b = Some b ∧
    Location_truthy a = true ∧ Location_truthy b = true ∧
    ((e = OverflowError ∧
      ∃ d, (d = lat_diff a b ∨ d = lon_diff a b) ∧
           is_finite d = true ∧ is_infinity (pow_2 (abs d)) = true) ∨
     (e = ValueError ∧
      ∃ lat_sq lon_sq,
        float_pow (lat_diff a b) = Ok lat_sq ∧
        float_pow (lon_diff a b) = Ok lon_sq ∧
        math_sqrt (lat_sq + lon_sq) = Raise ValueError)).
Proof.
  destruct (not_loc loc_a) eqn:Ea.
  { unfold calculate_proximity_category. rewrite Ea. discriminate. }
  destruct (not_loc loc_b) eqn:Eb.
  { unfold calculate_proximity_category. rewrite Ea, Eb. discriminate. }
  destruct (not_loc_false _ Ea) as (a & -> & Ha).
  destruct (not_loc_false _ Eb) as (b & -> & Hb).
  rewrite (calculate_proximity_category_Some a b Ha Hb).
  intros H. exists a, b. repeat split; auto.
  apply distance_km_Raise.
  destruct (distance_km a b) as [dist|e']; cbn [mbind result_bind] in H;
    [discriminate|]. injection H as ->. reflexivity.
Qed.

(** The proximity is UNKNOWN exactly when one of the two locations is missing
    or is an empty object.  For two location objects that are not empty the
    call returns one of the four distance buckets, the coordinates that are
    absent counting as 0, unless the distance cannot be computed: it raises
    an OverflowError when the square of the difference of the latitudes or
    of the longitudes overflows, and nothing else but the ValueError of
    [math.sqrt]. *)
Theorem proximity_UNKNOWN_iff {libm : Libm} (loc_a loc_b : option Location) :
  (calculate_proximity_category loc_a loc_b = Ok UNKNOWN ↔
   not_loc loc_a = true ∨ not_loc loc_b = true) ∧
  (∀ e, calculate_proximity_category loc_a loc_b = Raise e →
     ∃ a b,
       loc_a = Some a ∧ loc_b = Some b ∧
       Location_truthy a = true ∧ Location_truthy b = true ∧
       ((e = OverflowError ∧
         ∃ d, (d = lat_diff a b ∨ d = lon_diff a b) ∧
              is_finite d = true ∧ is_infinity (pow_2 (abs d)) = true) ∨
        (e = ValueError ∧
         ∃ lat_sq lon_sq,
           float_pow (lat_diff a b) = Ok lat_sq ∧
           float_pow (lon_diff a b) = Ok lon_sq ∧
           math_sqrt (lat_sq + lon_sq) = Raise ValueError))).
Proof.
  split; [|apply calculate_proximity_category_Raise].
  destruct (not_loc loc_a) eqn:Ea.
  { unfold calculate_proximity_category. rewrite Ea. tauto. }
  destruct (not_loc loc_b) eqn:Eb.
  { unfold calculate_proximity_category. rewrite Ea, Eb. tauto. }
  destruct (not_loc_false _ Ea) as (a & -> & Ha).
  destruct (not_loc_false _ Eb) as (b & -> & Hb).
  rewrite (calculate_proximity_category_Some a b Ha Hb).
  split; [|intros [[=] | [=]]].
  destruct (distance_km a b) as [dist|e]; cbn [mbind result_bind];
    [|discriminate].
  intros [= H]. destruct (distance_bucket_not_UNKNOWN _ H).
Qed.

Lemma SFleb_SFltb_trans (a b c : spec_float) :
  SFleb a b = true → SFltb b c = true → SFltb a c = true.
Proof.
  unfold SFltb, SFleb.
  destruct a as [[]|[]| |[] ma ea], b as [[]|[]| |[] mb eb],
    c as [[]|[]| |[] mc ec]; simpl; try discriminate; try reflexivity;
    intros H1 H2; compare_cases; try reflexivity; try lia.
Qed.

Lemma float_leb_ltb_trans (x y z : float) :
  (x <=? y)%float = true → (y <? z)%float = true → (x <? z)%float = true.
Proof. rewrite !ltb_spec, leb_spec. apply SFleb_SFltb_trans. Qed.

(** The bucketing is monotone in the computed distance: of two pairs of
    locations whose distances can be computed, the pair whose distance is
    not larger never gets a farther bucket. *)
Theorem proximity_monotone {libm : Libm}
    (loc_a loc_b loc_c loc_d : Location) (dist_ab dist_cd : float) :
  Location_truthy loc_a = true → Location_truthy loc_b = true →
  Location_truthy loc_c = true → Location_truthy loc_d = true →
  distance_km loc_a loc_b = Ok dist_ab →
  distance_km loc_c loc_d = Ok dist_cd →
  (dist_ab <=? dist_cd)%float = true →
  ∃ p q,
    calculate_proximity_category (Some loc_a) (Some loc_b) = Ok p ∧
    calculate_proximity_category (Some loc_c) (Some loc_d) = Ok q ∧
    Proximity_rank p ≤ Proximity_rank q.
Proof.
  intros Ha Hb Hc Hd Hab Hcd Hle.
  rewrite !calculate_proximity_category_Some by assumption.
  rewrite Hab, Hcd. cbn [mbind result_bind].
  eexists _, _. split; [reflexivity|]. split; [reflexivity|].
  unfold distance_bucket.
  pose proof (float_leb_ltb_trans _ _ 0.2%float Hle) as H1.
  pose proof (float_leb_ltb_trans _ _ 1.0%float Hle) as H2.
  pose proof (float_leb_ltb_trans _ _ 2.0%float Hle) as H3.
  destruct (dist_cd <? 0.2)%float.
  { rewrite H1 by reflexivity. simpl. lia. }
  destruct (dist_cd <? 1.0)%float.
  { rewrite H2 by reflexivity.
    destruct (dist_ab <? 0.2)%float; simpl; lia. }
  destruct (dist_cd <? 2.0)%float.
  { rewrite H3 by reflexivity.
    destruct (dist_ab <? 0.2)%float, (dist_ab <? 1.0)%float; simpl; lia. }
  destruct (dist_ab <? 0.2)%float, (dist_ab <? 1.0)%float,
    (dist_ab <? 2.0)%float; simpl; lia.
Qed.

Lemma Prim2SF_finite (x : float) :
  is_finite x = true →
  (∃ s, Prim2SF x = S754_zero s) ∨ (∃ s m e, Prim2SF x = S754_finite s m e).
Proof.
  unfold is_finite. rewrite is_nan_Prim2SF, is_infinity_Prim2SF.
  destruct (Prim2SF x) as [s|s| |s m e]; simpl; try discriminate; eauto.
Qed.

Lemma float_sub_diag (x : float) : is_finite x = true → (x - x = 0)%float.
Proof.
  intros H. apply Prim2SF_inj. rewrite sub_spec.
  destruct (Prim2SF_finite x H) as [[s ->] | (s & m & e & ->)].
  - destruct s; reflexivity.
  - unfold SF64sub, SFsub. rewrite Z.sub_diag. reflexivity.
Qed.

(** Two locations with the same finite coordinates are CO_LOCATED: the
    square of a difference 0 is 0 without a call of [pow]. *)
Theorem same_coordinates_CO_LOCATED {libm : Libm} (loc_a loc_b : Location) :
  Location_truthy loc_a = true → Location_truthy loc_b = true →
  default 0%float (loc_lat loc_a) = default 0%float (loc_lat loc_b) →
  default 0%float (loc_lon loc_a) = default 0%float (loc_lon loc_b) →
  is_finite (default 0%float (loc_lat loc_a)) = true →
  is_finite (default 0%float (loc_lon loc_a)) = true →
  calculate_proximity_category (Some loc_a) (Some loc_b) = Ok CO_LOCATED.
Proof.
  intros Ha Hb Hlat Hlon Flat Flon.
  rewrite calculate_proximity_category_Some by assumption.
  unfold distance_km. rewrite <- Hlat, <- Hlon.
  rewrite (float_sub_diag _ Flat), (float_sub_diag _ Flon). reflexivity.
Qed.

Lemma is_nan_true (x : float) : is_nan x = true → Prim2SF x = S754_nan.
Proof.
  rewrite is_nan_Prim2SF. destruct (Prim2SF x); congruence.
Qed.

Lemma float_sub_nan (x y : float) :
  is_nan x = true ∨ is_nan y = true → is_nan (x - y) = true.
Proof.
  intros H. rewrite is_nan_Prim2SF, sub_spec.
  destruct H as [H | H]; rewrite (is_nan_true _ H);
    [reflexivity | destruct (Prim2SF x) as [[]|[]| |[] m e]; reflexivity].
Qed.

(** The square of a NaN is a NaN, a sum with a NaN is a NaN, and the
    distance computed from a NaN is in the last bucket. *)
Lemma float_pow_nan {libm : Libm} (x : float) :
  is_nan x = true → ∃ sq, float_pow x = Ok sq ∧ is_nan sq = true.
Proof.
  intros H. unfold float_pow. rewrite H. eauto.
Qed.

Lemma float_add_nan (x y : float) :
  is_nan x = true ∨ is_nan y = true → is_nan (x + y) = true.
Proof.
  intros H. rewrite is_nan_Prim2SF, add_spec.
  destruct H as [H | H]; rewrite (is_nan_true _ H);
    [reflexivity | destruct (Prim2SF x) as [[]|[]| |[] m e]; reflexivity].
Qed.

Lemma math_sqrt_nan (x : float) :
  is_nan x = true →
  ∃ root, math_sqrt x = Ok root ∧ distance_bucket (root * 111) = DISTANT.
Proof.
  intros H. unfold math_sqrt. rewrite H, andb_false_r.
  eexists. split; [reflexivity|].
  assert (Hn : Prim2SF (PrimFloat.sqrt x * 111) = S754_nan).
  { rewrite mul_spec, sqrt_spec, (is_nan_true _ H). reflexivity. }
  unfold distance_bucket. rewrite !ltb_spec, Hn. reflexivity.
Qed.

(** The difference of a float and itself is 0 or a NaN: its square is
    computed without a call of [pow]. *)
Lemma float_pow_sub_diag {libm : Libm} (x : float) :
  ∃ sq, float_pow (x - x) = Ok sq.
Proof.
  destruct (is_finite x) eqn:Hf.
  - rewrite (float_sub_diag x Hf). eexists. reflexivity.
  - assert (Hn : is_nan (x - x) = true).
    { rewrite is_nan_Prim2SF, sub_spec. unfold is_finite in Hf.
      rewrite is_nan_Prim2SF, is_infinity_Prim2SF in Hf.
      destruct (Prim2SF x) as [[]|[]| |[] m e]; try discriminate;
        reflexivity. }
    destruct (float_pow_nan _ Hn) as (sq & -> & _). eauto.
Qed.

(** A NaN coordinate on either side makes the distance a NaN, which is below
    no bound: whenever the call returns, the pair is DISTANT.  The call
    returns when the squares of the two differences can be computed, as they
    can between a location and itself, and raises nothing but the
    OverflowError of the other difference. *)
Theorem nan_coordinate_DISTANT {libm : Libm} (loc_a loc_b : Location) :
  Location_truthy loc_a = true → Location_truthy loc_b = true →
  is_nan (default 0%float (loc_lat loc_a)) = true ∨
  is_nan (default 0%float (loc_lon loc_a)) = true ∨
  is_nan (default 0%float (loc_lat loc_b)) = true ∨
  is_nan (default 0%float (loc_lon loc_b)) = true →
  (∀ p, calculate_proximity_category (Some loc_a) (Some loc_b) = Ok p →
        p = DISTANT) ∧
  (∀ e, calculate_proximity_category (Some loc_a) (Some loc_b) = Raise e →
        e = OverflowError) ∧
  ((∃ lat_sq, float_pow (lat_diff loc_a loc_b) = Ok lat_sq) →
   (∃ lon_sq, float_pow (lon_diff loc_a loc_b) = Ok lon_sq) →
   calculate_proximity_category (Some loc_a) (Some loc_b) = Ok DISTANT) ∧
  (loc_a = loc_b →
   calculate_proximity_category (Some loc_a) (Some loc_b) = Ok DISTANT).
Proof.
  intros Ha Hb Hnan.
  assert (Hcases : ∀ r : result Proximity,
    calculate_proximity_category (Some loc_a) (Some loc_b) = r →
    match float_pow (lat_diff loc_a loc_b),
          float_pow (lon_diff loc_a loc_b) with
    | Ok _, Ok _ => r = Ok DISTANT
    | Ok _, Raise e | Raise e, _ => r = Raise e ∧ e = OverflowError
    end).
  { intros r <-. rewrite calculate_proximity_category_Some by assumption.
    unfold distance_km. cbv zeta. fold (lat_diff loc_a loc_b).
    fold (lon_diff loc_a loc_b).
    assert (Hd : is_nan (lat_diff loc_a loc_b) = true ∨
                 is_nan (lon_diff loc_a loc_b) = true).
    { unfold lat_diff, lon_diff.
      destruct Hnan as [H | [H | [H | H]]];
        [left | right | left | right]; apply float_sub_nan; auto. }
    destruct (float_pow (lat_diff loc_a loc_b)) as [lat_sq|e1] eqn:E1;
      cbn [mbind result_bind];
      [|destruct (float_pow_Raise _ _ E1) as (-> & _); auto].
    destruct (float_pow (lon_diff loc_a loc_b)) as [lon_sq|e2] eqn:E2;
      cbn [mbind result_bind];
      [|destruct (float_pow_Raise _ _ E2) as (-> & _); auto].
    assert (Hs : is_nan (lat_sq + lon_sq) = true).
    { apply float_add_nan. destruct Hd as [H | H];
        destruct (float_pow_nan _ H) as (sq & Hsq & Hn);
        [left | right]; congruence. }
    destruct (math_sqrt_nan _ Hs) as (root & -> & Hbucket).
    cbn [mbind result_bind]. rewrite Hbucket. reflexivity. }
  split; [|split; [|split]].
  - intros p Hp. specialize (Hcases _ Hp).
    destruct (float_pow (lat_diff loc_a loc_b)),
             (float_pow (lon_diff loc_a loc_b));
      [congruence | destruct Hcases; congruence..].
  - intros e He. specialize (Hcases _ He).
    destruct (float_pow (lat_diff loc_a loc_b)),
             (float_pow (lon_diff loc_a loc_b));
      [congruence | destruct Hcases; congruence..].
  - intros [lat_sq Hlat] [lon_sq Hlon].
    specialize (Hcases _ eq_refl). rewrite Hlat, Hlon in Hcases.
    exact Hcases.
  - intros <-. specialize (Hcases _ eq_refl).
    unfold lat_diff, lon_diff in Hcases.
    destruct (float_pow_sub_diag (default 0%float (loc_lat loc_a)))
      as [s1 Hs1].
    destruct (float_pow_sub_diag (default 0%float (loc_lon loc_a)))
      as [s2 Hs2].
    rewrite Hs1, Hs2 in Hcases. exact Hcases.
Qed.

(** ** Relationship frictions: the location table, exceptions, hints *)

Lemma build_user_locs_Ok users : ∀ (m user_locs : gmap string Location),
  for_each
    (λ u (locs : gmap string Location),
       uid ← subscript "user_id" (user_id u);
       loc ← subscript "current_location" (current_location u);
       Ok (<[uid := loc]> locs)) users m = Ok user_locs →
  ∀ u, u ∈ users → is_Some (user_id u) ∧ is_Some (current_location u).
Proof.
  induction users as [|v users IH]; intros m user_locs H u Hu.
  - apply elem_of_nil in Hu. contradiction.
  - change (( uid ← subscript "user_id" (user_id v);
              loc ← subscript "current_location" (current_location v);
              Ok (<[uid := loc]> m))
            ≫= (λ m', for_each
                  (λ u (locs : gmap string Location),
                     uid ← subscript "user_id" (user_id u);
                     loc ← subscript "current_location" (current_location u);
                     Ok (<[uid := loc]> locs)) users m') = Ok user_locs) in H.
    apply bind_Ok in H. destruct H as (m' & Hv & H).
    apply elem_of_cons in Hu. destruct Hu as [-> | Hu].
    + destruct (user_id v), (current_location v); simpl in Hv;
        try discriminate. split; eauto.
    + exact (IH _ _ H u Hu).
Qed.

(** When several users of the list share an id, the location recorded for
    the id is that of the last of them. *)
Theorem build_user_locs_last_wins
    (users pre post : list User) (u : User) (id : string)
    (user_locs : gmap string Location) :
  build_user_locs users = Ok user_locs →
  users = pre ++ u :: post →
  user_id u = Some id →
  (∀ v, v ∈ post → user_id v ≠ Some id) →
  user_locs !! id = current_location u.
Proof.
  unfold build_user_locs. intros H -> Hid Hpost.
  rewrite for_each_app in H. apply bind_Ok in H. destruct H as (m1 & _ & H).
  change (( uid ← subscript "user_id" (user_id u);
            loc ← subscript "current_location" (current_location u);
            Ok (<[uid := loc]> m1))
          ≫= (λ m', for_each
                (λ u (locs : gmap string Location),
                   uid ← subscript "user_id" (user_id u);
                   loc ← subscript "current_location" (current_location u);
                   Ok (<[uid := loc]> locs)) post m') = Ok user_locs) in H.
  apply bind_Ok in H. destruct H as (m2 & Hu & H).
  rewrite (build_user_locs_absent _ _ _ _ H Hpost).
  rewrite Hid in Hu. simpl in Hu.
  destruct (current_location u) as [loc|]; simpl in Hu; [|discriminate].
  injection Hu as <-. apply lookup_insert_eq.
Qed.

Lemma for_each_Raise {A S} (body : A → S → result S) (l : list A) :
  ∀ st e, for_each body l st = Raise e →
          ∃ x st', x ∈ l ∧ body x st' = Raise e.
Proof.
  induction l as [|x l IH]; intros st e H; simpl in H; [discriminate|].
  destruct (body x st) as [st1|e1] eqn:Ex; simpl in H.
  - destruct (IH _ _ H) as (y & st' & Hy & Hb).
    exists y, st'. split; [right; exact Hy | exact Hb].
  - injection H as <-. exists x, st. split; [left | exact Ex].
Qed.

Lemma relation_body_Raise {libm : Libm} user_locs global_context u r st e :
  relation_body user_locs global_context u r st = Raise e →
  (user_id u = None ∧ e = KeyError "user_id") ∨
  (rel_target_id r = None ∧ e = TypeError) ∨
  (rel_relation r = None ∧ rel_status r = Some "GOOD"%string ∧
   e = AttributeError) ∨
  (∃ src tgt,
     user_id u = Some src ∧ rel_target_id r = Some tgt ∧
     calculate_proximity_category (user_locs !! src) (user_locs !! tgt)
     = Raise e).
Proof.
  unfold relation_body. destruct st as [results seen].
  destruct (user_id u) as [src|]; simpl; [|intros [= <-]; auto].
  destruct (rel_target_id r) as [tgt|]; simpl; [|intros [= <-]; auto].
  destruct (bool_decide _); [discriminate|].
  destruct (calculate_proximity_category _ _) as [prox|e0] eqn:Ep; simpl;
    [|intros [= <-]; right; right; right; eauto].
  destruct (opt_eqb (rel_status r) "CRITICAL_DISCONNECT"); [discriminate|].
  destruct (opt_eqb (rel_status r) "GOOD") eqn:Eg; [|discriminate].
  apply opt_eqb_spec in Eg.
  destruct (bool_decide _); [|discriminate].
  destruct (rel_relation r); simpl; [discriminate|].
  intros [= <-]. right. right. left. auto.
Qed.

Lemma edges_elem (users : list User) (u : User) (r : Relation) :
  (u, r) ∈ edges users ↔
  u ∈ users ∧ r ∈ default [] (social_graph_snapshot u).
Proof.
  unfold edges. rewrite list_elem_of_In, in_flat_map. split.
  - intros (v & Hv & Hin). apply list_elem_of_In in Hin.
    apply list_elem_of_fmap in Hin. destruct Hin as (r' & [= -> ->] & Hr).
    split; [apply list_elem_of_In; exact Hv | exact Hr].
  - intros [Hu Hr]. exists u. split; [apply list_elem_of_In; exact Hu|].
    apply list_elem_of_In, list_elem_of_fmap. eauto.
Qed.

Lemma analyze_relationships_raise_cases {libm : Libm}
    (users : list User) (global_context : GlobalContext) (e : exn) :
  analyze_relationships users global_context = Raise e →
  (e = KeyError "user_id" ∧ ∃ u, u ∈ users ∧ user_id u = None) ∨
  (e = KeyError "current_location" ∧
   ∃ u, u ∈ users ∧ current_location u = None) ∨
  (e = TypeError ∧
   ∃ u r, (u, r) ∈ edges users ∧ rel_target_id r = None) ∨
  (e = AttributeError ∧
   ∃ u r, (u, r) ∈ edges users ∧ rel_relation r = None ∧
          rel_status r = Some "GOOD"%string) ∨
  ((e = OverflowError ∨ e = ValueError) ∧
   ∃ u v loc_a loc_b,
     u ∈ users ∧ v ∈ users ∧
     current_location u = Some loc_a ∧ current_location v = Some loc_b ∧
     calculate_proximity_category (Some loc_a) (Some loc_b) = Raise e).
Proof.
  unfold analyze_relationships. intros H.
  destruct (build_user_locs users) as [user_locs|e0] eqn:Hlocs; simpl in H.
  - rewrite user_loops_as_edges in H.
    destruct (for_each _ (edges users) _) as [st|e1] eqn:Hrun; simpl in H;
      [discriminate|]. injection H as ->.
    apply for_each_Raise in Hrun.
    destruct Hrun as ([u r] & st' & Hin & Hbody). simpl in Hbody.
    apply relation_body_Raise in Hbody.
    destruct Hbody
      as [[Hid ->] | [[Ht ->] | [(Hl & Hg & ->) | (src & tgt & _ & _ & Hp)]]].
    + exfalso. apply edges_elem in Hin. destruct Hin as [Hu _].
      unfold build_user_locs in Hlocs.
      destruct (build_user_locs_Ok _ _ _ Hlocs u Hu) as [[id Hid'] _].
      congruence.
    + right. right. left. eauto.
    + right. right. right. left. eauto 6.
    + right. right. right. right.
      destruct (calculate_proximity_category_Raise _ _ _ Hp)
        as (a & b & Ha & Hb & _ & _ & He).
      split; [destruct He as [[-> _] | [-> _]]; auto|].
      destruct (user_locs_lookup users user_locs src Hlocs)
        as [Hn | (v1 & Hv1 & Hl1)]; [congruence|].
      destruct (user_locs_lookup users user_locs tgt Hlocs)
        as [Hn | (v2 & Hv2 & Hl2)]; [congruence|].
      exists v1, v2, a, b. rewrite <- Hl1, <- Hl2, <- Ha, <- Hb. auto.
  - injection H as ->. unfold build_user_locs in Hlocs.
    apply for_each_Raise in Hlocs. destruct Hlocs as (u & m & Hu & Hbody).
    destruct (user_id u) eqn:Hid; simpl in Hbody.
    + destruct (current_location u) eqn:Hloc; simpl in Hbody; [discriminate|].
      injection Hbody as <-. right. left. eauto.
    + injection Hbody as <-. left. eauto.
Qed.

(** The exceptions of [analyze_relationships] and their causes: a KeyError
    for a user without an id or without a location, a TypeError for a
    relation without a target, an AttributeError for a GOOD relation without
    a label, and the OverflowError or ValueError of the distance between the
    locations of two users; it raises nothing else. *)
Theorem analyze_relationships_raises {libm : Libm}
    (users : list User) (global_context : GlobalContext) (e : exn) :
  analyze_relationships users global_context = Raise e →
  (e = KeyError "user_id" ∧ ∃ u, u ∈ users ∧ user_id u = None) ∨
  (e = KeyError "current_location" ∧
   ∃ u, u ∈ users ∧ current_location u = None) ∨
  (e = TypeError ∧
   ∃ u r, (u, r) ∈ edges users ∧ rel_target_id r = None) ∨
  (e = AttributeError ∧
   ∃ u r, (u, r) ∈ edges users ∧ rel_relation r = None ∧
          rel_status r = Some "GOOD"%string) ∨
  ((e = OverflowError ∨ e = ValueError) ∧
   ∃ u v loc_a loc_b,
     u ∈ users ∧ v ∈ users ∧
     current_location u = Some loc_a ∧ current_location v = Some loc_b ∧
     calculate_proximity_category (Some loc_a) (Some loc_b) = Raise e).
Proof. apply analyze_relationships_raise_cases. Qed.

Lemma for_each_Ok_inv {A S} (body : A → S → result S) (l : list A) :
  ∀ st st', for_each body l st = Ok st' →
            ∀ x, x ∈ l → ∃ s1 s2, body x s1 = Ok s2.
Proof.
  induction l as [|y l IH]; intros st st' H x Hx.
  - apply elem_of_nil in Hx. contradiction.
  - simpl in H. destruct (body y st) as [st1|e1] eqn:Ey; simpl in H;
      [|discriminate].
    apply elem_of_cons in Hx. destruct Hx as [-> | Hx]; [eauto|].
    exact (IH _ _ H x Hx).
Qed.

(** A user without an id or without a location object makes every run raise
    a KeyError, whether or not a relation of the graph involves that user. *)
Theorem analyze_relationships_KeyError {libm : Libm}
    (users : list User) (global_context : GlobalContext) (u : User) :
  u ∈ users → user_id u = None ∨ current_location u = None →
  ∃ key, analyze_relationships users global_context = Raise (KeyError key).
Proof.
  intros Hu Hmissing. unfold analyze_relationships.
  destruct (build_user_locs users) as [user_locs|e0] eqn:Hlocs; simpl.
  - unfold build_user_locs in Hlocs.
    destruct (build_user_locs_Ok _ _ _ Hlocs u Hu) as [[id Hid] [loc Hloc]].
    destruct Hmissing; congruence.
  - unfold build_user_locs in Hlocs.
    apply for_each_Raise in Hlocs. destruct Hlocs as (v & m & _ & Hbody).
    destruct (user_id v); simpl in Hbody.
    + destruct (current_location v); simpl in Hbody; [discriminate|].
      injection Hbody as <-. eauto.
    + injection Hbody as <-. eauto.
Qed.

(** With users that all have an id and a location between any two of which
    the proximity can be computed, and no GOOD relation without a label, the
    run returns exactly when every relation has a target, and raises a
    TypeError otherwise; a relation with another status needs no label. *)
Theorem analyze_relationships_returns_iff {libm : Libm}
    (users : list User) (global_context : GlobalContext) :
  (∀ u, u ∈ users → is_Some (user_id u) ∧ is_Some (current_location u)) →
  (∀ u r, (u, r) ∈ edges users →
     is_Some (rel_relation r) ∨ rel_status r ≠ Some "GOOD"%string) →
  (∀ u v, u ∈ users → v ∈ users →
     ∃ p, calculate_proximity_category
            (current_location u) (current_location v) = Ok p) →
  ((∃ res, analyze_relationships users global_context = Ok res) ↔
   ∀ u r, (u, r) ∈ edges users → is_Some (rel_target_id r)) ∧
  ((∃ u r, (u, r) ∈ edges users ∧ rel_target_id r = None) →
   analyze_relationships users global_context = Raise TypeError).
Proof.
  intros Husers Hlabels Hprox.
  assert (Hraise : ∀ e, analyze_relationships users global_context = Raise e →
                        e = TypeError ∧
                        ∃ u r, (u, r) ∈ edges users ∧ rel_target_id r = None).
  { intros e He. apply analyze_relationships_raise_cases in He.
    destruct He as [(_ & u & Hu & Hid) | [(_ & u & Hu & Hloc)
                   | [(-> & Ht) | [(_ & u & r & Hin & Hl & Hg)
                   | (_ & u & v & a & b & Hu & Hv & Ha & Hb & Hp)]]]].
    - destruct (Husers u Hu) as [[id Hid'] _]. congruence.
    - destruct (Husers u Hu) as [_ [loc Hloc']]. congruence.
    - auto.
    - destruct (Hlabels u r Hin) as [[l Hl'] | Hng]; congruence.
    - destruct (Hprox u v Hu Hv) as [p Hp']. rewrite Ha, Hb in Hp'.
      congruence. }
  assert (Hok : ∀ res, analyze_relationships users global_context = Ok res →
                       ∀ u r, (u, r) ∈ edges users → is_Some (rel_target_id r)).
  { intros res H u r Hin. unfold analyze_relationships in H.
    apply bind_Ok in H. destruct H as (user_locs & _ & H).
    apply bind_Ok in H. destruct H as (st & Hrun & _).
    rewrite user_loops_as_edges in Hrun.
    destruct (for_each_Ok_inv _ _ _ _ Hrun _ Hin) as ([rs sn] & s2 & Hbody).
    simpl in Hbody. apply relation_body_Ok in Hbody.
    destruct Hbody as (src & tgt & _ & Ht & _). eauto. }
  split; [split|].
  - intros [res H]. exact (Hok res H).
  - intros Hall.
    destruct (analyze_relationships users global_context) as [res|e] eqn:E;
      [eauto|].
    destruct (Hraise e eq_refl) as (_ & u & r & Hin & Hnone).
    destruct (Hall u r Hin) as [t Ht]. congruence.
  - intros (u & r & Hin & Hnone).
    destruct (analyze_relationships users global_context) as [res|e] eqn:E.
    + destruct (Hok res eq_refl u r Hin) as [t Ht]. congruence.
    + destruct (Hraise e eq_refl) as [-> _]. reflexivity.
Qed.

Lemma upper_char_idem (c : ascii) : upper_char (upper_char c) = upper_char c.
Proof. destruct c as [[] [] [] [] [] [] [] []]; reflexivity. Qed.

Lemma upper_idem (s : string) : upper (upper s) = upper s.
Proof.
  induction s as [|c s IH]; simpl; [reflexivity|].
  rewrite upper_char_idem, IH. reflexivity.
Qed.

Opaque in_list.

Lemma emitted_record {libm : Libm} user_locs global_context e new rec :
  emitted user_locs global_context e = Ok new → rec ∈ new →
  upper (relationship_type rec) = relationship_type rec ∧
  match connection_health rec with
  | CRITICAL_DISCONNECT =>
      (relationship_type rec
       ∉ ["SON"; "DAUGHTER"; "FATHER"; "MOTHER"]%string) ∧
      scout_hint rec =
        (if bool_decide (transit_friction global_context = HIGH_FRICTION)
            && bool_decide (proximity_opportunity rec = DISTANT)
         then "High Friction Travel + Critical Disconnect = Suggest Phone/Video Call."
         else if bool_decide (proximity_opportunity rec = WALKING_DISTANCE)
         then "Nearby + Disconnected = Suggest immediate meetup."
         else "Critical Disconnect detected.")%string
  | HEALTHY =>
      proximity_opportunity rec = WALKING_DISTANCE ∧
      scout_hint rec =
        ("Healthy connection + nearby + '"
         +:+ OutdoorViability_str (outdoor_viability global_context)
         +:+ "' weather = Suggest local indoor hangout.")%string
  end.
Proof.
  destruct e as [u r]. unfold emitted, relation_body. simpl.
  destruct (user_id u) as [src|]; simpl; [|discriminate].
  destruct (rel_target_id r) as [tgt|]; simpl; [|discriminate].
  rewrite (bool_decide_eq_false_2 (sorted_pair src tgt ∈ (∅ : gset _)))
    by apply not_elem_of_empty.
  destruct (calculate_proximity_category _ _) as [prox|e0]; simpl;
    [|discriminate].
  destruct (opt_eqb (rel_status r) "CRITICAL_DISCONNECT").
  { intros [= <-] Hin. apply list_elem_of_singleton in Hin. subst rec.
    cbn [relationship_type connection_health proximity_opportunity scout_hint].
    destruct (in_list _ _) eqn:Ekin.
    - split; [reflexivity|]. split; [|reflexivity].
      intros Hin. apply list_elem_of_In in Hin. simpl in Hin.
      intuition discriminate.
    - split; [apply upper_idem|]. split; [|reflexivity].
      intros Hin. apply in_list_spec in Hin. congruence. }
  destruct (opt_eqb (rel_status r) "GOOD");
    [|intros [= <-] Hin; apply elem_of_nil in Hin; contradiction].
  destruct (bool_decide _);
    [|intros [= <-] Hin; apply elem_of_nil in Hin; contradiction].
  destruct (rel_relation r) as [label|]; simpl; [|discriminate].
  intros [= <-] Hin. apply list_elem_of_singleton in Hin. subst rec.
  cbn [relationship_type connection_health proximity_opportunity scout_hint].
  split; [apply upper_idem | auto].
Qed.

Transparent in_list.

(** The hint of a record is a function of the record's class, its proximity
    and the global context.  A disconnect record gets the phone-call hint
    when the transit friction is HIGH_FRICTION and it is DISTANT, else the
    meetup hint when it is at WALKING_DISTANCE, else the generic hint; an
    opportunity record is always at WALKING_DISTANCE and its hint quotes the
    outdoor viability of the context. *)
Theorem scout_hint_table {libm : Libm}
    (users : list User) (global_context : GlobalContext)
    (res : list Friction) (rec : Friction) :
  analyze_relationships users global_context = Ok res → rec ∈ res →
  match connection_health rec with
  | CRITICAL_DISCONNECT =>
      scout_hint rec =
        (if bool_decide (transit_friction global_context = HIGH_FRICTION)
            && bool_decide (proximity_opportunity rec = DISTANT)
         then "High Friction Travel + Critical Disconnect = Suggest Phone/Video Call."
         else if bool_decide (proximity_opportunity rec = WALKING_DISTANCE)
         then "Nearby + Disconnected = Suggest immediate meetup."
         else "Critical Disconnect detected.")%string
  | HEALTHY =>
      proximity_opportunity rec = WALKING_DISTANCE ∧
      scout_hint rec =
        ("Healthy connection + nearby + '"
         +:+ OutdoorViability_str (outdoor_viability global_context)
         +:+ "' weather = Suggest local indoor hangout.")%string
  end.
Proof.
  intros H Hin. apply analyze_relationships_Ok in H.
  destruct H as (user_locs & news & _ & HF & ->).
  destruct (records_NoDup _ _ _ _ _ HF) as (_ & Hrec).
  destruct (Hrec rec Hin) as (_ & e & new & _ & Hnew & Hin').
  destruct (emitted_record _ _ _ _ _ Hnew Hin') as [_ Hshape].
  destruct (connection_health rec); tauto.
Qed.

(** The relationship type of a record never holds a lowercase ASCII letter,
    and that of a disconnect record is never one of the kinship labels SON,
    DAUGHTER, FATHER and MOTHER, which are folded into PARENT_CHILD. *)
Theorem relationship_type_canonical {libm : Libm}
    (users : list User) (global_context : GlobalContext)
    (res : list Friction) (rec : Friction) :
  analyze_relationships users global_context = Ok res → rec ∈ res →
  upper (relationship_type rec) = relationship_type rec ∧
  (connection_health rec = CRITICAL_DISCONNECT →
   relationship_type rec ∉ ["SON"; "DAUGHTER"; "FATHER"; "MOTHER"]%string).
Proof.
  intros H Hin. apply analyze_relationships_Ok in H.
  destruct H as (user_locs & news & _ & HF & ->).
  destruct (records_NoDup _ _ _ _ _ HF) as (_ & Hrec).
  destruct (Hrec rec Hin) as (_ & e & new & _ & Hnew & Hin').
  destruct (emitted_record _ _ _ _ _ Hnew Hin') as [Hup Hshape].
  split; [exact Hup|]. intros Hc. rewrite Hc in Hshape. tauto.
Qed.

(** ** Opportunities: environment match, scores, exceptions *)

Lemma event_body_item global_context users_map event curated out :
  event_body global_context users_map event curated = Ok out →
  ∃ item,
    out = curated ++ [item] ∧
    event_id item = ev_identifier event ∧
    title item = ev_name event ∧
    activity_type item
    = map_activity_category (default EmptyString (ev_type event)) ∧
    opp_location_context item
    = default "Unknown Area"%string
        (evloc_name (default empty_EventLocation (ev_location event))) ∧
    environment_match item =
      (if bool_decide (outdoor_viability global_context = INDOOR_ONLY)
          && event_is_outdoor event
       then MISMATCH else MATCHES_CURRENT_CONDITIONS) ∧
    reason item =
      (if bool_decide (outdoor_viability global_context = INDOOR_ONLY)
          && event_is_outdoor event
       then Some "Outdoor event during Rain"%string else None).
Proof.
  unfold event_body, event_is_outdoor. intros H.
  apply bind_Ok in H. destruct H as (scores & _ & H). injection H as <-.
  eexists. split; [reflexivity|]. simpl. auto 10.
Qed.

Lemma for_each_event_items global_context users_map events :
  ∀ curated out,
    for_each (event_body global_context users_map) events curated = Ok out →
    ∃ items,
      out = curated ++ items ∧
      Forall2
        (λ event item,
           event_body global_context users_map event [] = Ok [item])
        events items.
Proof.
  induction events as [|event events IH]; intros curated out H.
  - injection H as <-. exists []. rewrite app_nil_r. split; [reflexivity|].
    constructor.
  - change (event_body global_context users_map event curated
            ≫= for_each (event_body global_context users_map) events
            = Ok out) in H.
    apply bind_Ok in H. destruct H as (out1 & Hbody & H).
    apply IH in H. destruct H as (items & -> & HF).
    unfold event_body in Hbody.
    apply bind_Ok in Hbody. destruct Hbody as (scores & Hs & [= <-]).
    eexists (_ :: items). rewrite <- app_assoc. split; [reflexivity|].
    constructor; [|exact HF].
    unfold event_body. rewrite Hs. reflexivity.
Qed.

(** A record is a MISMATCH exactly when the context is INDOOR_ONLY and the
    text of the event holds an outdoor keyword, and the reason field is
    present exactly on the MISMATCH records, always with the same text; the
    record keeps the id and name of its event, gets the mapped activity
    type and, for an event without a location name, "Unknown Area". *)
Theorem curated_record_fields
    (events : list Event) (global_context : GlobalContext)
    (users_map : list UserClassification) (out : list CuratedOpportunity)
    (i : nat) (event : Event) :
  curate_opportunities events global_context users_map = Ok out →
  events !! i = Some event →
  ∃ item,
    out !! i = Some item ∧
    event_id item = ev_identifier event ∧
    title item = ev_name event ∧
    activity_type item
    = map_activity_category (default EmptyString (ev_type event)) ∧
    opp_location_context item
    = default "Unknown Area"%string
        (evloc_name (default empty_EventLocation (ev_location event))) ∧
    (environment_match item = MISMATCH ↔
     outdoor_viability global_context = INDOOR_ONLY ∧
     event_is_outdoor event = true) ∧
    (reason item = Some "Outdoor event during Rain"%string ↔
     environment_match item = MISMATCH) ∧
    (reason item = None ↔
     environment_match item = MATCHES_CURRENT_CONDITIONS).
Proof.
  unfold curate_opportunities. intros H Hi.
  apply for_each_event_items in H. destruct H as (items & -> & HF).
  destruct (Forall2_lookup_l _ _ _ _ _ HF Hi) as (item & Hitem & Hbody).
  apply event_body_item in Hbody.
  destruct Hbody as (item' & [= <-] & Hid & Ht & Ha & Hl & Hm & Hr).
  exists item. simpl. split; [exact Hitem|].
  split; [exact Hid|]. split; [exact Ht|]. split; [exact Ha|].
  split; [exact Hl|]. rewrite Hm, Hr.
  destruct (bool_decide_reflect (outdoor_viability global_context = INDOOR_ONLY));
    destruct (event_is_outdoor event); simpl;
    repeat split; try discriminate; auto; intros; intuition congruence.
Qed.

Lemma score_user_Ok event_type description title user s :
  score_user event_type description title user = Ok s →
  (s = HIGH →
   (event_type = "SportsEvent"%string ∧
    uc_user_id user = Some "user_01_student"%string ∧
    wellness_need user = STRESS_RELIEF) ∨
   (event_type = "SocialEvent"%string ∧
    uc_user_id user = Some "user_03_expat"%string)) ∧
  (s = MEDIUM →
   (event_type = "SportsEvent"%string ∧ wellness_need user = STRESS_RELIEF) ∨
   (event_type = "SocialEvent"%string ∧
    (uc_user_id user = Some "user_01_student"%string ∨
     wellness_need user = SOCIAL_CONNECTION)) ∨
   (event_type = "MusicEvent"%string ∧
    uc_user_id user = Some "user_02_retired"%string)).
Proof.
  unfold score_user.
  destruct (String.eqb_spec event_type "SportsEvent") as [->|_].
  { destruct (opt_eqb (uc_user_id user) "user_01_student") eqn:Eu;
      destruct (bool_decide_reflect (wellness_need user = STRESS_RELIEF));
      simpl; intros [= <-]; split; try discriminate; auto.
    apply opt_eqb_spec in Eu. auto. }
  destruct (String.eqb_spec event_type "SocialEvent") as [->|_].
  { destruct (opt_eqb (uc_user_id user) "user_03_expat") eqn:Ee;
      [apply opt_eqb_spec in Ee|];
      destruct (str_in "expat" (lower description)); simpl;
      try (intros [= <-]; split; try discriminate; auto; fail);
      destruct title as [t|]; simpl; try discriminate;
      rewrite ?andb_false_r;
      destruct (str_in "english" (lower t)); simpl;
      try (intros [= <-]; split; try discriminate; auto; fail);
      destruct (opt_eqb (uc_user_id user) "user_01_student") eqn:Eu;
      try (apply opt_eqb_spec in Eu);
      try (intros [= <-]; split; try discriminate; auto 6; fail);
      destruct (bool_decide_reflect (wellness_need user = SOCIAL_CONNECTION));
      intros [= <-]; split; try discriminate; auto 6. }
  destruct (String.eqb_spec event_type "MusicEvent") as [->|_].
  { destruct (opt_eqb (uc_user_id user) "user_02_retired") eqn:Eu;
      intros [= <-]; split; try discriminate; auto.
    apply opt_eqb_spec in Eu. auto 6. }
  intros [= <-]. split; discriminate.
Qed.

Lemma score_user_Raise event_type description title user e :
  score_user event_type description title user = Raise e →
  e = AttributeError ∧ title = None ∧ event_type = "SocialEvent"%string.
Proof.
  unfold score_user.
  destruct (String.eqb_spec event_type "SportsEvent") as [->|_].
  { repeat match goal with
      | |- (if ?b then _ else _) = _ → _ => destruct b
      end; discriminate. }
  destruct (String.eqb_spec event_type "SocialEvent") as [->|_].
  { destruct (_ && _); [discriminate|].
    destruct title as [t|]; simpl; [|intros [= <-]; auto].
    repeat match goal with
      | |- (if ?b then _ else _) = _ → _ => destruct b
      end; discriminate. }
  destruct (String.eqb_spec event_type "MusicEvent") as [->|_];
    [destruct (opt_eqb _ _)|]; discriminate.
Qed.

(** Every entry of an emitted suitability map is the score of a user of
    [users_map] with that id.  HIGH is only ever given to the ids
    "user_01_student" (a sports event, with a need of STRESS_RELIEF) and
    "user_03_expat" (a social event); a user with another id gets at most
    MEDIUM, for a sports event with a need of STRESS_RELIEF, for a social
    event with a need of SOCIAL_CONNECTION, or as "user_02_retired" for a
    music event. *)
Theorem suitability_entries
    (events : list Event) (global_context : GlobalContext)
    (users_map : list UserClassification) (out : list CuratedOpportunity)
    (i : nat) (event : Event) (item : CuratedOpportunity)
    (uid : option string) (s : Score) :
  curate_opportunities events global_context users_map = Ok out →
  events !! i = Some event → out !! i = Some item →
  suitability item !! uid = Some s →
  let event_type := default EmptyString (ev_type event) in
  ∃ user,
    user ∈ users_map ∧ uc_user_id user = uid ∧
    event_score event user = Ok s ∧
    (s = HIGH →
     (event_type = "SportsEvent"%string ∧
      uid = Some "user_01_student"%string ∧
      wellness_need user = STRESS_RELIEF) ∨
     (event_type = "SocialEvent"%string ∧
      uid = Some "user_03_expat"%string)) ∧
    (s = MEDIUM →
     (event_type = "SportsEvent"%string ∧
      wellness_need user = STRESS_RELIEF) ∨
     (event_type = "SocialEvent"%string ∧
      (uid = Some "user_01_student"%string ∨
       wellness_need user = SOCIAL_CONNECTION)) ∨
     (event_type = "MusicEvent"%string ∧
      uid = Some "user_02_retired"%string)).
Proof.
  unfold curate_opportunities. intros H Hi Hitem Hs.
  apply for_each_event_body in H. destruct H as (items & -> & HF).
  simpl in Hitem.
  destruct (Forall2_lookup_l _ _ _ _ _ HF Hi)
    as (item' & Hitem' & scores & Hsc & Hf & _).
  rewrite Hitem in Hitem'. injection Hitem' as <-.
  rewrite Hf in Hs. apply map_lookup_filter_Some in Hs.
  destruct Hs as [Hs _]. unfold suitability_scores in Hsc.
  apply for_each_suitability_body in Hsc. destruct Hsc as (Hkeys & _ & _).
  destruct (Hkeys uid s Hs) as [Hempty | (user & Hu & Hid & Hscore)].
  { rewrite lookup_empty in Hempty. discriminate. }
  exists user. split; [exact Hu|]. split; [exact Hid|].
  split; [exact Hscore|]. rewrite <- Hid.
  exact (score_user_Ok _ _ _ _ _ Hscore).
Qed.

(** [curate_opportunities] raises nothing but an AttributeError, and only
    when a SocialEvent without a name is scored for some user: with no user
    to score, or with a name on every event, it returns. *)
Theorem curate_opportunities_raises
    (events : list Event) (global_context : GlobalContext)
    (users_map : list UserClassification) (e : exn) :
  curate_opportunities events global_context users_map = Raise e →
  e = AttributeError ∧ users_map ≠ [] ∧
  ∃ event, event ∈ events ∧ ev_name event = None ∧
           ev_type event = Some "SocialEvent"%string.
Proof.
  unfold curate_opportunities. intros H.
  apply for_each_Raise in H. destruct H as (event & curated & Hev & Hbody).
  unfold event_body in Hbody.
  destruct (for_each _ users_map ∅) as [scores|e'] eqn:Hs; simpl in Hbody;
    [discriminate|]. injection Hbody as ->.
  apply for_each_Raise in Hs. destruct Hs as (user & m & Hu & Hsb).
  unfold suitability_body in Hsb.
  destruct (score_user _ _ _ user) as [s|e'] eqn:Hsc; simpl in Hsb;
    [discriminate|]. injection Hsb as ->.
  apply score_user_Raise in Hsc. destruct Hsc as (-> & Hname & Htype).
  split; [reflexivity|]. split.
  - intros ->. apply elem_of_nil in Hu. contradiction.
  - exists event. split; [exact Hev|]. split; [exact Hname|].
    destruct (ev_type event) as [t|]; simpl in Htype; [congruence|].
    discriminate.
Qed.

(** ** The transformation steps of the handler *)

Lemma map_each_Ok {A B} (f : A → result B) (l : list A) :
  ∀ ys, map_each f l = Ok ys ↔ Forall2 (λ x y, f x = Ok y) l ys.
Proof.
  induction l as [|x l IH]; intros ys; simpl.
  - split; [intros [= <-]; constructor | intros H; inversion H; reflexivity].
  - split.
    + intros H. apply bind_Ok in H. destruct H as (y & Hy & H).
      apply bind_Ok in H. destruct H as (ys' & Hys & [= <-]).
      constructor; [exact Hy | apply IH; exact Hys].
    + intros H. inversion H as [|x' y l' ys' Hy Hys]; subst.
      rewrite Hy. simpl. apply IH in Hys. rewrite Hys. reflexivity.
Qed.

Lemma map_each_transform_user_state (users : list User) :
  ∃ cs, map_each transform_user_state users = Ok cs.
Proof.
  induction users as [|u users [cs IH]]; simpl; [eauto|].
  destruct (transform_user_state_returns u) as [c ->]. simpl.
  rewrite IH. simpl. eauto.
Qed.

Lemma lambda_handler_steps_Ok {libm : Libm} hour raw_data p :
  lambda_handler_steps hour raw_data = Ok p →
  process_global_context hour (feed_of raw_data)
  = Ok (out_global_context p) ∧
  Forall2 (λ u c, transform_user_state u = Ok c)
    (users_of raw_data) (out_user_cluster_map p) ∧
  analyze_relationships (users_of raw_data) (out_global_context p)
  = Ok (out_relationship_frictions p) ∧
  curate_opportunities (events_of raw_data) (out_global_context p)
    (out_user_cluster_map p)
  = Ok (out_curated_opportunity_feed p).
Proof.
  unfold lambda_handler_steps, feed_of, users_of, events_of. intros H.
  apply bind_Ok in H. destruct H as (g & Hg & H).
  apply bind_Ok in H. destruct H as (cs & Hcs & H).
  apply bind_Ok in H. destruct H as (rel & Hrel & H).
  apply bind_Ok in H. destruct H as (opp & Hopp & [= <-]). simpl.
  apply map_each_Ok in Hcs. auto.
Qed.

(** The handler's steps fail only through the three fallible components, in
    this order: the exception is that of [process_global_context], else that
    of [analyze_relationships], else that of [curate_opportunities];
    classifying the users never fails. *)
Theorem lambda_handler_steps_raises {libm : Libm}
    (hour : Z → result Z) (raw_data : RawData) (e : exn) :
  lambda_handler_steps hour raw_data = Raise e ↔
  process_global_context hour (feed_of raw_data) = Raise e ∨
  ∃ g, process_global_context hour (feed_of raw_data) = Ok g ∧
    (analyze_relationships (users_of raw_data) g = Raise e ∨
     ∃ rel cs,
       analyze_relationships (users_of raw_data) g = Ok rel ∧
       map_each transform_user_state (users_of raw_data) = Ok cs ∧
       curate_opportunities (events_of raw_data) g cs = Raise e).
Proof.
  unfold lambda_handler_steps.
  fold (feed_of raw_data) (users_of raw_data) (events_of raw_data).
  destruct (map_each_transform_user_state (users_of raw_data)) as [cs Hcs].
  split.
  - intros H.
    destruct (process_global_context hour _) as [g|e1]; simpl in H;
      [|left; injection H as ->; reflexivity].
    right. exists g. split; [reflexivity|].
    rewrite Hcs in H. simpl in H.
    destruct (analyze_relationships _ g) as [rel|e2]; simpl in H;
      [|left; injection H as ->; reflexivity].
    right. exists rel, cs. split; [reflexivity|]. split; [exact Hcs|].
    destruct (curate_opportunities _ g cs) as [opp|e3]; simpl in H;
      [discriminate | injection H as ->; reflexivity].
  - intros [-> | (g & -> & [Hrel | (rel & cs' & Hrel & Hcs' & Hopp)])];
      simpl; [reflexivity | |].
    + rewrite Hcs. simpl. rewrite Hrel. reflexivity.
    + rewrite Hcs' in Hcs. injection Hcs as <-.
      rewrite Hcs'. simpl. rewrite Hrel. simpl. rewrite Hopp. reflexivity.
Qed.

(** The cluster map of the payload has one classification per user, in the
    order of the users and with the user's id. *)
Theorem user_cluster_map_aligned {libm : Libm}
    (hour : Z → result Z) (raw_data : RawData) (p : Payload) :
  lambda_handler_steps hour raw_data = Ok p →
  uc_user_id <$> out_user_cluster_map p = user_id <$> users_of raw_data.
Proof.
  intros H. apply lambda_handler_steps_Ok in H.
  destruct H as (_ & HF & _). revert HF.
  generalize (out_user_cluster_map p) (users_of raw_data). intros cs us HF.
  induction HF as [|u c us cs Hc _ IH]; [reflexivity|].
  rewrite !fmap_cons, IH.
  destruct (transform_user_state_Ok _ _ Hc) as (_ & _ & ->). reflexivity.
Qed.

Lemma curated_item_event global_context users_map events out item :
  curate_opportunities events global_context users_map = Ok out →
  item ∈ out →
  ∃ i event,
    events !! i = Some event ∧ out !! i = Some item ∧
    event_body global_context users_map event [] = Ok [item].
Proof.
  unfold curate_opportunities. intros H Hin.
  apply for_each_event_items in H. destruct H as (items & -> & HF).
  simpl in *. apply list_elem_of_lookup in Hin. destruct Hin as [i Hi].
  destruct (Forall2_lookup_r _ _ _ _ _ HF Hi) as (event & Hev & Hbody).
  eauto.
Qed.

Lemma event_body_scores global_context users_map event item :
  event_body global_context users_map event [] = Ok [item] →
  ∃ scores,
    suitability_scores event users_map = Ok scores ∧
    suitability item
    = filter (λ kv : option string * Score, kv.2 ≠ LOW) scores.
Proof.
  intros H. apply event_body_Ok in H.
  destruct H as (item' & scores & [= <-] & Hs & Hf & _). eauto.
Qed.

(** The keys of the suitability maps of the payload are ids of users of the
    request. *)
Theorem suitability_keys_are_user_ids {libm : Libm}
    (hour : Z → result Z) (raw_data : RawData) (p : Payload)
    (item : CuratedOpportunity) (uid : option string) (s : Score) :
  lambda_handler_steps hour raw_data = Ok p →
  item ∈ out_curated_opportunity_feed p →
  suitability item !! uid = Some s →
  ∃ u, u ∈ users_of raw_data ∧ user_id u = uid.
Proof.
  intros H Hin Hs. apply lambda_handler_steps_Ok in H.
  destruct H as (_ & HF & _ & Hcur).
  destruct (curated_item_event _ _ _ _ _ Hcur Hin) as (i & event & _ & _ & Hb).
  destruct (event_body_scores _ _ _ _ Hb) as (scores & Hsc & Hf).
  rewrite Hf in Hs. apply map_lookup_filter_Some in Hs. destruct Hs as [Hs _].
  unfold suitability_scores in Hsc. apply for_each_suitability_body in Hsc.
  destruct Hsc as (Hkeys & _ & _).
  destruct (Hkeys uid s Hs) as [Hempty | (c & Hc & Hid & _)].
  { rewrite lookup_empty in Hempty. discriminate. }
  apply list_elem_of_lookup in Hc. destruct Hc as [j Hj].
  destruct (Forall2_lookup_r _ _ _ _ _ HF Hj) as (u & Hu & Ht).
  exists u. split; [apply list_elem_of_lookup; eauto|].
  destruct (transform_user_state_Ok _ _ Ht) as (_ & _ & <-). exact Hid.
Qed.

(** An event of the payload is a MISMATCH only when the weather condition of
    the request is one of Rain, Snow, Thunderstorm and Drizzle; its reason
    then reads "Outdoor event during Rain" for each of the four. *)
Theorem mismatch_only_in_adverse_weather {libm : Libm}
    (hour : Z → result Z) (raw_data : RawData) (p : Payload)
    (item : CuratedOpportunity) :
  lambda_handler_steps hour raw_data = Ok p →
  item ∈ out_curated_opportunity_feed p →
  environment_match item = MISMATCH →
  ∃ condition,
    weather_main_of (feed_of raw_data) = Ok condition ∧
    condition ∈ THRESHOLDS.weather_bad_conditions ∧
    reason item = Some "Outdoor event during Rain"%string.
Proof.
  intros H Hin Hm. apply lambda_handler_steps_Ok in H.
  destruct H as (Hg & _ & _ & Hcur).
  destruct (curated_item_event _ _ _ _ _ Hcur Hin) as (i & event & _ & _ & Hb).
  apply event_body_item in Hb.
  destruct Hb as (item' & [= <-] & _ & _ & _ & _ & Hmatch & Hreason).
  destruct (process_global_context_Ok _ _ _ Hg) as (wm & Hwm & Hout & _).
  exists wm. split; [exact Hwm|].
  rewrite Hm in Hmatch.
  destruct (bool_decide_reflect
              (outdoor_viability (out_global_context p) = INDOOR_ONLY))
    as [Hindoor|]; [|discriminate].
  destruct (event_is_outdoor event); [|discriminate]. split; [|exact Hreason].
  rewrite Hout in Hindoor.
  destruct (in_list wm THRESHOLDS.weather_bad_conditions) eqn:E.
  - apply in_list_spec. exact E.
  - destruct (_ <? _)%float; discriminate.
Qed.

(** A record of the payload carries the phone-call hint only when the
    travel-time index of the request is at least 2.0 and the pair is
    DISTANT. *)
Theorem phone_call_hint_needs_high_friction {libm : Libm}
    (hour : Z → result Z) (raw_data : RawData) (p : Payload)
    (rec : Friction) :
  lambda_handler_steps hour raw_data = Ok p →
  rec ∈ out_relationship_frictions p →
  scout_hint rec
  = "High Friction Travel + Critical Disconnect = Suggest Phone/Video Call."%string →
  (2.0 <=? traffic_idx_of (feed_of raw_data))%float = true ∧
  proximity_opportunity rec = DISTANT ∧
  connection_health rec = CRITICAL_DISCONNECT.
Proof.
  intros H Hin Hhint. apply lambda_handler_steps_Ok in H.
  destruct H as (Hg & _ & Hrel & _).
  apply analyze_relationships_Ok in Hrel.
  destruct Hrel as (user_locs & news & _ & HF & Hres). rewrite Hres in Hin.
  destruct (records_NoDup _ _ _ _ _ HF) as (_ & Hrec).
  destruct (Hrec rec Hin) as (_ & e & new & _ & Hnew & Hin').
  destruct (emitted_record _ _ _ _ _ Hnew Hin') as [_ Hshape].
  destruct (process_global_context_Ok _ _ _ Hg) as (_ & _ & _ & Hfr).
  destruct (connection_health rec).
  - destruct Hshape as [_ Hh]. rewrite Hh in Hhint.
    destruct (outdoor_viability (out_global_context p)); discriminate.
  - destruct Hshape as [_ Hh]. rewrite Hh in Hhint.
    destruct (bool_decide_reflect
                (transit_friction (out_global_context p) = HIGH_FRICTION))
      as [Hhigh|]; simpl in Hhint.
    + destruct (bool_decide_reflect (proximity_opportunity rec = DISTANT))
        as [Hd|].
      * split; [|auto]. rewrite Hfr in Hhigh.
        unfold THRESHOLDS.traffic_high, THRESHOLDS.traffic_moderate in Hhigh.
        destruct (2.0 <=? traffic_idx_of (feed_of raw_data))%float;
          [reflexivity|].
        destruct (1.4 <=? traffic_idx_of (feed_of raw_data))%float;
          discriminate Hhigh.
      * destruct (bool_decide _); discriminate.
    + destruct (bool_decide _); discriminate.
Qed.

(** A user flagged with ISOLATION_RISK, whose id no other user of the request
    has, is in the suitability map of every social event of the payload, with
    MEDIUM or HIGH. *)
Theorem isolated_user_gets_social_events {libm : Libm}
    (hour : Z → result Z) (raw_data : RawData) (p : Payload)
    (u : User) (i : nat) (event : Event) :
  lambda_handler_steps hour raw_data = Ok p →
  u ∈ users_of raw_data →
  (∀ v, v ∈ users_of raw_data → user_id v = user_id u → v = u) →
  "ISOLATION_RISK"%string ∈ risks_of u →
  events_of raw_data !! i = Some event →
  ev_type event = Some "SocialEvent"%string →
  ∃ item,
    out_curated_opportunity_feed p !! i = Some item ∧
    (suitability item !! user_id u = Some MEDIUM ∨
     suitability item !! user_id u = Some HIGH).
Proof.
  intros H Hu Huniq Hrisk Hev Htype. apply lambda_handler_steps_Ok in H.
  destruct H as (_ & HF & _ & Hcur).
  unfold curate_opportunities in Hcur.
  apply for_each_event_body in Hcur. destruct Hcur as (items & Hout & HFe).
  simpl in Hout. rewrite Hout.
  destruct (Forall2_lookup_l _ _ _ _ _ HFe Hev)
    as (item & Hitem & scores & Hsc & Hf & _).
  exists item. split; [exact Hitem|].
  unfold suitability_scores in Hsc. apply for_each_suitability_body in Hsc.
  destruct Hsc as (Hkeys & _ & Hdom).
  apply list_elem_of_lookup in Hu. destruct Hu as [j Hj].
  destruct (Forall2_lookup_l _ _ _ _ _ HF Hj) as (c & Hc & Ht).
  destruct (transform_user_state_Ok _ _ Ht) as (Hneed & _ & Hid).
  apply in_list_spec in Hrisk. rewrite Hrisk in Hneed.
  destruct (Hdom c) as [s Hs]; [apply list_elem_of_lookup; eauto|].
  rewrite Hid in Hs.
  destruct (Hkeys _ _ Hs) as [Hempty | (c' & Hc' & Hid' & Hscore)].
  { rewrite lookup_empty in Hempty. discriminate. }
  assert (c' = c) as ->.
  { apply list_elem_of_lookup in Hc'. destruct Hc' as [k Hk].
    destruct (Forall2_lookup_r _ _ _ _ _ HF Hk) as (v & Hv & Htv).
    destruct (transform_user_state_Ok _ _ Htv) as (_ & _ & Hidv).
    assert (v = u) as ->.
    { apply Huniq; [apply list_elem_of_lookup; eauto | congruence]. }
    congruence. }
  assert (Hs' : s = MEDIUM ∨ s = HIGH).
  { unfold score_user in Hscore. rewrite Htype in Hscore. simpl in Hscore.
    rewrite Hneed in Hscore.
    destruct (_ && _); [injection Hscore as <-; auto|].
    destruct (ev_name event) as [t|]; simpl in Hscore; [|discriminate].
    destruct (_ && _); [injection Hscore as <-; auto|].
    destruct (opt_eqb _ _); injection Hscore as <-; auto. }
  rewrite Hf.
  destruct Hs' as [-> | ->]; [left | right];
    apply map_lookup_filter_Some; (split; [exact Hs | discriminate]).
Qed.

(** ** The further properties at the sample inputs *)

Section FurtherAtSamples.

(** The samples are read on a platform whose [pow] is correctly rounded. *)
#[local] Existing Instance Sample.libm.

(** The phase of a feed stamped at 22 h: LATE_NIGHT. *)
Lemma temporal_phase_buckets_witness :
  process_global_context Sample.utc_hour Sample.rainy_feed
  = Ok Sample.context ∧
  (temporal_phase Sample.context = LATE_NIGHT ↔ (22 < 9 ∨ 22 ≤ 22)%Z).
Proof.
  assert (H : process_global_context Sample.utc_hour Sample.rainy_feed
              = Ok Sample.context)
    by (vm_compute; reflexivity).
  split; [exact H|].
  refine (proj2 (proj2 (proj2
    (proj2 (temporal_phase_buckets _ _ _ H) 1700000000%Z 22%Z
       eq_refl _ eq_refl)))).
  discriminate.
Defined.

(** A feed reporting rain: INDOOR_ONLY. *)
Lemma outdoor_viability_cases_witness :
  process_global_context Sample.utc_hour Sample.rainy_feed
  = Ok Sample.context ∧
  ∃ condition,
    weather_main_of Sample.rainy_feed = Ok condition ∧
    (outdoor_viability Sample.context = INDOOR_ONLY ↔
     condition ∈ THRESHOLDS.weather_bad_conditions).
Proof.
  assert (H : process_global_context Sample.utc_hour Sample.rainy_feed
              = Ok Sample.context)
    by (vm_compute; reflexivity).
  split; [exact H|].
  destruct (outdoor_viability_cases _ _ _ H) as (condition & Hc & Hindoor & _).
  exists condition. split; [exact Hc | exact Hindoor].
Defined.

(** The implication text of the rainy feed. *)
Lemma implication_priority_witness :
  process_global_context Sample.utc_hour Sample.rainy_feed
  = Ok Sample.context ∧
  (implication Sample.context
   = "Focus on indoor venues. Filter out parks and walking groups."%string
   ↔ transit_friction Sample.context ≠ HIGH_FRICTION ∧
     outdoor_viability Sample.context = INDOOR_ONLY).
Proof.
  assert (H : process_global_context Sample.utc_hour Sample.rainy_feed
              = Ok Sample.context)
    by (vm_compute; reflexivity).
  split; [exact H|].
  exact (proj1 (proj2 (implication_priority _ _ _ H))).
Defined.

(** A user in transition is AVAILABLE_SOON. *)
Lemma availability_mapping_witness :
  transform_user_state Example.commuter = Ok Example.commuter_classified ∧
  (availability_status Example.commuter_classified = AVAILABLE_SOON ↔
   Some "TRANSITIONING"%string = Some "BUSY_BUT_ENDING_SOON"%string ∨
   Some "TRANSITIONING"%string = Some "TRANSITIONING"%string).
Proof.
  assert (H : transform_user_state Example.commuter
              = Ok Example.commuter_classified)
    by (vm_compute; reflexivity).
  split; [exact H|].
  exact (proj1 (proj2 (availability_mapping _ _ H))).
Defined.

(** A name holding both a home and a transit keyword: the home keyword wins. *)
Lemma location_context_priority_witness :
  transform_user_state Example.commuter = Ok Example.commuter_classified ∧
  location_context Example.commuter_classified ≠ IN_TRANSIT.
Proof.
  assert (H : transform_user_state Example.commuter
              = Ok Example.commuter_classified)
    by (vm_compute; reflexivity).
  split; [exact H|].
  intros Htransit.
  apply (proj1 (proj1 (proj2 (location_context_priority _ _ H)))) in Htransit.
  destruct Htransit as [Hhome _]. vm_compute in Hhome. discriminate Hhome.
Defined.

(** The neighbourhood of a name with a parenthesised district. *)
Lemma neighborhood_of_parenthesised_name_witness :
  transform_user_state Example.cafe_guest = Ok Example.cafe_guest_classified ∧
  loc_name_full_of Example.cafe_guest
  = ("Cafe Luitpold " +:+ "(" +:+ "Maxvorstadt" +:+ ")")%string ∧
  has_char "(" "Maxvorstadt" = false ∧ has_char ")" "Maxvorstadt" = false ∧
  neighborhood Example.cafe_guest_classified = "Maxvorstadt"%string.
Proof.
  assert (H : transform_user_state Example.cafe_guest
              = Ok Example.cafe_guest_classified)
    by (vm_compute; reflexivity).
  split; [exact H|]. split; [reflexivity|].
  split; [reflexivity|]. split; [reflexivity|].
  exact (neighborhood_of_parenthesised_name _ _ "Cafe Luitpold " "Maxvorstadt"
           H eq_refl eq_refl eq_refl).
Defined.

(** A gym counts as a third place; its neighbourhood is the first word of its
    name. *)
Lemma neighborhood_of_third_place_witness :
  transform_user_state Example.gym_guest = Ok Example.gym_guest_classified ∧
  is_ascii_text (loc_name_full_of Example.gym_guest) = true ∧
  location_context Example.gym_guest_classified = THIRD_PLACE ∧
  has_char "(" (loc_name_full_of Example.gym_guest) = false ∧
  str_in "lost weekend" (lower (loc_name_full_of Example.gym_guest)) = false ∧
  ∃ sp rest,
    loc_name_full_of Example.gym_guest
    = sp +:+ neighborhood Example.gym_guest_classified +:+ rest ∧
    all_space sp = true.
Proof.
  assert (H : transform_user_state Example.gym_guest
              = Ok Example.gym_guest_classified)
    by (vm_compute; reflexivity).
  split; [exact H|]. split; [reflexivity|]. split; [reflexivity|].
  split; [reflexivity|]. split; [reflexivity|].
  destruct (neighborhood_of_third_place _ _ H eq_refl eq_refl eq_refl eq_refl)
    as (sp & rest & Hname & Hsp & _).
  exists sp, rest. split; [exact Hname | exact Hsp].
Defined.

(** A transit name without parenthesis: In_Transit. *)
Lemma neighborhood_without_parenthesis_witness :
  transform_user_state Example.commuter = Ok Example.commuter_classified ∧
  has_char "(" (loc_name_full_of Example.commuter) = false ∧
  location_context Example.commuter_classified = HOME_BASE ∧
  neighborhood Example.commuter_classified = "In_Transit"%string.
Proof.
  assert (H : transform_user_state Example.commuter
              = Ok Example.commuter_classified)
    by (vm_compute; reflexivity).
  split; [exact H|]. split; [reflexivity|]. split; [reflexivity|].
  exact (proj1 (neighborhood_without_parenthesis _ _ H eq_refl) eq_refl).
Defined.

(** Two pairs of locations at increasing distance. *)
Lemma proximity_monotone_witness :
  ∃ dist_ab dist_cd p q,
    distance_km Sample.here Sample.near = Ok dist_ab ∧
    distance_km Sample.here Sample.walk = Ok dist_cd ∧
    (dist_ab <=? dist_cd)%float = true ∧
    calculate_proximity_category (Some Sample.here) (Some Sample.near)
    = Ok p ∧
    calculate_proximity_category (Some Sample.here) (Some Sample.walk)
    = Ok q ∧
    Proximity_rank p ≤ Proximity_rank q.
Proof.
  eexists. eexists.
  match goal with
  | |- ∃ p q, ?Hab ∧ ?Hcd ∧ ?Hle ∧ _ =>
      assert (H1 : Hab) by (vm_compute; reflexivity);
      assert (H2 : Hcd) by (vm_compute; reflexivity);
      assert (H3 : Hle) by (vm_compute; reflexivity)
  end.
  destruct (proximity_monotone Sample.here Sample.near Sample.here Sample.walk
              _ _ eq_refl eq_refl eq_refl eq_refl H1 H2 H3)
    as (p & q & Hp & Hq & Hrank).
  exists p, q. auto 7.
Defined.

(** Two users at the same coordinates. *)
Lemma same_coordinates_CO_LOCATED_witness :
  is_finite 48.1370 = true ∧ is_finite 11.5750 = true ∧
  calculate_proximity_category (Some Sample.here) (Some Sample.here)
  = Ok CO_LOCATED.
Proof.
  split; [vm_compute; reflexivity|]. split; [vm_compute; reflexivity|].
  apply same_coordinates_CO_LOCATED; vm_compute; reflexivity.
Defined.

(** A location whose latitude is not a number. *)
Lemma nan_coordinate_DISTANT_witness :
  is_nan nan = true ∧
  (∃ lat_sq, float_pow (lat_diff Sample.here Example.nowhere) = Ok lat_sq) ∧
  (∃ lon_sq, float_pow (lon_diff Sample.here Example.nowhere) = Ok lon_sq) ∧
  calculate_proximity_category (Some Sample.here) (Some Example.nowhere)
  = Ok DISTANT.
Proof.
  assert (Hlat : ∃ lat_sq,
            float_pow (lat_diff Sample.here Example.nowhere) = Ok lat_sq)
    by (eexists; vm_compute; reflexivity).
  assert (Hlon : ∃ lon_sq,
            float_pow (lon_diff Sample.here Example.nowhere) = Ok lon_sq)
    by (eexists; vm_compute; reflexivity).
  split; [vm_compute; reflexivity|]. split; [exact Hlat|].
  split; [exact Hlon|].
  refine (proj1 (proj2 (proj2
    (nan_coordinate_DISTANT Sample.here Example.nowhere eq_refl eq_refl _)))
    Hlat Hlon).
  right. right. left. vm_compute. reflexivity.
Defined.

(** Two users sharing an id: the later location is kept. *)
Lemma build_user_locs_last_wins_witness :
  ∃ user_locs,
    build_user_locs Example.twice = Ok user_locs ∧
    user_locs !! "user_01_student"%string = Some Sample.walk.
Proof.
  eexists. split; [vm_compute; reflexivity|].
  refine (build_user_locs_last_wins Example.twice
            [Sample.user "user_01_student" Sample.here []] []
            (Sample.user "user_01_student" Sample.walk [])
            "user_01_student" _ _ eq_refl eq_refl _).
  - vm_compute. reflexivity.
  - intros v Hv. apply elem_of_nil in Hv. destruct Hv.
Defined.

(** A user whose latitude is 1e200: the OverflowError of the distance. *)
Lemma analyze_relationships_raises_witness :
  analyze_relationships Example.out_of_range Sample.context
  = Raise OverflowError ∧
  ∃ u v loc_a loc_b,
    u ∈ Example.out_of_range ∧ v ∈ Example.out_of_range ∧
    current_location u = Some loc_a ∧ current_location v = Some loc_b ∧
    calculate_proximity_category (Some loc_a) (Some loc_b)
    = Raise OverflowError.
Proof.
  assert (H : analyze_relationships Example.out_of_range Sample.context
              = Raise OverflowError)
    by (vm_compute; reflexivity).
  split; [exact H|].
  destruct (analyze_relationships_raises _ _ _ H)
    as [[He _] | [[He _] | [[He _] | [[He _] | [_ Hp]]]]];
    [discriminate He | discriminate He | discriminate He | discriminate He
    | exact Hp].
Defined.

(** A user without the key current_location. *)
Lemma analyze_relationships_KeyError_witness :
  ∃ key,
    analyze_relationships Example.no_location Sample.context
    = Raise (KeyError key).
Proof.
  refine (analyze_relationships_KeyError Example.no_location Sample.context
            Example.lost_user _ (or_intror eq_refl)).
  apply list_elem_of_In. left. reflexivity.
Defined.

(** Two users with an edge in each direction: the analysis returns. *)
Lemma analyze_relationships_returns_iff_witness :
  (∃ res, analyze_relationships Sample.both_directions Sample.context = Ok res)
  ↔ ∀ u r, (u, r) ∈ edges Sample.both_directions → is_Some (rel_target_id r).
Proof.
  refine (proj1 (analyze_relationships_returns_iff Sample.both_directions
                   Sample.context _ _ _)).
  - intros u Hu. apply list_elem_of_In in Hu. simpl in Hu.
    destruct Hu as [<- | [<- | []]]; split; eexists; reflexivity.
  - intros u r Hin. apply list_elem_of_In in Hin. simpl in Hin.
    destruct Hin as [[= <- <-] | [[= <- <-] | [[= <- <-] | []]]];
      left; eexists; reflexivity.
  - intros u v Hu Hv. apply list_elem_of_In in Hu, Hv. simpl in Hu, Hv.
    destruct Hu as [<- | [<- | []]], Hv as [<- | [<- | []]];
      eexists; vm_compute; reflexivity.
Defined.

(** A record of critical disconnect between users that are not distant, in
    traffic that is not jammed: the plain hint. *)
Lemma scout_hint_table_witness :
  analyze_relationships Sample.both_directions Sample.context
  = Ok Sample.both_directions_result ∧
  ∃ rec,
    rec ∈ Sample.both_directions_result ∧
    connection_health rec = CRITICAL_DISCONNECT ∧
    scout_hint rec = "Critical Disconnect detected."%string.
Proof.
  assert (H : analyze_relationships Sample.both_directions Sample.context
              = Ok Sample.both_directions_result)
    by (vm_compute; reflexivity).
  split; [exact H|].
  eexists. split; [apply list_elem_of_In; right; left; reflexivity|].
  split; [reflexivity|].
  match goal with
  | |- scout_hint ?r = _ =>
      assert (Hin : r ∈ Sample.both_directions_result)
        by (apply list_elem_of_In; right; left; reflexivity);
      exact (scout_hint_table _ _ _ r H Hin)
  end.
Defined.

(** The relationship types of the records of the two sample users are in
    upper case. *)
Lemma relationship_type_canonical_witness :
  analyze_relationships Sample.both_directions Sample.context
  = Ok Sample.both_directions_result ∧
  ∀ rec, rec ∈ Sample.both_directions_result →
         upper (relationship_type rec) = relationship_type rec.
Proof.
  assert (H : analyze_relationships Sample.both_directions Sample.context
              = Ok Sample.both_directions_result)
    by (vm_compute; reflexivity).
  split; [exact H|].
  intros rec Hin. exact (proj1 (relationship_type_canonical _ _ _ _ H Hin)).
Defined.

(** Two events under rain: the record of the first one. *)
Lemma curated_record_fields_witness :
  ∃ out,
    curate_opportunities [Example.park_run; Example.evening] Sample.context
      [Sample.classified "user_03_expat" MAINTENANCE]
    = Ok out ∧
    ∃ item,
      out !! 0 = Some item ∧
      event_id item = Some "ev_1"%string ∧
      (environment_match item = MISMATCH ↔
       outdoor_viability Sample.context = INDOOR_ONLY ∧
       event_is_outdoor Example.park_run = true).
Proof.
  eexists. split; [vm_compute; reflexivity|].
  match goal with
  | |- ∃ item, ?out !! 0 = _ ∧ _ =>
      assert (H : curate_opportunities [Example.park_run; Example.evening]
                    Sample.context
                    [Sample.classified "user_03_expat" MAINTENANCE] = Ok out)
        by (vm_compute; reflexivity);
      destruct (curated_record_fields _ _ _ _ 0 Example.park_run H eq_refl)
        as (item & Hitem & Hid & _ & _ & _ & Hmatch & _)
  end.
  exists item. split; [exact Hitem|]. split; [exact Hid | exact Hmatch].
Defined.

(** The expatriate's score for a social event: HIGH. *)
Lemma suitability_entries_witness :
  ∃ out item,
    curate_opportunities [Example.park_run; Example.evening] Sample.context
      [Sample.classified "user_03_expat" MAINTENANCE]
    = Ok out ∧
    out !! 1 = Some item ∧
    suitability item !! Some "user_03_expat"%string = Some HIGH ∧
    ∃ user,
      user ∈ [Sample.classified "user_03_expat" MAINTENANCE] ∧
      event_score Example.evening user = Ok HIGH.
Proof.
  eexists. eexists. split; [vm_compute; reflexivity|].
  match goal with
  | |- ?out !! 1 = Some _ ∧ _ =>
      assert (H : curate_opportunities [Example.park_run; Example.evening]
                    Sample.context
                    [Sample.classified "user_03_expat" MAINTENANCE] = Ok out)
        by (vm_compute; reflexivity)
  end.
  split; [reflexivity|].
  match goal with
  | |- suitability ?item !! ?uid = _ ∧ _ =>
      assert (Hs : suitability item !! uid = Some HIGH)
        by (vm_compute; reflexivity);
      destruct (suitability_entries _ _ _ _ 1 Example.evening item uid HIGH
                  H eq_refl eq_refl Hs)
        as (user & Hu & _ & Hscore & _)
  end.
  split; [exact Hs|]. exists user. split; [exact Hu | exact Hscore].
Defined.

(** A social event without name, scored for one user: AttributeError. *)
Lemma curate_opportunities_raises_witness :
  curate_opportunities [Example.nameless] Sample.context
    [Sample.classified "user_01_student" STRESS_RELIEF]
  = Raise AttributeError ∧
  ∃ event, event ∈ [Example.nameless] ∧ ev_name event = None ∧
           ev_type event = Some "SocialEvent"%string.
Proof.
  assert (H : curate_opportunities [Example.nameless] Sample.context
                [Sample.classified "user_01_student" STRESS_RELIEF]
              = Raise AttributeError)
    by (vm_compute; reflexivity).
  split; [exact H|].
  exact (proj2 (proj2 (curate_opportunities_raises _ _ _ _ H))).
Defined.

(** The sample request: the classifications follow the users. *)
Lemma user_cluster_map_aligned_witness :
  ∃ p,
    lambda_handler_steps Sample.utc_hour Example.request = Ok p ∧
    uc_user_id <$> out_user_cluster_map p
    = user_id <$> users_of Example.request.
Proof.
  eexists. split; [vm_compute; reflexivity|].
  apply (user_cluster_map_aligned Sample.utc_hour Example.request).
  vm_compute. reflexivity.
Defined.

(** The sample request: a suitability key is the id of a user of the request. *)
Lemma suitability_keys_are_user_ids_witness :
  ∃ p item,
    lambda_handler_steps Sample.utc_hour Example.request = Ok p ∧
    item ∈ out_curated_opportunity_feed p ∧
    suitability item !! Some "user_02_retired"%string = Some MEDIUM ∧
    ∃ u, u ∈ users_of Example.request ∧
         user_id u = Some "user_02_retired"%string.
Proof.
  eexists. eexists. split; [vm_compute; reflexivity|].
  split; [cbn [out_curated_opportunity_feed]; apply list_elem_of_In;
          right; left; reflexivity|].
  split; [vm_compute; reflexivity|].
  eapply (suitability_keys_are_user_ids Sample.utc_hour Example.request).
  - vm_compute. reflexivity.
  - cbn [out_curated_opportunity_feed]. apply list_elem_of_In.
    right. left. reflexivity.
  - vm_compute. reflexivity.
Defined.

(** The sample request: the park run is a mismatch, with the rain as reason. *)
Lemma mismatch_only_in_adverse_weather_witness :
  ∃ p item,
    lambda_handler_steps Sample.utc_hour Example.request = Ok p ∧
    item ∈ out_curated_opportunity_feed p ∧
    environment_match item = MISMATCH ∧
    ∃ condition,
      weather_main_of (feed_of Example.request) = Ok condition ∧
      condition ∈ THRESHOLDS.weather_bad_conditions ∧
      reason item = Some "Outdoor event during Rain"%string.
Proof.
  eexists. eexists. split; [vm_compute; reflexivity|].
  split; [cbn [out_curated_opportunity_feed]; apply list_elem_of_In;
          left; reflexivity|].
  split; [reflexivity|].
  eapply (mismatch_only_in_adverse_weather Sample.utc_hour Example.request).
  - vm_compute. reflexivity.
  - cbn [out_curated_opportunity_feed]. apply list_elem_of_In.
    left. reflexivity.
  - reflexivity.
Defined.

(** The sample request: the phone-call hint, under jammed traffic and for
    distant users. *)
Lemma phone_call_hint_needs_high_friction_witness :
  ∃ p rec,
    lambda_handler_steps Sample.utc_hour Example.request = Ok p ∧
    rec ∈ out_relationship_frictions p ∧
    scout_hint rec
    = "High Friction Travel + Critical Disconnect = Suggest Phone/Video Call."%string ∧
    (2.0 <=? traffic_idx_of (feed_of Example.request))%float = true ∧
    proximity_opportunity rec = DISTANT.
Proof.
  eexists. eexists. split; [vm_compute; reflexivity|].
  split; [cbn [out_relationship_frictions]; apply list_elem_of_In;
          left; reflexivity|].
  split; [reflexivity|].
  edestruct (phone_call_hint_needs_high_friction Sample.utc_hour
               Example.request) as (Hidx & Hprox & _).
  - vm_compute. reflexivity.
  - cbn [out_relationship_frictions]. apply list_elem_of_In.
    left. reflexivity.
  - reflexivity.
  - split; [exact Hidx | exact Hprox].
Defined.

(** The sample request: the isolated user is scored for the social event. *)
Lemma isolated_user_gets_social_events_witness :
  ∃ p,
    lambda_handler_steps Sample.utc_hour Example.request = Ok p ∧
    Example.commuter ∈ users_of Example.request ∧
    "ISOLATION_RISK"%string ∈ risks_of Example.commuter ∧
    events_of Example.request !! 1 = Some Example.evening ∧
    ∃ item,
      out_curated_opportunity_feed p !! 1 = Some item ∧
      (suitability item !! user_id Example.commuter = Some MEDIUM ∨
       suitability item !! user_id Example.commuter = Some HIGH).
Proof.
  eexists. split; [vm_compute; reflexivity|].
  assert (Hu : Example.commuter ∈ users_of Example.request)
    by (apply list_elem_of_In; left; reflexivity).
  assert (Hr : "ISOLATION_RISK"%string ∈ risks_of Example.commuter)
    by (apply list_elem_of_In; left; reflexivity).
  split; [exact Hu|]. split; [exact Hr|]. split; [reflexivity|].
  refine (isolated_user_gets_social_events Sample.utc_hour Example.request _
            Example.commuter 1 Example.evening _ Hu _ Hr eq_refl eq_refl).
  - vm_compute. reflexivity.
  - intros v Hv Hid. apply list_elem_of_In in Hv. simpl in Hv.
    destruct Hv as [<- | [<- | []]]; [reflexivity | discriminate Hid].
Defined.

End FurtherAtSamples.
